(** * Adaptive mesh refinement driven by a curl-mismatch error estimator

  A shallow embedding of [src/ErrorEstimator.py] and of the seafloor
  routine of [src/realisticmodel.py].

  Numbers are binary64 floats (Rocq's primitive floats), complex numbers
  are pairs of floats with numpy's arithmetic, numpy arrays are lists
  (lists of rows where the code depends on the second axis), Python
  integers are unbounded, Python exceptions are an explicit error
  result, and the Python list objects that the iteration schemes mutate
  live in an explicit store addressed by references.  What numpy leaves
  to the platform, the modulus of a complex number and the order inside
  a partition, is a parameter. *)

From Stdlib Require Import Floats ZArith Lia List Bool String Sorted Permutation.
From stdpp Require Import base option gmap.
Import ListNotations.

Set Warnings "-inexact-float".

Local Open Scope Z_scope.

(** ** Floating-point scalars and complex numbers *)

Module Num.

Definition is_nan (x : float) : bool := PrimFloat.is_nan x.

(** [x > y] and [x < y] of Python on floats: false when either is NaN. *)
Definition gt (x y : float) : bool := PrimFloat.ltb y x.
Definition lt (x y : float) : bool := PrimFloat.ltb x y.

Record complex : Type := Cx { re : float; im : float }.

Definition of_real (x : float) : complex := Cx x 0%float.
Definition czero : complex := Cx 0%float 0%float.
(** The literal [1j]. *)
Definition imag_unit : complex := Cx 0%float 1%float.

Definition cadd (a b : complex) : complex :=
  Cx (re a + re b)%float (im a + im b)%float.
Definition csub (a b : complex) : complex :=
  Cx (re a - re b)%float (im a - im b)%float.
Definition cmul (a b : complex) : complex :=
  Cx (re a * re b - im a * im b)%float (re a * im b + im a * re b)%float.
(** [a / b] as numpy's division loop computes it: the part of the
    divisor that is larger in magnitude divides the other one first; a
    divisor with both parts zero divides both parts of [a] by that zero. *)
Definition cdiv (a b : complex) : complex :=
  let in1r := re a in
  let in1i := im a in
  let in2r := re b in
  let in2i := im b in
  let in2r_abs := PrimFloat.abs in2r in
  let in2i_abs := PrimFloat.abs in2i in
  if PrimFloat.leb in2i_abs in2r_abs then
    if PrimFloat.eqb in2r_abs 0 && PrimFloat.eqb in2i_abs 0 then
      Cx (in1r / in2r_abs)%float (in1i / in2r_abs)%float
    else
      let rat := (in2i / in2r)%float in
      let scl := (1 / (in2r + in2i * rat))%float in
      Cx ((in1r + in1i * rat) * scl)%float ((in1i - in1r * rat) * scl)%float
  else
    let rat := (in2r / in2i)%float in
    let scl := (1 / (in2i + in2r * rat))%float in
    Cx ((in1r * rat + in1i) * scl)%float ((in1i * rat - in1r) * scl)%float.
(** [np.isnan] of a complex number: either part is NaN. *)
Definition cis_nan (a : complex) : bool := is_nan (re a) || is_nan (im a).

(** Triples: a row of three values, one per axis. *)
Record vec3 (A : Type) : Type := V3 { c0 : A; c1 : A; c2 : A }.
Arguments V3 {A} _ _ _.
Arguments c0 {A} _.
Arguments c1 {A} _.
Arguments c2 {A} _.

Definition vmap {A B} (f : A -> B) (v : vec3 A) : vec3 B :=
  V3 (f (c0 v)) (f (c1 v)) (f (c2 v)).
Definition vzip {A B C} (f : A -> B -> C) (u : vec3 A) (v : vec3 B) : vec3 C :=
  V3 (f (c0 u) (c0 v)) (f (c1 u) (c1 v)) (f (c2 u) (c2 v)).

(** [x.dot(x)] of a real vector of three entries. *)
Definition dot3 (v : vec3 float) : float :=
  (c0 v * c0 v + c1 v * c1 v + c2 v * c2 v)%float.

(** [np.linalg.norm] of a complex vector: the square root of the dot
    product of the real parts plus that of the imaginary parts. *)
Definition norm_complex (v : vec3 complex) : float :=
  PrimFloat.sqrt (dot3 (vmap re v) + dot3 (vmap im v))%float.

(** The decoded forms of a float that is not below zero: NaN, a zero, or
    a number or infinity with the sign bit clear. *)
Definition nonneg_shape (s : spec_float) : Prop :=
match s with
| S754_nan | S754_zero _ | S754_infinity false | S754_finite false _ _ => True
| _ => False
end.

(** A float that is a number: a zero or a finite value, no infinity and
    no NaN. *)
Definition is_finite (x : float) : bool :=
match Prim2SF x with
| S754_zero _ | S754_finite _ _ _ => true
| _ => false
end.

Definition cfinite (a : complex) : bool := is_finite (re a) && is_finite (im a).

(** [np.linalg.norm] of a real vector. *)
Definition norm_real (v : vec3 float) : float := PrimFloat.sqrt (dot3 v).

(** The exponent binary64 gives a number of [e] binary digits. *)
Abbreviation fexp64 := (SpecFloat.fexp prec emax).

(** The float nearest to an integer, ties to even: the conversion of a
    Python [int] to a float64; infinite from [2^1024] on. *)
Definition float_of_Z (n : Z) : float :=
SF2Prim (binary_normalize prec emax n 0 false).

(** The result of rounding once mantissa and exponent are settled: a
    zero, a finite number, or an infinity past the largest exponent. *)
Definition finish (s : bool) (m e : Z) : spec_float :=
match m with
| Z0 => S754_zero s
| Zpos p => if e <=? emax - prec then S754_finite s p e else S754_infinity s
| Zneg _ => S754_nan
end.

(** [m1 * 2^e1 <= m2 * 2^e2], on integers. *)
Definition vle (m1 e1 m2 e2 : Z) : Prop :=
m1 * 2 ^ (e1 - Z.min e1 e2) <= m2 * 2 ^ (e2 - Z.min e1 e2).

(** [m * 2^e] in units of the smallest positive float. *)
Definition scaled (m e : Z) : Z := m * 2 ^ (e + 1074).

End Num.

Import Num.

(** A 3-D sample point, and an interpolator: a callable from the three
  coordinates of a point to a complex field value. *)
Definition point : Type := (float * float * float)%type.
Definition interpolator : Type := point -> complex.

(** A 3x3 matrix as three rows; [entry m i j] is [m[i, j]]. *)
Definition mat3 : Type := vec3 (vec3 complex).

Definition row {A} (v : vec3 A) (i : nat) : A :=
match i with O => c0 v | S O => c1 v | _ => c2 v end.
Definition entry (m : mat3) (i j : nat) : complex := row (row m i) j.

(** ** Python exceptions and numpy array helpers *)

Inductive exn : Type :=
| ZeroDivisionError | ValueError | OverflowError | IndexError
| TypeError | AttributeError | UnboundLocalError | NameError.

Inductive result (A : Type) : Type :=
| Ok (a : A)
| Raise (e : exn).
Arguments Ok {A} _.
Arguments Raise {A} _.

Definition rbind {A B} (r : result A) (k : A -> result B) : result B :=
match r with Ok a => k a | Raise e => Raise e end.

Notation "'try!' x ':=' r 'in' k" := (rbind r (fun x => k))
  (at level 10, x name, r at level 100, k at level 200).

Definition is_ok {A} (r : result A) : bool :=
match r with Ok _ => true | Raise _ => false end.

(** The conversion of a Python [int] (a length) to a float. *)
Definition float_of_nat (n : nat) : float :=
PrimFloat.of_uint63 (Uint63.of_Z (Z.of_nat n)).

(** The two kinds of number the loop counter of the iteration schemes
    holds: a Python [int], of any size, in a fresh run, and a numpy
    [float64] in a resumed one, where it is read from an array. *)
Inductive number : Type :=
| PyInt (n : Z)
| Float64 (x : float).

(** The value numpy stores when the number enters a float64 array. *)
Definition to_float64 (a : number) : float :=
match a with
| PyInt n => float_of_Z n
| Float64 x => x
end.

(** [a < b]: exact on two [int]s, the float comparison otherwise. *)
Definition num_lt (a b : number) : bool :=
match a, b with
| PyInt m, PyInt n => m <? n
| _, _ => PrimFloat.ltb (to_float64 a) (to_float64 b)
end.

(** [a + 1]: exact on an [int], rounded on a [float64]. *)
Definition num_succ (a : number) : number :=
match a with
| PyInt n => PyInt (n + 1)
| Float64 x => Float64 (x + 1)%float
end.

(** The conversion of a Python [int] that meets a [float64] in an
    arithmetic operation: an [int] too large for a float raises. *)
Definition py_float (n : Z) : result float :=
let x := float_of_Z n in
if PrimFloat.is_infinity x then Raise OverflowError else Ok x.

(** [int(np.ceil(x))]: exact on the finite floats; [int] raises on an
    infinity ([OverflowError]) and on NaN ([ValueError]). *)
Definition int_ceil (x : float) : result Z :=
match Prim2SF x with
| S754_zero _ => Ok 0
| S754_finite s m e =>
    let mag_floor := if 0 <=? e then Z.pos m * 2 ^ e else Z.pos m / 2 ^ (- e) in
    let mag_ceil := if 0 <=? e then Z.pos m * 2 ^ e
                    else (Z.pos m + 2 ^ (- e) - 1) / 2 ^ (- e) in
    Ok (if s then - mag_floor else mag_ceil)
| S754_infinity _ => Raise OverflowError
| S754_nan => Raise ValueError
end.

(** A Python slice [a[lo:hi]] with both bounds non-negative: bounds past
    the end are clipped, never an error. *)
Definition slice {A} (a : list A) (lo hi : nat) : list A :=
firstn (hi - lo) (skipn lo a).

(** A Python slice [a[start:]] where [start] may be negative (counted from
    the end, clipped at the front). [-0] is [0]: [a[-0:]] is all of [a]. *)
Definition slice_from {A} (a : list A) (start : Z) : list A :=
let n := Z.of_nat (length a) in
let s := if start <? 0 then Z.max 0 (n + start) else Z.min start n in
skipn (Z.to_nat s) a.

(** [a[idx]] for an integer index array: a new array, the rows of [a] at
    the listed positions; an index past the end raises. *)
Fixpoint take_rows {A} (a : list A) (idx : list nat) : result (list A) :=
match idx with
| [] => Ok []
| i :: rest =>
    match nth_error a i with
    | Some x => try! xs := take_rows a rest in Ok (x :: xs)
    | None => Raise IndexError
    end
end.

(** The order numpy sorts floats in: ascending, NaN after everything. *)
Definition sort_le (x y : float) : bool :=
if is_nan y then true else if is_nan x then false else PrimFloat.leb x y.

(** The same order read off the decoded floats: a key per float, compared
    lexicographically, with NaN above everything. *)
Definition sf_key (s : spec_float) : Z * Z * Z :=
match s with
| S754_nan => (3, 0, 0)
| S754_infinity true => (-2, 0, 0)
| S754_infinity false => (2, 0, 0)
| S754_zero _ => (0, 0, 0)
| S754_finite true m e => (-1, - e, - Z.pos m)
| S754_finite false m e => (1, e, Z.pos m)
end.

Definition lex_le (a b : Z * Z * Z) : Prop :=
fst (fst a) < fst (fst b)
\/ (fst (fst a) = fst (fst b)
    /\ (snd (fst a) < snd (fst b)
        \/ (snd (fst a) = snd (fst b) /\ snd a <= snd b))).

(** Index [i] sorts before index [j] in the array [a]. *)
Definition index_le (a : list float) (i j : nat) : Prop :=
sort_le (nth i a nan) (nth j a nan) = true.

Fixpoint insert_index (a : list float) (i : nat) (sorted : list nat) : list nat :=
match sorted with
| [] => [i]
| j :: rest =>
    if sort_le (nth i a nan) (nth j a nan) then i :: sorted
    else j :: insert_index a i rest
end.

Definition argsort (a : list float) : list nat :=
fold_right (insert_index a) [] (seq 0 (length a)).

(** numpy routines whose answer the inputs do not fix.  [npy_hypot x y]
    is the modulus [np.abs] returns for the complex number with parts [x]
    and [y], computed by the platform's [hypot] or by numpy's vector loop.
    [introselect a k] is the index array numpy's selection leaves for the
    position [k] inside the array [a]. *)
Class NumPy : Type := {
  npy_hypot : float -> float -> float;
  introselect : list float -> nat -> list nat
}.

(** What numpy documents of the selection: a permutation of the indices
    with position [k] in its sorted place, no larger key before it and no
    smaller key after it. *)
Class NumPyLaws (NP : NumPy) : Prop := {
  introselect_permutation : forall (a : list float) (k : nat),
    (k < length a)%nat -> Permutation (introselect a k) (seq 0 (length a));
  introselect_before : forall (a : list float) (k i : nat),
    (k < length a)%nat -> (i <= k)%nat ->
    index_le a (nth i (introselect a k) 0%nat) (nth k (introselect a k) 0%nat);
  introselect_after : forall (a : list float) (k i : nat),
    (k <= i)%nat -> (i < length a)%nat ->
    index_le a (nth k (introselect a k) 0%nat) (nth i (introselect a k) 0%nat)
}.

(** [np.abs] of a complex number. *)
Definition cabs `{NumPy} (a : complex) : float := npy_hypot (re a) (im a).

(** [kth] as the C index numpy converts it to: an [int] of the int64
    range as it is, one of the rest of the uint64 range wrapped around,
    any other [int] is no integer array and raises [TypeError]. *)
Definition intp_of_kth (kth : Z) : result Z :=
if (- 2 ^ 63 <=? kth) && (kth <? 2 ^ 63) then Ok kth
else if (2 ^ 63 <=? kth) && (kth <? 2 ^ 64) then Ok (kth - 2 ^ 64)
else Raise TypeError.

(** A negative [kth] counts from the end. *)
Definition normalize_kth (n kth : Z) : Z := if kth <? 0 then kth + n else kth.

(** [np.argpartition(a, kth)] in the order numpy works: [kth] is
    converted to a C index, counted from the end when negative, and
    checked against the bounds of the array unless the array is empty. *)
Definition argpartition_checked `{NumPy} (a : list float) (kth : Z)
  : result (list nat) :=
let n := Z.of_nat (length a) in
try! kth := intp_of_kth kth in
let k := normalize_kth n kth in
if n =? 0 then Ok []
else if (0 <=? k) && (k <? n) then Ok (introselect a (Z.to_nat k))
else Raise ValueError.

(** [np.argpartition(a, kth)].  An array has fewer than [2^63] entries,
    so a [kth] inside the array is a C index and is served at once; every
    other [kth] goes through [argpartition_checked]. *)
Definition argpartition `{NumPy} (a : list float) (kth : Z) : result (list nat) :=
let n := Z.of_nat (length a) in
let k := normalize_kth n kth in
if (0 <=? k) && (k <? n) then Ok (introselect a (Z.to_nat k))
else argpartition_checked a kth.

(** [model[mask] = value] with a boolean mask: numpy requires the mask to
    have the length of the array. *)
Definition mask_assign (a : list float) (mask : list bool) (v : float)
  : result (list float) :=
if Nat.eqb (length mask) (length a)
then Ok (map (fun p : float * bool => if snd p then v else fst p) (combine a mask))
else Raise IndexError.

(** [a[mask]] with a boolean mask of the array's length. *)
Definition mask_select {A} (a : list A) (mask : list bool) : result (list A) :=
if Nat.eqb (length mask) (length a)
then Ok (map fst (List.filter (fun p : A * bool => snd p) (combine a mask)))
else Raise IndexError.

(** A complex array of two axes, as SimPEG hands out fields and source
    terms: one row per face or edge of the mesh, one column per source.
    Every row has [a2_cols] entries. *)
Record array2 : Type := mkArray2 {
  a2_cols : nat;
  a2_rows : list (list complex)
}.

(** [c * a] for a complex scalar [c]. *)
Definition array2_scale (c : complex) (a : array2) : array2 :=
mkArray2 (a2_cols a) (map (map (cmul c)) (a2_rows a)).

(** The common extent of two axes under numpy's broadcasting: equal
    extents, or one of them 1. *)
Definition broadcast_dim (m n : nat) : option nat :=
if Nat.eqb m n then Some m
else if Nat.eqb m 1 then Some n
else if Nat.eqb n 1 then Some m
else None.

(** Entry [i, j] of an array stretched to a broadcast shape: an axis of
    extent 1 is read at 0 throughout. *)
Definition a2_entry (a : array2) (i j : nat) : complex :=
nth (if Nat.eqb (a2_cols a) 1 then 0%nat else j)
    (nth (if Nat.eqb (length (a2_rows a)) 1 then 0%nat else i) (a2_rows a) [])
    czero.

(** [x - y]: elementwise on the broadcast shape; shapes that do not
    broadcast raise. *)
Definition array2_sub (x y : array2) : result array2 :=
match broadcast_dim (length (a2_rows x)) (length (a2_rows y)),
      broadcast_dim (a2_cols x) (a2_cols y) with
| Some n, Some k =>
    Ok (mkArray2 k
          (map (fun i => map (fun j => csub (a2_entry x i j) (a2_entry y i j))
                           (seq 0 k))
               (seq 0 n)))
| _, _ => Raise ValueError
end.

(** [np.reshape(a, len(a))]: the entries in row order as one axis of
    [len(a)] entries; numpy raises unless that is all of them. *)
Definition reshape_to_len (a : array2) : result (list complex) :=
let n := length (a2_rows a) in
if Nat.eqb (n * a2_cols a) n then Ok (concat (a2_rows a)) else Raise ValueError.

(** [ind_active.sum()] *)
Definition count_true (mask : list bool) : nat := length (List.filter (fun b : bool => b) mask).

(** [sum(xs)] of Python: from the integer [0], left to right. *)
Definition py_sum (xs : list float) : float := fold_left PrimFloat.add xs 0%float.

(** ** The libraries the engine calls *)

(** numdifftools. [nd_Jacobian order f cell] is [nd.Jacobian(f, order=order)(cell)]:
    a 3x3 array whose entry [i, j] is the derivative of output [i] along
    input [j]. *)
Class NumDiffTools : Type := {
  nd_Jacobian : nat -> (point -> vec3 complex) -> point -> mat3
}.

(** scipy.interpolate: the three interpolator constructors. *)
Class SciPy : Type := {
  Rbf : list float -> list float -> list float -> list complex -> interpolator;
  LinearNDInterpolator : list point -> list complex -> interpolator;
  NearestNDInterpolator : list point -> list complex -> interpolator
}.

(** The octree mesh of discretize together with the helpers of the
    repository's [Meshing] module, which the engine imports and calls;
    what they compute is left open.  [refine_at_locations] and [finalize]
    update the mesh object in place; the updated mesh is returned here.
    [get_ind_block_axis] and [get_ind_block_degrees_rad] are the values
    [get_ind_block] itself supplies when a call leaves out the rotation. *)
Class MeshLib : Type := {
  Mesh : Type;
  faces_x : Mesh -> list point;
  faces_y : Mesh -> list point;
  faces_z : Mesh -> list point;
  edges_x : Mesh -> list point;
  edges_y : Mesh -> list point;
  edges_z : Mesh -> list point;
  n_faces_x : Mesh -> nat;
  n_faces_y : Mesh -> nat;
  n_faces_z : Mesh -> nat;
  n_edges_x : Mesh -> nat;
  n_edges_y : Mesh -> nat;
  n_edges_z : Mesh -> nat;
  n_cells : Mesh -> nat;
  cell_centers : Mesh -> list point;
  finalize : Mesh -> Mesh;
  create_octree_mesh :
    list (float * float) -> list float -> list point -> string -> Mesh;
  refine_at_locations : Mesh -> list point -> Mesh;
  get_ind_block :
    Mesh -> list bool -> list float -> string -> float -> list bool;
  get_ind_block_axis : string;
  get_ind_block_degrees_rad : float;
  get_ind_sphere : Mesh -> list bool -> list float -> float -> list bool;
  search_area_object : Mesh -> list point -> float -> list point;
  search_area_receivers : Mesh -> list point -> float -> list point;
  search_area_sources : Mesh -> list point -> float -> list point;
  search_area_landscape :
    Mesh -> list (float * float) -> list point -> float -> list point
}.

(** [maps.InjectActiveCells(mesh, ind_active, value)] *)
Record InjectActiveCells `{MeshLib} : Type := mkInjectActiveCells {
  iac_mesh : Mesh;
  iac_ind_active : list bool;
  iac_value : float
}.

Inductive formulation : Type :=
| Simulation3DMagneticFluxDensity
| Simulation3DElectricField.

(** The keyword a simulation receives its model map under. *)
Inductive map_keyword : Type := rhoMap | sigmaMap.

(** SimPEG.  A field solution [fields[:, name]] and a source term are
    arrays of two axes: one row per face (flux density, source term) or
    per edge (electric field) of the mesh, one column per source of the
    survey.  The linear solver is fixed when the module is loaded and is
    part of the instance. *)
Class SimPEG `{MeshLib} : Type := {
  Survey : Type;
  surface2ind_topo : Mesh -> list point -> list bool;
  fields_solution :
    formulation -> Mesh -> Survey -> map_keyword -> InjectActiveCells ->
    list float -> array2;
  getSourceTerm :
    formulation -> Mesh -> Survey -> map_keyword -> InjectActiveCells ->
    float -> array2 * array2
}.

(** ** ErrorEstimator.py: interpolation, curl estimate, cell error *)

Module ErrorEstimator.

Section Engine.

Context `{NP : NumPy} `{ND : NumDiffTools} `{SP : SciPy} `{ML : MeshLib}
  `{EM : !SimPEG}.

Definition interp3 : Type := (interpolator * interpolator * interpolator)%type.

(** Column [k] of an array of points: [x[:, k]]. *)
Definition column (k : nat) (pts : list point) : list float :=
map (fun p : point =>
       match k with
       | O => fst (fst p)
       | S O => snd (fst p)
       | _ => snd p
       end) pts.

Definition interpolate_rbf (x y z : list point) (x_val y_val z_val : list complex)
  : interp3 :=
let x_interpolated := Rbf (column 0 x) (column 1 x) (column 2 x) x_val in
let y_interpolated := Rbf (column 0 y) (column 1 y) (column 2 y) y_val in
let z_interpolated := Rbf (column 0 z) (column 1 z) (column 2 z) z_val in
(x_interpolated, y_interpolated, z_interpolated).

Definition interpolate_nearest (x y z : list point) (x_val y_val z_val : list complex)
  : interp3 :=
let x_interpolated := NearestNDInterpolator x x_val in
let y_interpolated := NearestNDInterpolator y y_val in
let z_interpolated := NearestNDInterpolator z z_val in
(x_interpolated, y_interpolated, z_interpolated).

Definition interpolate_linear (x y z : list point) (x_val y_val z_val : list complex)
  : interp3 :=
let x_interpolated := LinearNDInterpolator x x_val in
let y_interpolated := LinearNDInterpolator y y_val in
let z_interpolated := LinearNDInterpolator z z_val in
(x_interpolated, y_interpolated, z_interpolated).

(** The choice of interpolation routine by name. *)
Definition select_interpolator (interpolation : string)
  : list point -> list point -> list point ->
    list complex -> list complex -> list complex -> interp3 :=
if String.eqb interpolation "rbf"%string then interpolate_rbf
else if String.eqb interpolation "linear"%string then interpolate_linear
else interpolate_nearest.

Definition select_keyword (parameter : string) : map_keyword :=
if String.eqb parameter "resistivity"%string then rhoMap else sigmaMap.

(** The six interpolators [estimate_curl_electric_field] returns, in the
    order curl_x, curl_y, curl_z, E_x, E_y, E_z. *)
Record six : Type := mkSix {
  curl_x_inter : interpolator;
  curl_y_inter : interpolator;
  curl_z_inter : interpolator;
  EF_x_inter : interpolator;
  EF_y_inter : interpolator;
  EF_z_inter : interpolator
}.

(** [curl = Sm - 1j * omega * magnetic_flux_density] followed by
    [curl = np.reshape(curl, len(curl))]. *)
Definition face_curl (Sm : array2) (omega : float)
    (magnetic_flux_density : array2) : result (list complex) :=
try! curl :=
  array2_sub Sm
    (array2_scale (cmul imag_unit (of_real omega)) magnetic_flux_density) in
reshape_to_len curl.

Definition estimate_curl_electric_field (mesh : Mesh) (survey : Survey)
    (model_map : InjectActiveCells) (model : list float)
    (interpolation : string) (frequency omega : float) (parameter : string)
  : result six :=
let x_faces := faces_x mesh in
let y_faces := faces_y mesh in
let z_faces := faces_z mesh in
let x_edges := edges_x mesh in
let y_edges := edges_y mesh in
let z_edges := edges_z mesh in
let keyword := select_keyword parameter in
let magnetic_flux_density :=
  fields_solution Simulation3DMagneticFluxDensity mesh survey keyword model_map model in
let sources :=
  getSourceTerm Simulation3DMagneticFluxDensity mesh survey keyword model_map frequency in
let Sm := fst sources in
try! curl := face_curl Sm omega magnetic_flux_density in
let x_curl := slice curl 0 (n_faces_x mesh) in
let y_curl := slice curl (n_faces_x mesh) (n_faces_x mesh + n_faces_y mesh) in
let z_curl := slice curl (n_faces_x mesh + n_faces_y mesh)
                (n_faces_x mesh + n_faces_y mesh + n_faces_z mesh) in
let interpolator := select_interpolator interpolation in
let '(curl_x_inter, curl_y_inter, curl_z_inter) :=
  interpolator x_faces y_faces z_faces x_curl y_curl z_curl in
let EF :=
  fields_solution Simulation3DElectricField mesh survey keyword model_map model in
try! EF := reshape_to_len EF in
let EF_x := slice EF 0 (n_edges_x mesh) in
let EF_y := slice EF (n_edges_x mesh) (n_edges_x mesh + n_edges_y mesh) in
let EF_z := slice EF (n_edges_x mesh + n_edges_y mesh)
              (n_edges_x mesh + n_edges_y mesh + n_edges_z mesh) in
let '(EF_x_inter, EF_y_inter, EF_z_inter) :=
  interpolator x_edges y_edges z_edges EF_x EF_y EF_z in
Ok (mkSix curl_x_inter curl_y_inter curl_z_inter EF_x_inter EF_y_inter EF_z_inter).

(** [jacobian[np.isnan(jacobian)] = 0] *)
Definition nan_to_zero (m : mat3) : mat3 :=
vmap (vmap (fun z => if cis_nan z then czero else z)) m.

Definition curl_of_jacobian (jacobian : mat3) : vec3 complex :=
V3 (csub (entry jacobian 2 1) (entry jacobian 1 2))
   (csub (entry jacobian 0 2) (entry jacobian 2 0))
   (csub (entry jacobian 1 0) (entry jacobian 0 1)).

Definition compute_cell_error (cell : point)
    (curl_x curl_y curl_z ef_x ef_y ef_z : interpolator) : float :=
let ef_interpolator := fun x => V3 (ef_x x) (ef_y x) (ef_z x) in
let jacobian := nd_Jacobian 2 ef_interpolator cell in
let jacobian := nan_to_zero jacobian in
let curl := curl_of_jacobian jacobian in
let curl_field := V3 (curl_x cell) (curl_y cell) (curl_z cell) in
let error := norm_complex (vzip csub curl_field curl) in
error.

(** The array [estimate_error] saves to [error.npy]. *)
Definition cell_errors_of (search_area : list point)
    (curl_x curl_y curl_z ef_x ef_y ef_z : interpolator) : list float :=
map (fun cell => compute_cell_error cell curl_x curl_y curl_z ef_x ef_y ef_z)
    search_area.

Definition n_refine_cells_of (refine_percentage : float) (search_area : list point)
  : result Z :=
int_ceil (refine_percentage * float_of_nat (length search_area))%float.

(** [estimate_error], without the write of the error array to
    [error.npy] (see [cell_errors_of]). *)
Definition estimate_error (search_area : list point)
    (curl_x curl_y curl_z ef_x ef_y ef_z : interpolator)
    (refine_percentage : float) : result (list point) :=
let cell_errors := cell_errors_of search_area curl_x curl_y curl_z ef_x ef_y ef_z in
try! n_refine_cells := n_refine_cells_of refine_percentage search_area in
try! partition := argpartition cell_errors (- n_refine_cells) in
let cells_to_refine :=
  take_rows search_area (slice_from partition (- n_refine_cells)) in
cells_to_refine.

(** ** The Python lists of the refinement history

    A history list is an object: the iteration schemes append to it in
    place, and in resume mode it is the caller's own list.  The store maps
    a reference to the current content of the list it names. *)

Record store : Type := mkStore {
  lists : gmap nat (list (list point));
  next_loc : nat
}.

(** [[]]: a new empty list. *)
Definition new_list (s : store) : nat * store :=
(next_loc s, mkStore (<[next_loc s := []]> (lists s)) (S (next_loc s))).

(** The content of a list variable; [None] is Python's [None]. *)
Definition list_read (s : store) (l : option nat) : result (list (list point)) :=
match l with
| None => Raise TypeError
| Some r =>
    match lists s !! r with
    | Some xs => Ok xs
    | None => Raise NameError
    end
end.

(** [l.append(x)] *)
Definition list_append (s : store) (l : option nat) (x : list point) : result store :=
match l with
| None => Raise AttributeError
| Some r =>
    match lists s !! r with
    | Some xs => Ok (mkStore (<[r := xs ++ [x]]> (lists s)) (next_loc s))
    | None => Raise NameError
    end
end.

(** The local variables of the two iteration schemes.  The counter [i]
    is a Python [int] in a fresh run and a [float64] in a resumed one; a
    row of the convergence record is a pair of an iteration number and a
    difference, which numpy stores as two floats once the record is an
    array.  [st_ef] holds
    [ef_x, ef_y, ef_z] and is [None] until the first assignment;
    [st_ef_old] holds [ef_old_x, ef_old_y, ef_old_z], each possibly
    Python's [None] in resume mode.  The three history variables hold
    references into [st_store]. *)
Record loop_state : Type := mkLoop {
  st_mesh : Mesh;
  st_model_map : InjectActiveCells;
  st_model : list float;
  st_ind_object : list bool;
  st_diff : float;
  st_i : number;
  st_av_diff_list : list (number * float);
  st_ef : option interp3;
  st_ef_old : option (option interpolator * option interpolator * option interpolator);
  st_first_list : option nat;
  st_receivers_list : option nat;
  st_sources_list : option nat;
  st_store : store
}.

Definition call (f : option interpolator) (x : point) : result complex :=
match f with
| Some g => Ok (g x)
| None => Raise TypeError
end.

Definition ef_interpolator (ef : interp3) (x : point) : vec3 complex :=
let '(ef_x, ef_y, ef_z) := ef in V3 (ef_x x) (ef_y x) (ef_z x).

Definition ef_old_interpolator
    (ef_old : option (option interpolator * option interpolator * option interpolator))
    (x : point) : result (vec3 complex) :=
match ef_old with
| None => Raise NameError
| Some (ef_old_x, ef_old_y, ef_old_z) =>
    try! vx := call ef_old_x x in
    try! vy := call ef_old_y x in
    try! vz := call ef_old_z x in
    Ok (V3 vx vy vz)
end.

(** [np.linalg.norm(np.abs((old - new) / old))] at one cell. *)
Definition relative_difference_at
    (ef_old : option (option interpolator * option interpolator * option interpolator))
    (ef : interp3) (cell : point) : result float :=
try! old := ef_old_interpolator ef_old cell in
let form := vmap cabs (vzip cdiv (vzip csub old (ef_interpolator ef cell)) old) in
Ok (norm_real form).

Fixpoint relative_differences
    (ef_old : option (option interpolator * option interpolator * option interpolator))
    (ef : interp3) (cells : list point) : result (list float) :=
match cells with
| [] => Ok []
| cell :: rest =>
    try! d := relative_difference_at ef_old ef cell in
    try! ds := relative_differences ef_old ef rest in
    Ok (d :: ds)
end.

(** [sum(xs) / len(xs)] *)
Definition average (xs : list float) : result float :=
match xs with
| [] => Raise ZeroDivisionError
| _ => Ok (py_sum xs / float_of_nat (length xs))%float
end.

(** The comparison of the previous and the current electric field over
    the three search areas, in the order the loops walk them. *)
Definition average_relative_difference
    (ef_old : option (option interpolator * option interpolator * option interpolator))
    (ef : interp3) (area1 area2 area3 : list point) : result float :=
try! relative_difference_Efield :=
  relative_differences ef_old ef (area1 ++ area2 ++ area3) in
average relative_difference_Efield.

(** [for r in history: refine_at_locations(mesh, r)] *)
Definition refine_all (mesh : Mesh) (history : list (list point)) : Mesh :=
fold_left refine_at_locations history mesh.

(** The mesh a loop body ends with: built anew, refined at the sources,
    at the receivers and at every entry of the three history lists, then
    finalized. *)
Definition rebuilt_mesh (domain : list (float * float)) (cell_width : list float)
    (feature source_locations receiver_locations : list point)
    (first receivers sources : list (list point)) : Mesh :=
finalize
  (refine_all
     (refine_all
        (refine_all
           (refine_at_locations
              (refine_at_locations
                 (create_octree_mesh domain cell_width feature "surface"%string)
                 source_locations)
              receiver_locations)
           first)
        receivers)
     sources).

(** The loop condition [diff > 0.01 and i < lim_iterations]. *)
Definition loop_condition (lim_iterations : number) (st : loop_state) : bool :=
gt (st_diff st) 0.01%float && num_lt (st_i st) lim_iterations.

(** [while diff > 0.01 and i < lim_iterations: body].  The result is the
    number of times the body was entered together with the state the loop
    was left in, or the exception a body raised; [None] when the fuel ran
    out before the condition turned false. *)
Fixpoint while_loop (fuel : nat) (lim_iterations : number)
    (body : loop_state -> result loop_state) (st : loop_state)
  : option (nat * result loop_state) :=
if loop_condition lim_iterations st then
  match fuel with
  | O => None
  | S fuel' =>
      match body st with
      | Raise e => Some (1%nat, Raise e)
      | Ok st' =>
          match while_loop fuel' lim_iterations body st' with
          | None => None
          | Some (n, r) => Some (S n, r)
          end
      end
  end
else Some (0%nat, Ok st).

(** [np.array(av_diff_list)]: the convergence record as an array of
    floats, one row per entry. *)
Definition record_array (av_diff_list : list (number * float))
  : list (float * float) :=
map (fun r : number * float => (to_float64 (fst r), snd r)) av_diff_list.

(** What the schemes return: five values after convergence, the same five
    and the three history lists otherwise. *)
Inductive returned : Type :=
| Short (mesh : Mesh) (ef_x ef_y ef_z : interpolator)
        (av_diff : list (float * float))
| Long (mesh : Mesh) (ef_x ef_y ef_z : interpolator)
       (av_diff : list (float * float))
       (first_list receivers_list sources_list : option nat).

(** The [if diff < 0.01: return ... else: return ...] both schemes end in. *)
Definition return_of (st : loop_state) : result returned :=
match st_ef st with
| None => Raise UnboundLocalError
| Some (ef_x, ef_y, ef_z) =>
    if lt (st_diff st) 0.01%float
    then Ok (Short (st_mesh st) ef_x ef_y ef_z
               (record_array (st_av_diff_list st)))
    else Ok (Long (st_mesh st) ef_x ef_y ef_z
               (record_array (st_av_diff_list st))
               (st_first_list st) (st_receivers_list st) (st_sources_list st))
end.

(** The state of a fresh run of [iterator] after [k] bodies: three
    different lists of [k] entries each, the counter at [k], and a record
    of [k - 1] pairs. *)
Definition fresh_invariant (r : nat) (k : nat) (st : loop_state) : Prop :=
st_first_list st = Some r
/\ st_receivers_list st = Some (S r)
/\ st_sources_list st = Some (S (S r))
/\ (exists l1 l2 l3,
      lists (st_store st) !! r = Some l1
      /\ lists (st_store st) !! S r = Some l2
      /\ lists (st_store st) !! S (S r) = Some l3
      /\ length l1 = k /\ length l2 = k /\ length l3 = k)
/\ st_i st = PyInt (Z.of_nat k)
/\ length (st_av_diff_list st) = Nat.pred k.

(** ** iterator *)

(** The arguments of [iterator], under the names of its signature. *)
Record iterator_args : Type := mkIteratorArgs {
  it_mesh : Mesh;
  it_domain : list (float * float);
  it_surface : list point;
  it_cell_width : list float;
  it_objct : list point;
  it_coordinates : list float;
  it_receiver_locations : list point;
  it_source_locations : list point;
  it_survey : Survey;
  it_par_background : float;
  it_par_object : float;
  it_ind_object : list bool;
  it_frequency : float;
  it_omega : float;
  it_parameter : string;
  it_interpolation : string;
  it_type_object : string;
  it_lim_iterations : Z;
  it_factor_object : float;
  it_factor_receiver : float;
  it_factor_source : float;
  it_refine_percentage : float;
  it_axis : string;
  it_degrees_rad : float;
  it_radius : float;
  it_Ex : option interpolator;
  it_Ey : option interpolator;
  it_Ez : option interpolator;
  it_diff_list : list (float * float);
  it_r_a_o_list : option nat;
  it_r_a_r_list : option nat;
  it_r_a_s_list : option nat
}.

(** [diff_list[0, 0] == 0] on the float64 array [diff_list], a row per
    pair; an empty array has no row [0]. *)
Definition starts_fresh (diff_list : list (float * float)) : result bool :=
match diff_list with
| [] => Raise IndexError
| (i0, _) :: _ => Ok (PrimFloat.eqb i0 0)
end.

(** [list(diff_list)]: the rows of the array as the first entries of the
    convergence record. *)
Definition record_rows (diff_list : list (float * float))
  : list (number * float) :=
map (fun r : float * float => (Float64 (fst r), snd r)) diff_list.

(** [par_background * np.ones(n)] *)
Definition background_model (par_background : float) (n : nat) : list float :=
repeat (par_background * 1)%float n.

(** The model set-up before the loop of [iterator]: the block indicator
    is asked for with the caller's [axis] and [degrees_rad]. *)
Definition iterator_model_setup (a : iterator_args) (mesh : Mesh)
  : result (InjectActiveCells * list float * list bool) :=
let ind_active := surface2ind_topo mesh (it_surface a) in
let model_map := mkInjectActiveCells _ mesh ind_active (it_par_background a) in
let model := background_model (it_par_background a) (count_true ind_active) in
let ind_object := it_ind_object a in
let ind_object :=
  if String.eqb (it_type_object a) "block"%string
  then get_ind_block mesh ind_active (it_coordinates a) (it_axis a) (it_degrees_rad a)
  else ind_object in
let ind_object :=
  if String.eqb (it_type_object a) "sphere"%string
  then get_ind_sphere mesh ind_active (it_coordinates a) (it_radius a)
  else ind_object in
try! model := mask_assign model ind_object (it_par_object a) in
Ok (model_map, model, ind_object).

(** The model set-up at the end of the loop body of [iterator]: the call
    of [get_ind_block] passes the mesh, the active cells and the
    coordinates only. *)
Definition iterator_model_rebuild (a : iterator_args) (mesh : Mesh)
    (ind_object : list bool)
  : result (InjectActiveCells * list float * list bool) :=
let ind_active := surface2ind_topo mesh (it_surface a) in
let model_map := mkInjectActiveCells _ mesh ind_active (it_par_background a) in
let model := background_model (it_par_background a) (count_true ind_active) in
let ind_object :=
  if String.eqb (it_type_object a) "block"%string
  then get_ind_block mesh ind_active (it_coordinates a)
         get_ind_block_axis get_ind_block_degrees_rad
  else ind_object in
let ind_object :=
  if String.eqb (it_type_object a) "sphere"%string
  then get_ind_sphere mesh ind_active (it_coordinates a) (it_radius a)
  else ind_object in
try! model := mask_assign model ind_object (it_par_object a) in
Ok (model_map, model, ind_object).

(** The statements of [iterator] before its loop.  The result is the
    initial state, the iteration cap the loop runs under, and whether
    [diff_list[0, 0] == 0] holds.  In resume mode the counter is the
    float [diff_list[-1, 0]] and the cap is [lim_iterations + i], the sum
    of the float of [lim_iterations] and that counter. *)
Definition iterator_init (a : iterator_args) (s : store)
  : result (loop_state * number * bool) :=
try! setup := iterator_model_setup a (it_mesh a) in
let '(model_map, model, ind_object) := setup in
let diff := 10%float in
try! fresh := starts_fresh (it_diff_list a) in
if fresh then
  let i := PyInt 0 in
  let '(refine_at_object_list, s) := new_list s in
  let '(refine_at_receivers_list, s) := new_list s in
  let '(refine_at_sources_list, s) := new_list s in
  Ok (mkLoop (it_mesh a) model_map model ind_object diff i [] None None
        (Some refine_at_object_list) (Some refine_at_receivers_list)
        (Some refine_at_sources_list) s,
      PyInt (it_lim_iterations a), true)
else
  let i := fst (List.last (it_diff_list a) (0%float, 0%float)) in
  let av_diff_list := record_rows (it_diff_list a) in
  try! lim_iterations := py_float (it_lim_iterations a) in
  let lim_iterations := (lim_iterations + i)%float in
  Ok (mkLoop (it_mesh a) model_map model ind_object diff (Float64 i)
        av_diff_list None
        (Some (it_Ex a, it_Ey a, it_Ez a))
        (it_r_a_o_list a) (it_r_a_r_list a) (it_r_a_s_list a) s,
      Float64 lim_iterations, false).

(** The convergence bookkeeping of one iteration: in a fresh run nothing
    is compared while [i] is 0. *)
Definition compare_fields (fresh : bool) (st : loop_state) (ef : interp3)
    (area1 area2 area3 : list point)
  : result (float * list (number * float)) :=
if fresh && negb (num_lt (PyInt 0) (st_i st))
then Ok (st_diff st, st_av_diff_list st)
else
  try! diff := average_relative_difference (st_ef_old st) ef area1 area2 area3 in
  Ok (diff, st_av_diff_list st ++ [(num_succ (st_i st), diff)]).

(** The convergence record and the three history lists inside a return
    value; the short form carries no lists. *)
Definition returned_record (r : returned) : list (float * float) :=
match r with
| Short _ _ _ _ av_diff => av_diff
| Long _ _ _ _ av_diff _ _ _ => av_diff
end.

Definition returned_lists (r : returned)
  : option (option nat * option nat * option nat) :=
match r with
| Short _ _ _ _ _ => None
| Long _ _ _ _ _ l1 l2 l3 => Some (l1, l2, l3)
end.

(** The bookkeeping both loop bodies share: one comparison of fields, one
    append to each history list in the order first, receivers, sources,
    and the counter raised by one. *)
Definition body_bookkeeping (fresh : bool) (st st' : loop_state) : Prop :=
exists ef area1 area2 area3 c1 c2 c3 s1 s2,
  compare_fields fresh st ef area1 area2 area3 =
    Ok (st_diff st', st_av_diff_list st')
  /\ list_append (st_store st) (st_first_list st) c1 = Ok s1
  /\ list_append s1 (st_receivers_list st) c2 = Ok s2
  /\ list_append s2 (st_sources_list st) c3 = Ok (st_store st')
  /\ st_i st' = num_succ (st_i st)
  /\ st_first_list st' = st_first_list st
  /\ st_receivers_list st' = st_receivers_list st
  /\ st_sources_list st' = st_sources_list st.

(** One execution of the loop body of [iterator]. *)
Definition iterator_body (a : iterator_args) (fresh : bool) (st : loop_state)
  : result loop_state :=
let mesh := st_mesh st in
let search_area_obj := search_area_object mesh (it_objct a) (it_factor_object a) in
let search_area_receiv :=
  search_area_receivers mesh (it_receiver_locations a) (it_factor_receiver a) in
let search_area_sourc :=
  search_area_sources mesh (it_source_locations a) (it_factor_source a) in
try! s6 := estimate_curl_electric_field mesh (it_survey a) (st_model_map st)
             (st_model st) (it_interpolation a) (it_frequency a) (it_omega a)
             (it_parameter a) in
let '(mkSix curl_x curl_y curl_z ef_x ef_y ef_z) := s6 in
try! compared := compare_fields fresh st (ef_x, ef_y, ef_z)
                   search_area_obj search_area_receiv search_area_sourc in
let '(diff, av_diff_list) := compared in
let ef_old := Some (Some ef_x, Some ef_y, Some ef_z) in
try! cells_to_refine_object :=
  estimate_error search_area_obj curl_x curl_y curl_z ef_x ef_y ef_z
    (it_refine_percentage a) in
try! s := list_append (st_store st) (st_first_list st) cells_to_refine_object in
try! cells_to_refine_receivers :=
  estimate_error search_area_receiv curl_x curl_y curl_z ef_x ef_y ef_z
    (it_refine_percentage a) in
try! s := list_append s (st_receivers_list st) cells_to_refine_receivers in
try! cells_to_refine_sources :=
  estimate_error search_area_sourc curl_x curl_y curl_z ef_x ef_y ef_z
    (it_refine_percentage a) in
try! s := list_append s (st_sources_list st) cells_to_refine_sources in
let mesh := create_octree_mesh (it_domain a) (it_cell_width a) (it_objct a)
              "surface"%string in
let mesh := refine_at_locations mesh (it_source_locations a) in
let mesh := refine_at_locations mesh (it_receiver_locations a) in
try! refine_at_object_list := list_read s (st_first_list st) in
let mesh := refine_all mesh refine_at_object_list in
try! refine_at_receivers_list := list_read s (st_receivers_list st) in
let mesh := refine_all mesh refine_at_receivers_list in
try! refine_at_sources_list := list_read s (st_sources_list st) in
let mesh := refine_all mesh refine_at_sources_list in
let mesh := finalize mesh in
try! rebuilt := iterator_model_rebuild a mesh (st_ind_object st) in
let '(model_map, model, ind_object) := rebuilt in
Ok (mkLoop mesh model_map model ind_object diff (num_succ (st_i st)) av_diff_list
      (Some (ef_x, ef_y, ef_z)) ef_old
      (st_first_list st) (st_receivers_list st) (st_sources_list st) s).

(** [iterator] run with a given amount of fuel: the number of loop bodies
    entered, and what the call returns or raises, with the store it
    leaves.  [None] when the fuel did not suffice. *)
Definition iterator_from (fuel : nat) (a : iterator_args) (s : store)
  : option (nat * result (returned * store)) :=
match iterator_init a s with
| Raise e => Some (0%nat, Raise e)
| Ok (st0, lim_iterations, fresh) =>
    match while_loop fuel lim_iterations (iterator_body a fresh) st0 with
    | None => None
    | Some (n, Raise e) => Some (n, Raise e)
    | Some (n, Ok st) =>
        Some (n, try! r := return_of st in Ok (r, st_store st))
    end
end.

(** [iterator] with fuel for [lim_iterations] loop bodies: [None] when
    the loop asks for more. *)
Definition iterator (a : iterator_args) (s : store)
  : option (nat * result (returned * store)) :=
iterator_from (Z.to_nat (it_lim_iterations a)) a s.

(** ** iteratornonobject *)

(** The arguments of [iteratornonobject], under the names of its
    signature; [model_map] and [model] are among them. *)
Record nonobject_args : Type := mkNonobjectArgs {
  no_mesh : Mesh;
  no_domain : list (float * float);
  no_cell_width : list float;
  no_landscape : list point;
  no_receiver_locations : list point;
  no_source_locations : list point;
  no_survey : Survey;
  no_resistivity_function : list point -> list float;
  no_model_map : InjectActiveCells;
  no_model : list float;
  no_frequency : float;
  no_omega : float;
  no_parameter : string;
  no_interpolation : string;
  no_lim_iterations : Z;
  no_factor_receiver : float;
  no_factor_source : float;
  no_factor_landscape : float;
  no_refine_percentage : float;
  no_par_inactive : float;
  no_Ex : option interpolator;
  no_Ey : option interpolator;
  no_Ez : option interpolator;
  no_diff_list : list (float * float);
  no_r_a_l_list : option nat;
  no_r_a_r_list : option nat;
  no_r_a_s_list : option nat
}.

(** The same call with other [model_map] and [model] arguments. *)
Definition with_model_arguments (a : nonobject_args)
    (model_map : InjectActiveCells) (model : list float) : nonobject_args :=
mkNonobjectArgs (no_mesh a) (no_domain a) (no_cell_width a) (no_landscape a)
  (no_receiver_locations a) (no_source_locations a) (no_survey a)
  (no_resistivity_function a) model_map model (no_frequency a) (no_omega a)
  (no_parameter a) (no_interpolation a) (no_lim_iterations a)
  (no_factor_receiver a) (no_factor_source a) (no_factor_landscape a)
  (no_refine_percentage a) (no_par_inactive a) (no_Ex a) (no_Ey a) (no_Ez a)
  (no_diff_list a) (no_r_a_l_list a) (no_r_a_r_list a) (no_r_a_s_list a).

(** The model set-up of [iteratornonobject], before the loop and at the
    end of every body: all cells active, the model read off
    [resistivity_function]. *)
Definition nonobject_model_setup (a : nonobject_args) (mesh : Mesh)
  : InjectActiveCells * list float :=
let ind_active := repeat true (n_cells mesh) in
let model_map := mkInjectActiveCells _ mesh ind_active (no_par_inactive a) in
let model := no_resistivity_function a (cell_centers mesh) in
(model_map, model).

Definition nonobject_init (a : nonobject_args) (s : store)
  : result (loop_state * number * bool) :=
let model_map := no_model_map a in
let model := no_model a in
let '(model_map, model) := nonobject_model_setup a (no_mesh a) in
let diff := 10%float in
let i := PyInt 0 in
try! fresh := starts_fresh (no_diff_list a) in
if fresh then
  let i := PyInt 0 in
  let '(refine_at_landscape_list, s) := new_list s in
  let '(refine_at_receivers_list, s) := new_list s in
  let '(refine_at_sources_list, s) := new_list s in
  Ok (mkLoop (no_mesh a) model_map model [] diff i [] None None
        (Some refine_at_landscape_list) (Some refine_at_receivers_list)
        (Some refine_at_sources_list) s,
      PyInt (no_lim_iterations a), true)
else
  let i := fst (List.last (no_diff_list a) (0%float, 0%float)) in
  let av_diff_list := record_rows (no_diff_list a) in
  try! lim_iterations := py_float (no_lim_iterations a) in
  let lim_iterations := (lim_iterations + i)%float in
  Ok (mkLoop (no_mesh a) model_map model [] diff (Float64 i) av_diff_list None
        (Some (no_Ex a, no_Ey a, no_Ez a))
        (no_r_a_l_list a) (no_r_a_r_list a) (no_r_a_s_list a) s,
      Float64 lim_iterations, false).

(** One execution of the loop body of [iteratornonobject]. *)
Definition nonobject_body (a : nonobject_args) (fresh : bool) (st : loop_state)
  : result loop_state :=
let mesh := st_mesh st in
let search_area_below_landscape :=
  search_area_landscape mesh (no_domain a) (no_landscape a) (no_factor_landscape a) in
let search_area_receiv :=
  search_area_receivers mesh (no_receiver_locations a) (no_factor_receiver a) in
let search_area_sourc :=
  search_area_sources mesh (no_source_locations a) (no_factor_source a) in
try! s6 := estimate_curl_electric_field mesh (no_survey a) (st_model_map st)
             (st_model st) (no_interpolation a) (no_frequency a) (no_omega a)
             (no_parameter a) in
let '(mkSix curl_x curl_y curl_z ef_x ef_y ef_z) := s6 in
try! compared := compare_fields fresh st (ef_x, ef_y, ef_z)
                   search_area_below_landscape search_area_receiv search_area_sourc in
let '(diff, av_diff_list) := compared in
let ef_old := Some (Some ef_x, Some ef_y, Some ef_z) in
try! cells_to_refine_landscape :=
  estimate_error search_area_below_landscape curl_x curl_y curl_z ef_x ef_y ef_z
    (no_refine_percentage a) in
try! s := list_append (st_store st) (st_first_list st) cells_to_refine_landscape in
try! cells_to_refine_receivers :=
  estimate_error search_area_receiv curl_x curl_y curl_z ef_x ef_y ef_z
    (no_refine_percentage a) in
try! s := list_append s (st_receivers_list st) cells_to_refine_receivers in
try! cells_to_refine_sources :=
  estimate_error search_area_sourc curl_x curl_y curl_z ef_x ef_y ef_z
    (no_refine_percentage a) in
try! s := list_append s (st_sources_list st) cells_to_refine_sources in
let mesh := create_octree_mesh (no_domain a) (no_cell_width a) (no_landscape a)
              "surface"%string in
let mesh := refine_at_locations mesh (no_source_locations a) in
let mesh := refine_at_locations mesh (no_receiver_locations a) in
try! refine_at_landscape_list := list_read s (st_first_list st) in
let mesh := refine_all mesh refine_at_landscape_list in
try! refine_at_receivers_list := list_read s (st_receivers_list st) in
let mesh := refine_all mesh refine_at_receivers_list in
try! refine_at_sources_list := list_read s (st_sources_list st) in
let mesh := refine_all mesh refine_at_sources_list in
let mesh := finalize mesh in
let '(model_map, model) := nonobject_model_setup a mesh in
Ok (mkLoop mesh model_map model [] diff (num_succ (st_i st)) av_diff_list
      (Some (ef_x, ef_y, ef_z)) ef_old
      (st_first_list st) (st_receivers_list st) (st_sources_list st) s).

Definition iteratornonobject_from (fuel : nat) (a : nonobject_args) (s : store)
  : option (nat * result (returned * store)) :=
match nonobject_init a s with
| Raise e => Some (0%nat, Raise e)
| Ok (st0, lim_iterations, fresh) =>
    match while_loop fuel lim_iterations (nonobject_body a fresh) st0 with
    | None => None
    | Some (n, Raise e) => Some (n, Raise e)
    | Some (n, Ok st) =>
        Some (n, try! r := return_of st in Ok (r, st_store st))
    end
end.

Definition iteratornonobject (a : nonobject_args) (s : store)
  : option (nat * result (returned * store)) :=
iteratornonobject_from (Z.to_nat (no_lim_iterations a)) a s.

End Engine.

End ErrorEstimator.

(** ** realisticmodel.py: the seafloor routine *)

Module RealisticModel.

(** [mesh.nodes_z[:-1]]: all nodes but the last. *)
Definition drop_last {A} (a : list A) : list A := removelast a.

(** [model.property_x[i, ii, :] < 0.33] *)
Definition below_threshold (column : list float) : list bool :=
map (fun rho => lt rho 0.33%float) column.

(** The right-hand side of the assignment to [seafloor[i, ii]]:
    [mesh.nodes_z[:-1][model.property_x[i, ii, :] < 0.33][0]]. *)
Definition seafloor_of_column (nodes_z : list float) (column : list float)
  : result float :=
try! selected := mask_select (drop_last nodes_z) (below_threshold column) in
match selected with
| z :: _ => Ok z
| [] => Raise IndexError
end.

Fixpoint map_result {A B} (f : A -> result B) (l : list A) : result (list B) :=
match l with
| [] => Ok []
| x :: rest =>
    try! y := f x in
    try! ys := map_result f rest in
    Ok (y :: ys)
end.

(** The double loop filling [seafloor]: [property_x] is indexed
    [i, ii, :], one column of cells per entry. *)
Definition seafloor (nodes_z : list float) (property_x : list (list (list float)))
  : result (list (list float)) :=
map_result (map_result (seafloor_of_column nodes_z)) property_x.

(** The reading of the specification, for comparison with
    [seafloor_of_column]: among the cells of the column whose resistivity
    is below 0.33, the one that lies highest, and of that cell the top
    elevation.  Cell [k] lies between [nodes_z[k]] and [nodes_z[k+1]]. *)
Definition cell_tops (nodes_z : list float) (column : list float) : list float :=
map fst (List.filter (fun p : float * bool => snd p)
           (combine (tl nodes_z) (below_threshold column))).

Definition highest (zs : list float) : option float :=
match zs with
| [] => None
| z :: rest => Some (fold_left (fun m x => if lt m x then x else m) rest z)
end.

Definition seafloor_as_specified (nodes_z : list float) (column : list float)
  : option float :=
highest (cell_tops nodes_z column).

(** *** The electric field inside the bounding volume *)

(** The test applied to every edge location:
    [(e[:,0]>=0) & (e[:,0]<=20000) & (e[:,1]>=0) & (e[:,1]<=20000)
     & (e[:,2]>=-7000) & (e[:,2]<=500)]. *)
Definition in_box (p : point) : bool :=
let '(x, y, z) := p in
PrimFloat.leb 0 x && PrimFloat.leb x 20000
&& PrimFloat.leb 0 y && PrimFloat.leb y 20000
&& PrimFloat.leb (-7000) z && PrimFloat.leb z 500.

Definition box_mask (edges : list point) : list bool := map in_box edges.

(** [np.where(mask)[0]]: the positions at which the mask is set, in
    ascending order. *)
Fixpoint where_from (start : nat) (mask : list bool) : list nat :=
match mask with
| [] => []
| b :: rest =>
    if b then start :: where_from (S start) rest
    else where_from (S start) rest
end.

Definition np_where (mask : list bool) : list nat := where_from 0 mask.

(** The pairs of an edge location and the field value on it whose
    location passes the test. *)
Definition kept (edges : list point) (block : list complex)
  : list (point * complex) :=
List.filter (fun q : point * complex => in_box (fst q)) (combine edges block).

(** What the last block of the script leaves in [Ex], [Ey], [Ez] and in
    [xedges], [yedges], [zedges]. *)
Record field_in_box : Type := mkFieldInBox {
  box_Ex : list complex;
  box_Ey : list complex;
  box_Ez : list complex;
  box_xedges : list point;
  box_yedges : list point;
  box_zedges : list point
}.

(** The statements from [Ex_inter = Efield[0:len(xedges)]] to the end:
    the field is cut into its three edge blocks, [np.take] reads each
    block at the positions of the edges inside the volume (an index past
    the end of a block raises), and the edge arrays are filtered by the
    same test. *)
Definition extract_field (Efield : list complex) (xedges yedges zedges : list point)
  : result field_in_box :=
let Ex_inter := slice Efield 0 (length xedges) in
let Ey_inter := slice Efield (length xedges) (length xedges + length yedges) in
let Ez_inter := slice Efield (length xedges + length yedges)
                  (length xedges + length yedges + length zedges) in
let xsearch := np_where (box_mask xedges) in
let ysearch := np_where (box_mask yedges) in
let zsearch := np_where (box_mask zedges) in
try! Ex := take_rows Ex_inter xsearch in
try! Ey := take_rows Ey_inter ysearch in
try! Ez := take_rows Ez_inter zsearch in
try! xedges := mask_select xedges (box_mask xedges) in
try! yedges := mask_select yedges (box_mask yedges) in
try! zedges := mask_select zedges (box_mask zedges) in
Ok (mkFieldInBox Ex Ey Ez xedges yedges zedges).

End RealisticModel.

(** ** A small instance of the libraries

    A mesh is the list of refinement requests it received; it always has
    two cells, one face and one edge per axis.  The electric field on the
    x-edge is a function [e_x] of the number of requests, the other
    components are constant; every interpolator is constant in space. *)

Module Toy.

Import ErrorEstimator.

Definition origin : point := (0, 0, 0)%float.
Definition unit_x : point := (1, 0, 0)%float.

Definition first_sample (vals : list complex) : interpolator :=
fun _ => hd czero vals.

(** The modulus is exact when a part is zero, as every [hypot] is; the
    selection sorts the whole array. *)
#[export] Instance numpy : NumPy := {|
  npy_hypot := fun x y =>
    if PrimFloat.is_infinity x || PrimFloat.is_infinity y then infinity
    else if PrimFloat.eqb y 0 then PrimFloat.abs x
    else if PrimFloat.eqb x 0 then PrimFloat.abs y
    else PrimFloat.sqrt (x * x + y * y)%float;
  introselect := fun a _ => argsort a
|}.

#[export] Instance numdiff : NumDiffTools := {|
  nd_Jacobian := fun _ _ _ =>
    V3 (V3 czero czero czero) (V3 czero czero czero) (V3 czero czero czero)
|}.

(** Three interpolators that are constant in space: the nearest-neighbour
    one answers the first sample, the piecewise-linear one the last
    sample, the radial-basis one the first sample times the number of
    x-coordinates it was given. *)
#[export] Instance scipy : SciPy := {|
  Rbf := fun xs _ _ vals =>
    fun _ => cmul (of_real (float_of_nat (length xs))) (hd czero vals);
  LinearNDInterpolator := fun _ vals => fun _ => List.last vals czero;
  NearestNDInterpolator := fun _ vals => first_sample vals
|}.

(** The unrotated block covers the first cell, a rotated block the
    second; the sphere covers the first cell. *)
#[export] Instance meshlib : MeshLib := {|
  Mesh := list (list point);
  faces_x := fun _ => [origin];
  faces_y := fun _ => [origin];
  faces_z := fun _ => [origin];
  edges_x := fun _ => [origin];
  edges_y := fun _ => [origin];
  edges_z := fun _ => [origin];
  n_faces_x := fun _ => 1%nat;
  n_faces_y := fun _ => 1%nat;
  n_faces_z := fun _ => 1%nat;
  n_edges_x := fun _ => 1%nat;
  n_edges_y := fun _ => 1%nat;
  n_edges_z := fun _ => 1%nat;
  n_cells := fun _ => 2%nat;
  cell_centers := fun _ => [origin; unit_x];
  finalize := fun m => m;
  create_octree_mesh := fun _ _ _ _ => [];
  refine_at_locations := fun m pts => m ++ [pts];
  get_ind_block := fun _ _ _ _ degrees_rad =>
    if PrimFloat.eqb degrees_rad 0 then [true; false] else [false; true];
  get_ind_block_axis := "x"%string;
  get_ind_block_degrees_rad := 0%float;
  get_ind_sphere := fun _ _ _ _ => [true; false];
  search_area_object := fun _ _ _ => [origin];
  search_area_receivers := fun _ _ _ => [origin];
  search_area_sources := fun _ _ _ => [origin; unit_x]
  ;
  search_area_landscape := fun _ _ _ _ => [origin]
|}.

(** A survey of one source: arrays of one column. *)
Definition one_column (values : list complex) : array2 :=
mkArray2 1 (map (fun z => [z]) values).

Definition simpeg (e_x : nat -> float) : SimPEG := {|
  Survey := unit;
  surface2ind_topo := fun _ _ => [true; true];
  fields_solution := fun f m _ _ _ _ =>
    match f with
    | Simulation3DMagneticFluxDensity =>
        one_column [Cx 1 0; Cx 0 1; Cx 2 2]%float
    | Simulation3DElectricField =>
        one_column [of_real (e_x (length m)); of_real 1; of_real 1]
    end;
  getSourceTerm := fun _ _ _ _ _ _ =>
    (one_column [Cx 5 0; Cx 0 0; Cx 1 1]%float, one_column [])
|}.

(** A survey of two sources on the same mesh: arrays of two columns. *)
Definition two_columns (values : list complex) : array2 :=
mkArray2 2 (map (fun z => [z; z]) values).

Definition simpeg_two_sources : SimPEG := {|
  Survey := unit;
  surface2ind_topo := fun _ _ => [true; true];
  fields_solution := fun f m _ _ _ _ =>
    match f with
    | Simulation3DMagneticFluxDensity =>
        two_columns [Cx 1 0; Cx 0 1; Cx 2 2]%float
    | Simulation3DElectricField =>
        two_columns [of_real 1; of_real 1; of_real 1]
    end;
  getSourceTerm := fun _ _ _ _ _ _ =>
    (two_columns [Cx 5 0; Cx 0 0; Cx 1 1]%float, two_columns [])
|}.

(** A field that moves by one percent on the first rebuilt mesh and stays
    there, a field that stops moving, and a field that keeps moving. *)
Definition e_one_percent (level : nat) : float :=
match level with O => 100 | _ => 99 end.
Definition e_settling (level : nat) : float :=
match level with O => 100 | _ => 50 end.
Definition e_moving (level : nat) : float :=
(100 + float_of_nat level)%float.

Definition empty_store : store := mkStore ∅ 0.

(** A store holding one empty list, under reference 0. *)
Definition one_list_store : store := mkStore {[ 0%nat := [] ]} 1.

Definition fresh_diff_list : list (float * float) := [(0%float, 0%float)].

Definition args (e_x : nat -> float) (type_object : string) (degrees_rad : float)
    (lim_iterations : Z) (refine_percentage : float)
    (E : option interpolator) (diff_list : list (float * float))
    (r_a_o_list r_a_r_list r_a_s_list : option nat)
  : @iterator_args meshlib (simpeg e_x) :=
@mkIteratorArgs meshlib (simpeg e_x)
  [] [] [] [] [] [] [origin] [origin] tt 1%float 100%float [false; false]
  1%float 6.283185307179586%float "resistivity"%string "nearest"%string type_object
  lim_iterations 2%float 3%float 3%float refine_percentage
  "x"%string degrees_rad 1%float E E E diff_list r_a_o_list r_a_r_list r_a_s_list.

Definition fresh_args (e_x : nat -> float) (lim_iterations : Z)
  : @iterator_args meshlib (simpeg e_x) :=
args e_x "block"%string 0%float lim_iterations 0.05%float None fresh_diff_list
  None None None.

(** The state of a fresh run of [iterator] on this instance after [k]
    loop bodies, whatever the loop condition says. *)
Fixpoint state_after (e_x : nat -> float) (lim_iterations : Z) (k : nat)
  : result (@loop_state meshlib) :=
match k with
| O =>
    try! init := iterator_init (EM := simpeg e_x) (fresh_args e_x lim_iterations)
                   empty_store in
    Ok (fst (fst init))
| S k' =>
    try! st := state_after e_x lim_iterations k' in
    iterator_body (EM := simpeg e_x) (fresh_args e_x lim_iterations) true st
end.

Definition blank_state : @loop_state meshlib :=
mkLoop [] (mkInjectActiveCells meshlib [] [] 0%float) [] [] 0%float (PyInt 0) []
  None None
  None None None empty_store.

Definition get_state (r : result (@loop_state meshlib)) : @loop_state meshlib :=
match r with Ok st => st | Raise _ => blank_state end.

(** A resumed call that hands the same list in as all three histories. *)
Definition shared_list_args : @iterator_args meshlib (simpeg e_moving) :=
args e_moving "block"%string 0%float 1 0.05%float
  (Some (fun _ => of_real 100)) [(2%float, 0.5%float)]
  (Some 0%nat) (Some 0%nat) (Some 0%nat).

(** A fresh call on a block rotated by one radian. *)
Definition rotated_block_args : @iterator_args meshlib (simpeg e_moving) :=
args e_moving "block"%string 1%float 5 0.05%float None fresh_diff_list
  None None None.

(** The parts of the outcome of a call that returned. *)
Definition returned_of (o : option (nat * result (returned * store)))
  : @returned meshlib :=
match o with
| Some (_, Ok (r, _)) => r
| _ => Short [] (fun _ => czero) (fun _ => czero) (fun _ => czero) []
end.

Definition store_of (o : option (nat * result (@returned meshlib * store)))
  : store :=
match o with
| Some (_, Ok (_, s)) => s
| _ => empty_store
end.

(** A fresh run with cap 3 on a field that keeps moving. *)
Definition moving_run : option (nat * result (@returned meshlib * store)) :=
iterator_from (NP := numpy) (ND := numdiff) (SP := scipy) (EM := simpeg e_moving) 3
  (fresh_args e_moving 3) empty_store.

(** A fresh call of [iteratornonobject] on this instance, with a uniform
    resistivity function. *)
Definition nonobject_fresh_args (e_x : nat -> float) (lim_iterations : Z)
  : @nonobject_args meshlib (simpeg e_x) :=
@mkNonobjectArgs meshlib (simpeg e_x)
  [] [] [] [] [origin] [origin] tt (map (fun _ => 1%float))
  (mkInjectActiveCells meshlib [] [] 0%float) []
  1%float 6.283185307179586%float "resistivity"%string "nearest"%string
  lim_iterations 2%float 2%float 2%float 0.05%float 100000000%float
  None None None fresh_diff_list None None None.

(** A call of [iteratornonobject] resumed from three lists at iteration
    2, with two more iterations allowed. *)
Definition nonobject_resumed_args : @nonobject_args meshlib (simpeg e_moving) :=
@mkNonobjectArgs meshlib (simpeg e_moving)
  [] [] [] [] [origin] [origin] tt (map (fun _ => 1%float))
  (mkInjectActiveCells meshlib [] [] 0%float) []
  1%float 6.283185307179586%float "resistivity"%string "nearest"%string
  2 2%float 2%float 2%float 0.05%float 100000000%float
  (Some (fun _ => of_real 100)) (Some (fun _ => of_real 100))
  (Some (fun _ => of_real 100)) [(2%float, 0.5%float)]
  (Some 0%nat) (Some 1%nat) (Some 2%nat).

Definition nonobject_run : option (nat * result (@returned meshlib * store)) :=
iteratornonobject_from (NP := numpy) (ND := numdiff) (SP := scipy)
  (EM := simpeg e_moving) 3
  (nonobject_fresh_args e_moving 3) empty_store.

(** A store with three lists of one entry each, and a call of [iterator]
    resumed from them at iteration 2 with two more iterations allowed. *)
Definition three_list_store : store :=
mkStore {[ 0%nat := [[origin]]; 1%nat := [[origin]]; 2%nat := [[unit_x]] ]} 3.

Definition resumed_args : @iterator_args meshlib (simpeg e_moving) :=
args e_moving "block"%string 0%float 2 0.05%float
  (Some (fun _ => of_real 100)) [(2%float, 0.5%float)]
  (Some 0%nat) (Some 1%nat) (Some 2%nat).


(** The same call without the history lists. *)
Definition resumed_without_lists : @iterator_args meshlib (simpeg e_moving) :=
args e_moving "block"%string 0%float 2 0.05%float
  (Some (fun _ => of_real 100)) [(2%float, 0.5%float)] None None None.

(** A differentiation that finds the field sheared, with the derivative
    of [E_y] along x equal to 1 and all others 0, and one that finds no
    derivative at all. *)
Definition shear_numdiff : NumDiffTools := {|
  nd_Jacobian := fun _ _ _ =>
    V3 (V3 czero czero czero) (V3 (of_real 1) czero czero)
       (V3 czero czero czero)
|}.

Definition nan_numdiff : NumDiffTools := {|
  nd_Jacobian := fun _ _ _ =>
    V3 (V3 (Cx nan nan) (Cx nan nan) (Cx nan nan))
       (V3 (Cx nan nan) (Cx nan nan) (Cx nan nan))
       (V3 (Cx nan nan) (Cx nan nan) (Cx nan nan))
|}.

Definition resumed_run : option (nat * result (@returned meshlib * store)) :=
iterator_from (NP := numpy) (ND := numdiff) (SP := scipy) (EM := simpeg e_moving) 2
  resumed_args three_list_store.

End Toy.

(** * Properties *)

Import ErrorEstimator.

(** ** Rounding to binary64 *)

Lemma fexp64_eq (e : Z) : fexp64 e = Z.max (e - 53) (-1074).
Proof. reflexivity. Qed.

Lemma digits2_pos_bounds (p : positive) :
  2 ^ (Z.pos (digits2_pos p) - 1) <= Z.pos p < 2 ^ Z.pos (digits2_pos p).
Proof.
  induction p as [p IH|p IH|]; simpl digits2_pos.
  - rewrite Pos2Z.inj_succ.
    replace (Z.succ (Z.pos (digits2_pos p)) - 1) with (Z.succ (Z.pos (digits2_pos p) - 1)) by lia.
    rewrite !Z.pow_succ_r by lia. lia.
  - rewrite Pos2Z.inj_succ.
    replace (Z.succ (Z.pos (digits2_pos p)) - 1) with (Z.succ (Z.pos (digits2_pos p) - 1)) by lia.
    rewrite !Z.pow_succ_r by lia. lia.
  - simpl. lia.
Qed.

Lemma digits_unique (m d : Z) :
  0 < d -> 2 ^ (d - 1) <= m < 2 ^ d ->
  forall p, m = Z.pos p -> Z.pos (digits2_pos p) = d.
Proof.
  intros Hd Hm p ->. pose proof (digits2_pos_bounds p) as Hp.
  set (d' := Z.pos (digits2_pos p)) in *.
  assert (0 < d') by (unfold d'; lia).
  destruct (Z.lt_trichotomy d' d) as [L|[E|L]]; [|exact E|].
  - assert (2 ^ d' <= 2 ^ (d - 1)) by (apply Z.pow_le_mono_r; lia). lia.
  - assert (2 ^ d <= 2 ^ (d' - 1)) by (apply Z.pow_le_mono_r; lia). lia.
Qed.

Lemma digits_mono (p q : positive) :
  Z.pos p <= Z.pos q -> Z.pos (digits2_pos p) <= Z.pos (digits2_pos q).
Proof.
  intros H. pose proof (digits2_pos_bounds p). pose proof (digits2_pos_bounds q).
  destruct (Z.le_gt_cases (Z.pos (digits2_pos p)) (Z.pos (digits2_pos q))) as [L|L];
    [exact L|].
  assert (2 ^ Z.pos (digits2_pos q) <= 2 ^ (Z.pos (digits2_pos p) - 1))
    by (apply Z.pow_le_mono_r; lia).
  lia.
Qed.

Lemma iter_pos_nat {A} (f : A -> A) (p : positive) (x : A) :
  SpecFloat.iter_pos f p x = Nat.iter (Pos.to_nat p) f x.
Proof.
  revert x. induction p as [p IH|p IH|]; intros x; simpl SpecFloat.iter_pos.
  - rewrite !IH, Pos2Nat.inj_xI.
    rewrite <- Nat.iter_add, <- Nat.iter_succ_r. f_equal. lia.
  - rewrite !IH, Pos2Nat.inj_xO.
    rewrite <- Nat.iter_add. f_equal. lia.
  - reflexivity.
Qed.

Lemma shr_1_spec (m : Z) (r s : bool) :
  0 <= m ->
  shr_1 {| shr_m := m; shr_r := r; shr_s := s |} =
  {| shr_m := Z.div2 m; shr_r := Z.odd m; shr_s := r || s |}.
Proof.
  intros H. destruct m as [|[p|p|]|p]; try reflexivity; lia.
Qed.

Lemma shr_iter (m : Z) (k : nat) :
  0 <= m ->
  exists r s,
    Nat.iter k shr_1 {| shr_m := m; shr_r := false; shr_s := false |} =
    {| shr_m := m / 2 ^ Z.of_nat k; shr_r := r; shr_s := s |}
    /\ (r || s = false <-> (2 ^ Z.of_nat k | m)).
Proof.
  intros Hm. induction k as [|k IH].
  - exists false, false. simpl. rewrite Z.div_1_r. split; [reflexivity|].
    split; [intros _; apply Z.divide_1_l | reflexivity].
  - destruct IH as (r & s & Hit & Hex).
    exists (Z.odd (m / 2 ^ Z.of_nat k)), (r || s).
    rewrite Nat.iter_succ, Hit.
    assert (Hpos : 0 < 2 ^ Z.of_nat k) by (apply Z.pow_pos_nonneg; lia).
    assert (Hq : 0 <= m / 2 ^ Z.of_nat k) by (apply Z.div_pos; lia).
    rewrite shr_1_spec by exact Hq.
    rewrite Nat2Z.inj_succ, Z.pow_succ_r by lia.
    split.
    + f_equal. rewrite Z.div2_div, Z.div_div by lia. f_equal. lia.
    + rewrite orb_false_iff, Hex. split.
      * intros [Hodd [u Hu]].
        assert (Hmq : m / 2 ^ Z.of_nat k = u)
          by (rewrite Hu; apply Z.div_mul; lia).
        rewrite Hmq in Hodd.
        assert (Heven : Z.even u = true)
          by (rewrite <- Z.negb_odd, Hodd; reflexivity).
        apply Z.even_spec in Heven as [t Ht].
        exists t. rewrite Hu, Ht. ring.
      * intros [t Ht]. split.
        -- replace m with ((2 * t) * 2 ^ Z.of_nat k) by (rewrite Ht; ring).
           rewrite Z.div_mul by lia. rewrite Z.odd_mul. reflexivity.
        -- exists (2 * t). rewrite Ht. ring.
Qed.

Lemma shr_spec (m e n : Z) :
  0 <= m ->
  exists r s,
    shr {| shr_m := m; shr_r := false; shr_s := false |} e n =
    ({| shr_m := if 0 <? n then m / 2 ^ n else m; shr_r := r; shr_s := s |},
     if 0 <? n then e + n else e)
    /\ (r || s = false <-> (0 < n -> (2 ^ n | m))).
Proof.
  intros Hm. destruct n as [|p|p]; simpl.
  - exists false, false. split; [reflexivity|]. split; [lia|reflexivity].
  - destruct (shr_iter m (Pos.to_nat p) Hm) as (r & s & Hit & Hex).
    rewrite positive_nat_Z in Hit, Hex.
    exists r, s. rewrite iter_pos_nat, Hit. split; [reflexivity|].
    rewrite Hex. split; [auto|]. intros H. apply H. lia.
  - exists false, false. split; [reflexivity|]. split; [lia|reflexivity].
Qed.

Lemma round_nearest_even_spec (q : Z) (r s : bool) :
  let rnd := round_nearest_even q
               (loc_of_shr_record {| shr_m := q; shr_r := r; shr_s := s |}) in
  q <= rnd <= q + 1 /\ (r || s = false -> rnd = q).
Proof.
  destruct r, s; simpl; try (split; [lia|]; try discriminate; auto).
  destruct (Z.even q); split; try lia; discriminate.
Qed.

Lemma Zdigits2_bounds (m : Z) :
  0 < m -> 0 < Zdigits2 m /\ 2 ^ (Zdigits2 m - 1) <= m < 2 ^ Zdigits2 m.
Proof.
  destruct m as [|p|p]; try lia. intros _. simpl.
  split; [lia | apply digits2_pos_bounds].
Qed.

Lemma Zdigits2_unique (m d : Z) :
  0 < d -> 2 ^ (d - 1) <= m < 2 ^ d -> Zdigits2 m = d.
Proof.
  intros Hd Hm.
  assert (0 < m) by (assert (0 < 2 ^ (d - 1)) by (apply Z.pow_pos_nonneg; lia); lia).
  destruct m as [|p|p]; try lia. simpl. eapply digits_unique; eauto.
Qed.

Lemma Zdigits2_mono (a b : Z) : 0 < a -> a <= b -> Zdigits2 a <= Zdigits2 b.
Proof.
  intros Ha Hab. destruct a as [|p|p]; try lia. destruct b as [|q|q]; try lia.
  simpl. apply digits_mono. exact Hab.
Qed.

Lemma pow2_pos (n : Z) : 0 <= n -> 0 < 2 ^ n.
Proof. intros H. apply Z.pow_pos_nonneg; lia. Qed.

Lemma pow2_split (a b : Z) : 0 <= a -> 0 <= b -> 2 ^ (a + b) = 2 ^ a * 2 ^ b.
Proof. intros. apply Z.pow_add_r; assumption. Qed.

(** digits of a product with a power of two, of a quotient by one *)
Lemma Zdigits2_shl (m k : Z) : 0 < m -> 0 <= k -> Zdigits2 (m * 2 ^ k) = Zdigits2 m + k.
Proof.
  intros Hm Hk. destruct (Zdigits2_bounds m Hm) as [Hd Hb].
  apply Zdigits2_unique; [lia|].
  replace (Zdigits2 m + k - 1) with ((Zdigits2 m - 1) + k) by lia.
  rewrite !pow2_split by lia.
  pose proof (pow2_pos k Hk). nia.
Qed.

Lemma Zdigits2_shr (m k : Z) :
  0 < m -> 0 <= k -> k < Zdigits2 m -> Zdigits2 (m / 2 ^ k) = Zdigits2 m - k.
Proof.
  intros Hm Hk Hlt. destruct (Zdigits2_bounds m Hm) as [Hd Hb].
  pose proof (pow2_pos k Hk) as Hp.
  apply Zdigits2_unique; [lia|]. split.
  - apply Z.div_le_lower_bound; [lia|].
    replace (Zdigits2 m - 1) with (k + (Zdigits2 m - k - 1)) in Hb by lia.
    rewrite pow2_split in Hb by lia. lia.
  - apply Z.div_lt_upper_bound; [lia|].
    replace (Zdigits2 m) with (k + (Zdigits2 m - k)) in Hb at 2 by lia.
    rewrite pow2_split in Hb by lia. lia.
Qed.

Lemma shl_align_spec (mx : positive) (ex e : Z) :
  let '(mz, ez) := shl_align mx ex e in
  if e <? ex then Z.pos mz = Z.pos mx * 2 ^ (ex - e) /\ ez = e
  else mz = mx /\ ez = ex.
Proof.
  unfold shl_align. destruct (Z.ltb_spec e ex) as [H|H].
  - destruct (e - ex) as [|d|d] eqn:E; try lia.
    split; [|reflexivity].
    change (Pos.iter xO mx d) with (shift_pos d mx).
    rewrite shift_pos_correct, Zpower_pos_nat, Zpower_nat_Z, positive_nat_Z.
    replace (ex - e) with (Z.pos d) by lia. ring.
  - destruct (e - ex) as [|d|d] eqn:E; try lia; auto.
Qed.

(** The two stages of [binary_round]: the mantissa is brought to the
    exponent [fexp (digits + e)], rounded to nearest even, and shifted
    once more when the rounding carried. *)
Lemma binary_round_spec (s : bool) (m : positive) (e : Z) :
  let e1 := fexp64 (Z.pos (digits2_pos m) + e) in
  exists M1,
    0 <= M1
    /\ (if e1 <=? e then M1 = Z.pos m * 2 ^ (e - e1)
     else Z.pos m / 2 ^ (e1 - e) <= M1 <= Z.pos m / 2 ^ (e1 - e) + 1
          /\ ((2 ^ (e1 - e) | Z.pos m) -> M1 = Z.pos m / 2 ^ (e1 - e)))
    /\ let k := fexp64 (Zdigits2 M1 + e1) - e1 in
       binary_round prec emax s m e =
       if 0 <? k then finish s (M1 / 2 ^ k) (e1 + k) else finish s M1 e1.
Proof.
  intros e1. unfold binary_round. fold e1.
  pose proof (shl_align_spec m e e1) as Hsh.
  destruct (shl_align m e e1) as [mz ez].
  unfold binary_round_aux, shr_fexp. simpl shr_record_of_loc.
  destruct (Z.ltb_spec e1 e) as [Hlt|Hge].
  - (* shifted left *)
    destruct Hsh as [Hmz ->].
    exists (Z.pos mz).
    split; [lia|].
    destruct (Z.leb_spec e1 e); [|lia]. split; [exact Hmz|].
    assert (Hd : Zdigits2 (Z.pos mz) + e1 = Z.pos (digits2_pos m) + e).
    { rewrite Hmz, Zdigits2_shl by lia. cbn [Zdigits2]. lia. }
    rewrite Hd. fold e1.
    rewrite Z.sub_diag. cbn [shr shr_m loc_of_shr_record round_nearest_even].
    rewrite Hd. fold e1. rewrite Z.sub_diag. cbn [shr shr_m]. rewrite Z.ltb_irrefl.
    reflexivity.
  - destruct Hsh as [-> ->].
    cbn [Zdigits2]. fold e1.
    destruct (shr_spec (Z.pos m) e (e1 - e) ltac:(lia)) as (r & s0 & Hshr & Hex).
    rewrite Hshr.
    set (q := if 0 <? e1 - e then Z.pos m / 2 ^ (e1 - e) else Z.pos m) in *.
    cbn [shr_m].
    pose proof (round_nearest_even_spec q r s0) as [Hrnd Hexact].
    set (rnd := round_nearest_even q _) in *.
    assert (He' : (if 0 <? e1 - e then e + (e1 - e) else e) = e1).
    { destruct (Z.ltb_spec 0 (e1 - e)); lia. }
    rewrite He'.
    assert (Hq0 : 0 <= q).
    { unfold q. destruct (0 <? e1 - e); [|lia].
      apply Z.div_pos; [lia|]. apply pow2_pos. lia. }
    exists rnd. split; [lia|]. split.
    + destruct (Z.leb_spec e1 e) as [Hle|Hgt].
      * assert (Hq : q = Z.pos m)
          by (unfold q; destruct (Z.ltb_spec 0 (e1 - e)); [lia|reflexivity]).
        assert (Hrs : r || s0 = false) by (apply Hex; lia).
        rewrite (Hexact Hrs), Hq. replace (e - e1) with 0 by lia.
        change (2 ^ 0) with 1. lia.
      * assert (Hq : q = Z.pos m / 2 ^ (e1 - e))
          by (unfold q; destruct (Z.ltb_spec 0 (e1 - e)); [reflexivity|lia]).
        rewrite <- Hq. split; [exact Hrnd|].
        intros Hdiv. apply Hexact, Hex. intros _. exact Hdiv.
    + destruct (shr_spec rnd e1 (fexp64 (Zdigits2 rnd + e1) - e1) ltac:(lia))
        as (r2 & s2 & Hshr2 & _).
      rewrite Hshr2. cbn [shr_m].
      destruct (0 <? fexp64 (Zdigits2 rnd + e1) - e1); reflexivity.
Qed.

(** [m1 * 2^e1 <= m2 * 2^e2], on the integers *)

Lemma bounded_canonical (mx : positive) (ex : Z) :
  bounded prec emax mx ex = true ->
  fexp64 (Z.pos (digits2_pos mx) + ex) = ex /\ ex <= 971 /\ -1074 <= ex
  /\ Z.pos (digits2_pos mx) <= 53
  /\ (-1074 < ex -> Z.pos (digits2_pos mx) = 53).
Proof.
  unfold bounded, canonical_mantissa. intros H.
  apply andb_true_iff in H as [Hc Hb].
  apply Z.eqb_eq in Hc. apply Z.leb_le in Hb.
  change (emax - prec) with 971 in Hb.
  rewrite fexp64_eq in *. lia.
Qed.

Lemma fexp64_mono (a b : Z) : a <= b -> fexp64 a <= fexp64 b.
Proof. rewrite !fexp64_eq. lia. Qed.

Lemma fexp64_min (a : Z) : -1074 <= fexp64 a.
Proof. rewrite fexp64_eq. lia. Qed.

Lemma vle_digits (m1 e1 m2 e2 : Z) :
  0 < m1 -> 0 < m2 -> vle m1 e1 m2 e2 ->
  Zdigits2 m1 + e1 <= Zdigits2 m2 + e2.
Proof.
  intros H1 H2 H. unfold vle in H.
  destruct (Zdigits2_bounds m1 H1) as [D1 B1].
  destruct (Zdigits2_bounds m2 H2) as [D2 B2].
  set (c := Z.min e1 e2) in *.
  assert (P1 : 0 < 2 ^ (e1 - c)) by (apply pow2_pos; lia).
  assert (P2 : 0 < 2 ^ (e2 - c)) by (apply pow2_pos; lia).
  assert (L : 2 ^ (Zdigits2 m1 - 1 + (e1 - c)) < 2 ^ (Zdigits2 m2 + (e2 - c))).
  { rewrite !pow2_split by lia. nia. }
  apply Z.pow_lt_mono_r_iff in L; lia.
Qed.

Lemma finish_pos (s : bool) (p : positive) (e : Z) :
  finish s (Z.pos p) e =
  if e <=? 971 then S754_finite s p e else S754_infinity s.
Proof. reflexivity. Qed.

(** Rounding does not go below a number of the format that the value is
    at or above. *)
Lemma round_ge (s : bool) (m mx : positive) (e ex : Z) :
  bounded prec emax mx ex = true ->
  vle (Z.pos mx) ex (Z.pos m) e ->
  binary_round prec emax s m e = S754_infinity s
  \/ exists mz ez,
       binary_round prec emax s m e = S754_finite s mz ez
       /\ (ex < ez \/ (ez = ex /\ Z.pos mx <= Z.pos mz)).
Proof.
  intros Hb Hv.
  destruct (bounded_canonical mx ex Hb) as (Hcan & Hmax & Hmin & Hdx & Hnorm).
  pose proof (vle_digits (Z.pos mx) ex (Z.pos m) e ltac:(lia) ltac:(lia) Hv)
    as Hdig.
  cbn [Zdigits2] in Hdig.
  destruct (binary_round_spec s m e) as (M1 & HM0' & HM1 & Hres).
  set (e1 := fexp64 (Z.pos (digits2_pos m) + e)) in *.
  assert (He1 : ex <= e1).
  { rewrite <- Hcan. apply fexp64_mono. exact Hdig. }
  pose proof (digits2_pos_bounds m) as Bm.
  set (d := Z.pos (digits2_pos m)) in *.
  assert (Hd : 0 < d) by (unfold d; lia).
  assert (A : 1 <= M1 /\ (e1 = ex -> Z.pos mx <= M1)).
  { destruct (Z.leb_spec e1 e) as [Hle|Hgt].
    - subst M1. assert (0 < 2 ^ (e - e1)) by (apply pow2_pos; lia).
      split; [nia|]. intros E. unfold vle in Hv.
      rewrite Z.min_l in Hv by lia. rewrite Z.sub_diag in Hv.
      change (2 ^ 0) with 1 in Hv. rewrite E. lia.
    - destruct HM1 as [[Hq _] _].
      assert (Pn : 0 < 2 ^ (e1 - e)) by (apply pow2_pos; lia).
      destruct (Z.eq_dec e1 ex) as [E|NE].
      + assert (Z.pos mx <= Z.pos m / 2 ^ (e1 - e)).
        { apply Z.div_le_lower_bound; [lia|].
          unfold vle in Hv. rewrite Z.min_r in Hv by lia.
          rewrite Z.sub_diag in Hv. change (2 ^ 0) with 1 in Hv.
          rewrite E. lia. }
        split; [lia|]. intros _. lia.
      + split; [|contradiction].
        assert (He1eq : e1 = d + e - 53).
        { unfold e1. rewrite fexp64_eq. unfold e1 in He1, NE.
          rewrite fexp64_eq in He1, NE. lia. }
        assert (2 ^ 52 <= Z.pos m / 2 ^ (e1 - e)).
        { apply Z.div_le_lower_bound; [lia|].
          rewrite <- pow2_split by lia.
          replace (e1 - e + 52) with (d - 1) by lia. lia. }
        assert (0 < 2 ^ 52) by (apply pow2_pos; lia). lia. }
  destruct A as [A1 A2].
  set (k := fexp64 (Zdigits2 M1 + e1) - e1) in *.
  destruct (Zdigits2_bounds M1 ltac:(lia)) as [D1 B1].
  rewrite Hres. clear Hres.
  destruct (Z.ltb_spec 0 k) as [Hk|Hk].
  - assert (Hkeq : k = Zdigits2 M1 - 53).
    { unfold k. rewrite fexp64_eq. unfold k in Hk. rewrite fexp64_eq in Hk.
      pose proof (fexp64_min (d + e)). fold e1 in H. lia. }
    assert (1 <= M1 / 2 ^ k).
    { apply Z.div_le_lower_bound; [apply pow2_pos; lia|].
      assert (2 ^ k <= 2 ^ (Zdigits2 M1 - 1)) by (apply Z.pow_le_mono_r; lia).
      lia. }
    destruct (M1 / 2 ^ k) as [|p|p] eqn:E; try lia.
    rewrite finish_pos.
    destruct (e1 + k <=? 971); [right|left; reflexivity].
    exists p, (e1 + k). split; [reflexivity|]. left. lia.
  - destruct M1 as [|p|p]; try lia.
    rewrite finish_pos.
    destruct (e1 <=? 971); [right|left; reflexivity].
    exists p, e1. split; [reflexivity|].
    destruct (Z.eq_dec e1 ex) as [E|NE]; [right|left; lia].
    split; [exact E | apply A2, E].
Qed.

(** Rounding does not go above a number of the format that the value is
    at or below. *)
Lemma round_le (s : bool) (m mx : positive) (e ex : Z) :
  bounded prec emax mx ex = true ->
  vle (Z.pos m) e (Z.pos mx) ex ->
  binary_round prec emax s m e = S754_zero s
  \/ exists mz ez,
       binary_round prec emax s m e = S754_finite s mz ez
       /\ (ez < ex \/ (ez = ex /\ Z.pos mz <= Z.pos mx)).
Proof.
  intros Hb Hv.
  destruct (bounded_canonical mx ex Hb) as (Hcan & Hmax & Hmin & Hdx & Hnorm).
  pose proof (vle_digits (Z.pos m) e (Z.pos mx) ex ltac:(lia) ltac:(lia) Hv)
    as Hdig.
  cbn [Zdigits2] in Hdig.
  destruct (binary_round_spec s m e) as (M1 & HM0' & HM1 & Hres).
  set (e1 := fexp64 (Z.pos (digits2_pos m) + e)) in *.
  assert (He1 : e1 <= ex).
  { rewrite <- Hcan. apply fexp64_mono. exact Hdig. }
  pose proof (digits2_pos_bounds m) as Bm.
  pose proof (digits2_pos_bounds mx) as Bx.
  set (d := Z.pos (digits2_pos m)) in *.
  set (dx := Z.pos (digits2_pos mx)) in *.
  assert (Hd : 0 < d) by (unfold d; lia).
  assert (Hn : d + e - 53 <= e1 /\ -1074 <= e1).
  { unfold e1. rewrite fexp64_eq. lia. }
  assert (P53 : 2 ^ 53 = 9007199254740992) by reflexivity.
  assert (Hmx53 : Z.pos mx < 2 ^ 53).
  { assert (2 ^ dx <= 2 ^ 53) by (apply Z.pow_le_mono_r; lia). lia. }
  assert (B : 0 <= M1 <= 2 ^ 53 /\ (e1 = ex -> M1 <= Z.pos mx)).
  { destruct (Z.leb_spec e1 e) as [Hle|Hgt].
    - subst M1. assert (0 < 2 ^ (e - e1)) by (apply pow2_pos; lia).
      split.
      + split; [nia|].
        assert (Z.pos m * 2 ^ (e - e1) < 2 ^ (d + (e - e1)))
          by (rewrite pow2_split by lia; nia).
        assert (2 ^ (d + (e - e1)) <= 2 ^ 53) by (apply Z.pow_le_mono_r; lia).
        lia.
      + intros E. unfold vle in Hv.
        rewrite Z.min_r in Hv by lia. rewrite Z.sub_diag in Hv.
        change (2 ^ 0) with 1 in Hv. rewrite E. lia.
    - destruct HM1 as [[Hq1 Hq2] Hexact].
      assert (Pn : 0 < 2 ^ (e1 - e)) by (apply pow2_pos; lia).
      assert (Hq0 : 0 <= Z.pos m / 2 ^ (e1 - e)) by (apply Z.div_pos; lia).
      assert (Hq53 : Z.pos m / 2 ^ (e1 - e) < 2 ^ 53).
      { apply Z.div_lt_upper_bound; [lia|].
        rewrite <- pow2_split by lia.
        assert (2 ^ d <= 2 ^ (e1 - e + 53)) by (apply Z.pow_le_mono_r; lia).
        lia. }
      split; [lia|].
      intros E. unfold vle in Hv. rewrite Z.min_l in Hv by lia.
      rewrite Z.sub_diag in Hv. change (2 ^ 0) with 1 in Hv.
      rewrite <- E in Hv.
      assert (Hqx : Z.pos m / 2 ^ (e1 - e) <= Z.pos mx).
      { apply Z.div_le_upper_bound; lia. }
      destruct (Z.eq_dec (Z.pos m / 2 ^ (e1 - e)) (Z.pos mx)) as [Q|Q]; [|lia].
      rewrite Hexact; [lia|].
      pose proof (Z.mul_div_le (Z.pos m) (2 ^ (e1 - e)) Pn) as Hml.
      rewrite Q in Hml. exists (Z.pos mx). lia. }
  destruct B as [[B0 B1] B2].
  set (k := fexp64 (Zdigits2 M1 + e1) - e1) in *.
  rewrite Hres. clear Hres.
  assert (HD54 : Zdigits2 M1 <= 54).
  { destruct (Z.eq_dec M1 0) as [->|NZ]; [simpl; lia|].
    change 54 with (Zdigits2 (2 ^ 53)). apply Zdigits2_mono; lia. }
  destruct (Z.ltb_spec 0 k) as [Hk|Hk].
  - assert (HD : Zdigits2 M1 = 54).
    { unfold k in Hk. rewrite fexp64_eq in Hk. lia. }
    assert (Hk1 : k = 1) by (unfold k; rewrite fexp64_eq; lia).
    assert (HM : M1 = 2 ^ 53).
    { destruct (Zdigits2_bounds M1) as [_ Bd].
      - destruct (Z.eq_dec M1 0) as [->|NZ]; [simpl in HD; lia|lia].
      - rewrite HD in Bd. change (2 ^ (54 - 1)) with (2 ^ 53) in Bd. lia. }
    rewrite HM, Hk1.
    change (2 ^ 53 / 2 ^ 1) with (Z.pos 4503599627370496).
    rewrite finish_pos.
    assert (e1 <> ex) by (intros E; specialize (B2 E); lia).
    destruct (Z.leb_spec (e1 + 1) 971); [|lia].
    right. eexists _, _. split; [reflexivity|].
    destruct (Z.eq_dec (e1 + 1) ex) as [E|NE]; [right|left; lia].
    split; [exact E|].
    assert (dx = 53) by (apply Hnorm; lia).
    assert (Hb52 : 2 ^ (53 - 1) <= Z.pos mx) by (rewrite <- H1; apply Bx).
    change (2 ^ (53 - 1)) with 4503599627370496 in Hb52. lia.
  - destruct M1 as [|p|p]; try lia.
    + left. reflexivity.
    + rewrite finish_pos. destruct (Z.leb_spec e1 971); [|lia].
      right. exists p, e1. split; [reflexivity|].
      destruct (Z.eq_dec e1 ex) as [E|NE]; [right|left; lia].
      split; [exact E | apply B2, E].
Qed.

(** A value of the format is rounded to itself. *)
Lemma round_exact (s : bool) (m mx : positive) (e ex : Z) :
  bounded prec emax mx ex = true ->
  Z.pos m * 2 ^ (e - Z.min e ex) = Z.pos mx * 2 ^ (ex - Z.min e ex) ->
  binary_round prec emax s m e = S754_finite s mx ex.
Proof.
  intros Hb Hv.
  destruct (round_ge s m mx e ex Hb) as [Hi|(mz & ez & Hr & Hge)].
  { unfold vle. rewrite Z.min_comm. lia. }
  - destruct (round_le s m mx e ex Hb) as [Hz|(mz & ez & Hr & _)].
    { unfold vle. lia. }
    + congruence.
    + congruence.
  - destruct (round_le s m mx e ex Hb) as [Hz|(mz' & ez' & Hr' & Hle)].
    { unfold vle. lia. }
    + congruence.
    + rewrite Hr in Hr'. injection Hr' as <- <-.
      rewrite Hr. f_equal; [|lia].
      assert (Z.pos mz = Z.pos mx) by lia. congruence.
Qed.

(** Every rounded value is a number of the format. *)
Lemma binary_round_valid (s : bool) (m : positive) (e : Z) :
  valid_binary (binary_round prec emax s m e) = true.
Proof.
  destruct (binary_round_spec s m e) as (M1 & HM0' & HM1 & Hres).
  set (e1 := fexp64 (Z.pos (digits2_pos m) + e)) in *.
  pose proof (digits2_pos_bounds m) as Bm.
  set (d := Z.pos (digits2_pos m)) in *.
  assert (Hd : 0 < d) by (unfold d; lia).
  assert (Hn : d + e - 53 <= e1 /\ -1074 <= e1
               /\ (-1074 < e1 -> e1 = d + e - 53)).
  { unfold e1. rewrite fexp64_eq. lia. }
  set (k := fexp64 (Zdigits2 M1 + e1) - e1) in *.
  rewrite Hres. clear Hres.
  assert (HM0 : 0 <= M1).
  { destruct (Z.leb_spec e1 e).
    - subst M1. assert (0 < 2 ^ (e - e1)) by (apply pow2_pos; lia). nia.
    - destruct HM1 as [[Hq _] _].
      assert (0 <= Z.pos m / 2 ^ (e1 - e))
        by (apply Z.div_pos; [lia | apply pow2_pos; lia]). lia. }
  destruct (Z.ltb_spec 0 k) as [Hk|Hk].
  - assert (HMpos : 0 < M1).
    { destruct (Z.eq_dec M1 0) as [E|NE]; [|lia].
      unfold k in Hk. rewrite E in Hk. simpl Zdigits2 in Hk.
      rewrite fexp64_eq in Hk. lia. }
    destruct (Zdigits2_bounds M1 HMpos) as [D1 B1].
    assert (Hkeq : k = Zdigits2 M1 - 53).
    { unfold k. rewrite fexp64_eq. unfold k in Hk. rewrite fexp64_eq in Hk. lia. }
    pose proof (Zdigits2_shr M1 k HMpos ltac:(lia) ltac:(lia)) as Hds.
    destruct (M1 / 2 ^ k) as [|p|p] eqn:E; try reflexivity.
    rewrite finish_pos. destruct (Z.leb_spec (e1 + k) 971); [|reflexivity].
    simpl. unfold bounded, canonical_mantissa.
    apply andb_true_iff. split; [|apply Z.leb_le; assumption].
    apply Z.eqb_eq. cbn [Zdigits2] in Hds. rewrite Hds.
    replace (Zdigits2 M1 - k + (e1 + k)) with (Zdigits2 M1 + e1) by lia.
    unfold k. lia.
  - destruct M1 as [|p|p]; try reflexivity.
    rewrite finish_pos. destruct (Z.leb_spec e1 971); [|reflexivity].
    simpl. unfold bounded, canonical_mantissa.
    apply andb_true_iff. split; [|apply Z.leb_le; assumption].
    apply Z.eqb_eq. cbn [Zdigits2] in Hk.
    assert (Hup : e1 <= fexp64 (Z.pos (digits2_pos p) + e1)).
    { destruct (Z.eq_dec e1 (-1074)) as [E|NE].
      - rewrite E at 1. apply fexp64_min.
      - assert (E1 : e1 = d + e - 53) by lia.
        destruct (Z.leb_spec e1 e) as [Hle|Hgt].
        + assert (Hds : Zdigits2 (Z.pos p) = d + (e - e1)).
          { rewrite HM1. apply (Zdigits2_shl (Z.pos m)); lia. }
          cbn [Zdigits2] in Hds. rewrite Hds.
          replace (d + (e - e1) + e1) with (d + e) by lia. unfold e1, d. lia.
        + destruct HM1 as [[Hq _] _].
          assert (Pn : 0 < 2 ^ (e1 - e)) by (apply pow2_pos; lia).
          pose proof (Zdigits2_shr (Z.pos m) (e1 - e) ltac:(lia) ltac:(lia))
            as Hds.
          cbn [Zdigits2] in Hds. fold d in Hds.
          specialize (Hds ltac:(lia)).
          assert (Hq1 : 0 < Z.pos m / 2 ^ (e1 - e)).
          { assert (2 ^ 52 <= Z.pos m / 2 ^ (e1 - e)).
            { apply Z.div_le_lower_bound; [lia|].
              rewrite <- pow2_split by lia.
              replace (e1 - e + 52) with (d - 1) by lia. lia. }
            assert (0 < 2 ^ 52) by (apply pow2_pos; lia). lia. }
          pose proof (Zdigits2_mono _ _ Hq1 Hq) as Hmono.
          cbn [Zdigits2] in Hmono.
          assert (fexp64 (d + e) <= fexp64 (Z.pos (digits2_pos p) + e1))
            by (apply fexp64_mono; lia).
          fold e1 in H0. unfold d in H0. fold e1 in H0. exact H0. }
    unfold k in Hk. cbn [Zdigits2] in Hk. lia.
Qed.

(** The value [m * 2^e] in units of [2^-1074], the smallest positive
    binary64 number. *)

Lemma vle_scaled (m1 e1 m2 e2 : Z) :
  -1074 <= e1 -> -1074 <= e2 ->
  (vle m1 e1 m2 e2 <-> scaled m1 e1 <= scaled m2 e2).
Proof.
  intros H1 H2. unfold vle, scaled.
  set (c := Z.min e1 e2).
  assert (E1 : 2 ^ (e1 + 1074) = 2 ^ (e1 - c) * 2 ^ (c + 1074))
    by (rewrite <- pow2_split by lia; f_equal; lia).
  assert (E2 : 2 ^ (e2 + 1074) = 2 ^ (e2 - c) * 2 ^ (c + 1074))
    by (rewrite <- pow2_split by lia; f_equal; lia).
  assert (Hp : 0 < 2 ^ (c + 1074)) by (apply pow2_pos; lia).
  rewrite E1, E2, !Z.mul_assoc. apply Z.mul_le_mono_pos_r. exact Hp.
Qed.

Lemma round_ge_scaled (s : bool) (m mx : positive) (e ex : Z) :
  bounded prec emax mx ex = true -> -1074 <= e ->
  scaled (Z.pos mx) ex <= scaled (Z.pos m) e ->
  binary_round prec emax s m e = S754_infinity s
  \/ exists mz ez,
       binary_round prec emax s m e = S754_finite s mz ez
       /\ (ex < ez \/ (ez = ex /\ Z.pos mx <= Z.pos mz)).
Proof.
  intros Hb He Hv. apply round_ge; [exact Hb|].
  apply vle_scaled; [apply (bounded_canonical mx ex Hb) | exact He | exact Hv].
Qed.

Lemma round_le_scaled (s : bool) (m mx : positive) (e ex : Z) :
  bounded prec emax mx ex = true -> -1074 <= e ->
  scaled (Z.pos m) e <= scaled (Z.pos mx) ex ->
  binary_round prec emax s m e = S754_zero s
  \/ exists mz ez,
       binary_round prec emax s m e = S754_finite s mz ez
       /\ (ez < ex \/ (ez = ex /\ Z.pos mz <= Z.pos mx)).
Proof.
  intros Hb He Hv. apply round_le; [exact Hb|].
  apply vle_scaled; [exact He | apply (bounded_canonical mx ex Hb) | exact Hv].
Qed.

Lemma round_exact_scaled (s : bool) (m mx : positive) (e ex : Z) :
  bounded prec emax mx ex = true -> -1074 <= e ->
  scaled (Z.pos m) e = scaled (Z.pos mx) ex ->
  binary_round prec emax s m e = S754_finite s mx ex.
Proof.
  intros Hb He Hv.
  destruct (round_ge_scaled s m mx e ex Hb He) as [Hi|(mz & ez & Hr & Hge)];
    [lia| |];
    (destruct (round_le_scaled s m mx e ex Hb He) as [Hz|(mz' & ez' & Hr' & Hle)];
     [lia| |]); try congruence.
  rewrite Hr in Hr'. injection Hr' as <- <-.
  rewrite Hr. f_equal; [|lia].
  assert (Z.pos mz = Z.pos mx) by lia. congruence.
Qed.

Lemma shl_align_scaled (m : positive) (e ez : Z) :
  ez <= e -> -1074 <= ez ->
  scaled (Z.pos (fst (shl_align m e ez))) ez = scaled (Z.pos m) e.
Proof.
  intros H Hz. pose proof (shl_align_spec m e ez) as Hs.
  destruct (shl_align m e ez) as [mz ez']. cbn [fst].
  destruct (Z.ltb_spec ez e).
  - destruct Hs as [-> _]. unfold scaled.
    replace (e + 1074) with ((e - ez) + (ez + 1074)) by lia.
    rewrite (pow2_split (e - ez) (ez + 1074)) by lia. ring.
  - destruct Hs as [-> _]. replace ez with e by lia. reflexivity.
Qed.

Lemma scaled_pos (m : positive) (e : Z) : -1074 <= e -> 0 < scaled (Z.pos m) e.
Proof.
  intros H. unfold scaled. assert (0 < 2 ^ (e + 1074)) by (apply pow2_pos; lia).
  nia.
Qed.

Lemma SFcompare_refl_finite (s : bool) (m : positive) (e : Z) :
  SFcompare (S754_finite s m e) (S754_finite s m e) = Some Eq.
Proof.
  simpl. rewrite Z.compare_refl, Pos.compare_cont_refl. destruct s; reflexivity.
Qed.

Lemma binary_round_sign (s : bool) (m : positive) (e : Z) :
  match binary_round prec emax s m e with
  | S754_zero s' | S754_infinity s' | S754_finite s' _ _ => s' = s
  | S754_nan => False
  end.
Proof.
  destruct (binary_round_spec s m e) as (M1 & HM0 & _ & Hres). rewrite Hres.
  assert (F : forall M E, 0 <= M ->
                match finish s M E with
                | S754_zero s' | S754_infinity s'
                | S754_finite s' _ _ => s' = s
                | S754_nan => False
                end).
  { intros M E HM. destruct M as [|p|p]; simpl; [reflexivity| |lia].
    destruct (E <=? _); reflexivity. }
  cbv zeta.
  match goal with |- context [0 <? ?k] => destruct (Z.ltb_spec 0 k) end;
    apply F; [|exact HM0].
  apply Z.div_pos; [exact HM0 | apply pow2_pos; lia].
Qed.


(** Adding a float that is not above zero never gives more: the sum is
    not above the other operand. *)
Lemma add_nonpos_not_above (l x : float) :
  PrimFloat.leb l 0 = true -> PrimFloat.ltb x (l + x) = false.
Proof.
  rewrite FloatAxioms.leb_spec, FloatAxioms.ltb_spec, FloatAxioms.add_spec.
  change (Prim2SF 0) with (S754_zero false).
  pose proof (Prim2SF_valid l) as Vl. pose proof (Prim2SF_valid x) as Vx.
  unfold SFltb, SFleb.
  destruct (Prim2SF l) as [sl|sl| |sl ml el]; destruct (Prim2SF x) as [sx|sx| |sx mx ex];
    try (destruct sl; try discriminate); try (destruct sx);
    try (intros _; reflexivity);
    try (intros _; unfold SF64add, SFadd; rewrite SFcompare_refl_finite; reflexivity).
  all: intros _.
  all: cbn [valid_binary] in Vl, Vx.
  all: destruct (bounded_canonical ml el Vl) as (_ & _ & Hel & _).
  all: destruct (bounded_canonical mx ex Vx) as (_ & _ & Hex & _).
  all: unfold SF64add, SFadd, cond_Zopp.
  all: set (ez := Z.min el ex).
  all: pose proof (shl_align_scaled ml el ez ltac:(lia) ltac:(lia)) as Sl.
  all: pose proof (shl_align_scaled mx ex ez ltac:(lia) ltac:(lia)) as Sx.
  all: set (ml' := fst (shl_align ml el ez)) in *.
  all: set (mx' := fst (shl_align mx ex ez)) in *.
  - (* x negative: the sum is at least as large in magnitude *)
    change (- Z.pos ml' + - Z.pos mx') with (Z.neg (ml' + mx')).
    cbn [binary_normalize].
    destruct (round_ge_scaled true (ml' + mx') mx ez ex Vx ltac:(lia))
      as [Hi|(mz & ezz & Hr & Hge)].
    + pose proof (scaled_pos ml el Hel). unfold scaled in *.
      rewrite Pos2Z.inj_add. lia.
    + rewrite Hi. reflexivity.
    + rewrite Hr. simpl.
      destruct Hge as [Hlt|[-> Hm]].
      * destruct (Z.compare_spec ex ezz); try lia; reflexivity.
      * rewrite Z.compare_refl.
        change (Pos.compare_cont Eq mx mz) with (Pos.compare mx mz).
        destruct (Pos.compare_spec mx mz); try reflexivity; lia.
  - (* x positive *)
    destruct (- Z.pos ml' + Z.pos mx') as [|t|t] eqn:ET; cbn [binary_normalize].
    + reflexivity.
    + destruct (round_le_scaled false t mx ez ex Vx ltac:(lia))
        as [Hz|(mz & ezz & Hr & Hle)].
      * pose proof (scaled_pos ml el Hel). unfold scaled in *.
        assert (Z.pos t = Z.pos mx' - Z.pos ml') by lia.
        rewrite H0. lia.
      * rewrite Hz. reflexivity.
      * rewrite Hr. simpl.
        destruct Hle as [Hlt|[-> Hm]].
        -- destruct (Z.compare_spec ex ezz); try lia; reflexivity.
        -- rewrite Z.compare_refl.
           change (Pos.compare_cont Eq mx mz) with (Pos.compare mx mz).
           destruct (Pos.compare_spec mx mz); try reflexivity; lia.
    + pose proof (binary_round_sign true t ez) as Hs.
      destruct (binary_round prec emax true t ez) as [sz|sz| |sz mz ezz];
        try subst sz; reflexivity.
Qed.

(** The conversion of a Python [int] to binary64: round to nearest, ties
    to even. *)

Lemma float_of_Z_spec (n : Z) :
  Prim2SF (float_of_Z n) = binary_normalize prec emax n 0 false.
Proof.
  apply Prim2SF_SF2Prim. destruct n; [reflexivity| |]; apply binary_round_valid.
Qed.

Lemma float_of_Z_nonpos (n : Z) :
  n <= 0 -> PrimFloat.leb (float_of_Z n) 0 = true.
Proof.
  intros H. rewrite FloatAxioms.leb_spec, float_of_Z_spec.
  change (Prim2SF 0) with (S754_zero false).
  destruct n as [|p|p]; [reflexivity | lia |].
  cbn [binary_normalize].
  pose proof (binary_round_sign true p 0) as Hs.
  destruct (binary_round prec emax true p 0) as [sz|sz| |sz mz ezz];
    try subst sz; try reflexivity. contradiction.
Qed.

Lemma scaled_inj (m1 m2 : positive) (e : Z) :
  -1074 <= e -> scaled (Z.pos m1) e = scaled (Z.pos m2) e -> m1 = m2.
Proof.
  unfold scaled. intros He H.
  assert (0 < 2 ^ (e + 1074)) by (apply pow2_pos; lia).
  assert (Z.pos m1 = Z.pos m2) by nia. congruence.
Qed.

(** A whole number up to [2^53] is a binary64 number. *)
Lemma int_rep (p : positive) :
  Z.pos p <= 2 ^ 53 ->
  exists m e,
    binary_round prec emax false p 0 = S754_finite false m e
    /\ bounded prec emax m e = true
    /\ scaled (Z.pos m) e = Z.pos p * 2 ^ 1074.
Proof.
  intros Hp.
  destruct (Z.eq_dec (Z.pos p) (2 ^ 53)) as [E|NE].
  - assert (p = 9007199254740992%positive) by (injection E; auto). subst p.
    exists 4503599627370496%positive, 1.
    split; [vm_compute; reflexivity|]. split; vm_compute; reflexivity.
  - pose proof (binary_round_valid false p 0) as Hv.
    destruct (binary_round_spec false p 0) as (M1 & HM0 & HM1 & Hres).
    pose proof (digits2_pos_bounds p) as Bp.
    set (d := Z.pos (digits2_pos p)) in *.
    assert (Hd : 0 < d <= 53).
    { split; [unfold d; lia|].
      destruct (Z.le_gt_cases d 53) as [L|L]; [exact L|].
      assert (2 ^ 53 <= 2 ^ (d - 1)) by (apply Z.pow_le_mono_r; lia). lia. }
    replace (d + 0) with d in * by lia.
    assert (He1 : fexp64 d = d - 53) by (rewrite fexp64_eq; lia).
    rewrite He1 in *.
    destruct (Z.leb_spec (d - 53) 0); [|lia].
    assert (P : 0 < 2 ^ (0 - (d - 53))) by (apply pow2_pos; lia).
    assert (HD : Zdigits2 M1 = 53).
    { rewrite HM1, Zdigits2_shl by lia. cbn [Zdigits2]. fold d. lia. }
    rewrite HD in Hres.
    assert (Hk : fexp64 (53 + (d - 53)) - (d - 53) = 0)
      by (rewrite fexp64_eq; lia).
    cbv zeta in Hres. rewrite Hk in Hres. cbn [Z.ltb Z.compare] in Hres.
    destruct M1 as [|q|q]; try nia.
    rewrite finish_pos in Hres.
    destruct (Z.leb_spec (d - 53) 971); [|lia].
    exists q, (d - 53). split; [exact Hres|].
    rewrite Hres in Hv. split; [exact Hv|].
    unfold scaled. rewrite HM1.
    replace 1074 with ((0 - (d - 53)) + (d - 53 + 1074)) at 2 by lia.
    rewrite (pow2_split (0 - (d - 53)) (d - 53 + 1074)) by lia. ring.
Qed.

Lemma int_of_rep (p m : positive) (e : Z) :
  bounded prec emax m e = true ->
  scaled (Z.pos m) e = Z.pos p * 2 ^ 1074 ->
  binary_round prec emax false p 0 = S754_finite false m e.
Proof.
  intros Hb Hs. apply round_exact_scaled; [exact Hb | lia |].
  rewrite Hs. reflexivity.
Qed.

(** Whole numbers up to [2^53] add exactly. *)
Lemma float_of_Z_add (a b : Z) :
  0 <= a -> 0 <= b -> a + b <= 2 ^ 53 ->
  (float_of_Z a + float_of_Z b)%float = float_of_Z (a + b).
Proof.
  intros Ha Hb Hab. apply Prim2SF_inj.
  rewrite FloatAxioms.add_spec, !float_of_Z_spec.
  destruct a as [|pa|pa]; [|clear Ha|lia].
  { destruct b as [|pb|pb]; [reflexivity| |lia].
    rewrite Z.add_0_l. cbn [binary_normalize].
    pose proof (binary_round_sign false pb 0) as Hs.
    destruct (binary_round prec emax false pb 0) as [sz|sz| |sz mz ezz];
      try subst sz; try reflexivity; try contradiction. }
  destruct b as [|pb|pb]; [|clear Hb|lia].
  { rewrite Z.add_0_r. cbn [binary_normalize].
    pose proof (binary_round_sign false pa 0) as Hs.
    destruct (binary_round prec emax false pa 0) as [sz|sz| |sz mz ezz];
      try subst sz; try reflexivity; try contradiction. }
  change (Z.pos pa + Z.pos pb) with (Z.pos (pa + pb)) in *.
  cbn [binary_normalize].
  destruct (int_rep pa ltac:(lia)) as (ma & ea & Ra & Ba & Sa).
  destruct (int_rep pb ltac:(lia)) as (mb & eb & Rb & Bb & Sb).
  destruct (int_rep (pa + pb) Hab) as (mc & ec & Rc & Bc & Sc).
  rewrite Ra, Rb, Rc. unfold SF64add, SFadd, cond_Zopp.
  destruct (bounded_canonical ma ea Ba) as (_ & _ & Hea & _).
  destruct (bounded_canonical mb eb Bb) as (_ & _ & Heb & _).
  set (ez := Z.min ea eb).
  pose proof (shl_align_scaled ma ea ez ltac:(lia) ltac:(lia)) as Sa'.
  pose proof (shl_align_scaled mb eb ez ltac:(lia) ltac:(lia)) as Sb'.
  set (ma' := fst (shl_align ma ea ez)) in *.
  set (mb' := fst (shl_align mb eb ez)) in *.
  change (Z.pos ma' + Z.pos mb') with (Z.pos (ma' + mb')).
  cbn [binary_normalize].
  apply round_exact_scaled; [exact Bc | lia |].
  rewrite Sc. unfold scaled in *. rewrite !Pos2Z.inj_add. lia.
Qed.

(** Whole numbers up to [2^53] compare as they should. *)
Lemma float_of_Z_ltb (a b : Z) :
  0 <= a <= 2 ^ 53 -> 0 <= b <= 2 ^ 53 ->
  PrimFloat.ltb (float_of_Z a) (float_of_Z b) = (a <? b).
Proof.
  intros Ha Hb. rewrite FloatAxioms.ltb_spec, !float_of_Z_spec.
  destruct a as [|pa|pa]; [| |lia]; (destruct b as [|pb|pb]; [| |lia]).
  - reflexivity.
  - cbn [binary_normalize].
    destruct (int_rep pb ltac:(lia)) as (mb & eb & Rb & _). rewrite Rb.
    reflexivity.
  - cbn [binary_normalize].
    destruct (int_rep pa ltac:(lia)) as (ma & ea & Ra & _). rewrite Ra.
    reflexivity.
  - cbn [binary_normalize].
    destruct (int_rep pa ltac:(lia)) as (ma & ea & Ra & Ba & Sa).
    destruct (int_rep pb ltac:(lia)) as (mb & eb & Rb & Bb & Sb).
    rewrite Ra, Rb.
    destruct (bounded_canonical ma ea Ba) as (_ & _ & Hea & _).
    destruct (bounded_canonical mb eb Bb) as (_ & _ & Heb & _).
    assert (P : 0 < 2 ^ 1074) by (apply pow2_pos; lia).
    unfold SFltb. cbn [SFcompare].
    change (Pos.compare_cont Eq ma mb) with (Pos.compare ma mb).
    destruct (Z.ltb_spec (Z.pos pa) (Z.pos pb)) as [L|L].
    + destruct (round_le_scaled false pa mb 0 eb Bb ltac:(lia))
        as [Hz|(mz & ez & Hr & Hle)].
      { rewrite Sb. unfold scaled. simpl (0 + 1074). nia. }
      * congruence.
      * rewrite Ra in Hr. injection Hr as <- <-.
        destruct Hle as [Hlt|[-> Hm]].
        -- destruct (Z.compare_spec ea eb); try lia; reflexivity.
        -- rewrite Z.compare_refl.
           destruct (Pos.compare_spec ma mb) as [E|E|E]; try reflexivity; [|lia].
           subst mb. rewrite Sa in Sb. nia.
    + destruct (round_le_scaled false pb ma 0 ea Ba ltac:(lia))
        as [Hz|(mz & ez & Hr & Hle)].
      { rewrite Sa. unfold scaled. simpl (0 + 1074). nia. }
      * congruence.
      * rewrite Rb in Hr. injection Hr as <- <-.
        destruct Hle as [Hlt|[-> Hm]].
        -- destruct (Z.compare_spec ea eb); try lia; reflexivity.
        -- rewrite Z.compare_refl.
           destruct (Pos.compare_spec ma mb) as [E|E|E]; try reflexivity; lia.
Qed.

Lemma float_of_Z_one : float_of_Z 1 = 1%float.
Proof. vm_compute. reflexivity. Qed.

(** ** Signs of square roots *)

Lemma binary_round_aux_shape (mx ex : Z) (lx : SpecFloat.location) :
  nonneg_shape (binary_round_aux prec emax false mx ex lx).
Proof.
  unfold binary_round_aux.
  destruct (shr_fexp prec emax mx ex lx) as [mrs e'].
  destruct (shr_fexp prec emax _ e' loc_Exact) as [mrs'' e''].
  destruct (shr_m mrs''); simpl; auto.
  destruct (Z.leb e'' (Z.sub emax prec)); simpl; auto.
Qed.

Lemma SFsqrt_shape (s : spec_float) : nonneg_shape (SF64sqrt s).
Proof.
  destruct s as [sg | sg | | sg m e]; simpl; auto.
  - destruct sg; simpl; auto.
  - destruct sg; simpl; auto.
    destruct (SFsqrt_core_binary prec emax (Z.pos m) e) as [[mz ez] lz].
    apply binary_round_aux_shape.
Qed.

Lemma sqrt_nonneg_or_nan (x : float) :
  is_nan (PrimFloat.sqrt x) = true \/ PrimFloat.leb 0 (PrimFloat.sqrt x) = true.
Proof.
  pose proof (SFsqrt_shape (Prim2SF x)) as Hs.
  rewrite <- FloatAxioms.sqrt_spec in Hs.
  unfold is_nan, PrimFloat.is_nan.
  rewrite FloatAxioms.eqb_spec, FloatAxioms.leb_spec.
  destruct (Prim2SF (PrimFloat.sqrt x)) as [sg | sg | | sg m e]; simpl in *.
  - right. reflexivity.
  - destruct sg; [contradiction | right; reflexivity].
  - left. reflexivity.
  - destruct sg; [contradiction | right; reflexivity].
Qed.

Lemma norm_complex_nonneg_or_nan (v : vec3 complex) :
  is_nan (norm_complex v) = true \/ PrimFloat.leb 0 (norm_complex v) = true.
Proof. unfold norm_complex. apply sqrt_nonneg_or_nan. Qed.

(** ** compute_cell_error *)

Lemma nan_to_zero_entry (m : mat3) (i j : nat) :
  entry (nan_to_zero m) i j =
  if cis_nan (entry m i j) then czero else entry m i j.
Proof.
  unfold nan_to_zero, entry, row, vmap.
  destruct i as [|[|i]]; destruct j as [|[|j]]; reflexivity.
Qed.

Lemma nan_to_zero_clean (m : mat3) (i j : nat) :
  cis_nan (entry (nan_to_zero m) i j) = false.
Proof.
  rewrite nan_to_zero_entry.
  destruct (cis_nan (entry m i j)) eqn:E; [reflexivity | exact E].
Qed.

(** *** NaN through the arithmetic *)

Lemma is_nan_spec (x : float) : is_nan x = true <-> Prim2SF x = S754_nan.
Proof.
  unfold is_nan, PrimFloat.is_nan. rewrite FloatAxioms.eqb_spec. unfold SFeqb.
  destruct (Prim2SF x) as [s | s | | s m e]; simpl.
  - split; discriminate.
  - destruct s; split; discriminate.
  - split; reflexivity.
  - rewrite Z.compare_refl, Pos.compare_cont_refl.
    destruct s; split; discriminate.
Qed.

Lemma mul_nan (x y : float) : is_nan x = true -> is_nan (x * y)%float = true.
Proof.
  rewrite !is_nan_spec, FloatAxioms.mul_spec. intros ->. reflexivity.
Qed.

Lemma add_nan_l (x y : float) : is_nan x = true -> is_nan (x + y)%float = true.
Proof.
  rewrite !is_nan_spec, FloatAxioms.add_spec. intros ->. reflexivity.
Qed.

Lemma add_nan_r (x y : float) : is_nan y = true -> is_nan (x + y)%float = true.
Proof.
  rewrite !is_nan_spec, FloatAxioms.add_spec. intros ->.
  destruct (Prim2SF x); reflexivity.
Qed.

Lemma sub_nan_l (x y : float) : is_nan x = true -> is_nan (x - y)%float = true.
Proof.
  rewrite !is_nan_spec, FloatAxioms.sub_spec. intros ->. reflexivity.
Qed.

Lemma sqrt_nan (x : float) : is_nan x = true -> is_nan (PrimFloat.sqrt x) = true.
Proof.
  rewrite !is_nan_spec, FloatAxioms.sqrt_spec. intros ->. reflexivity.
Qed.

Lemma dot3_nan (v : vec3 float) :
  is_nan (c0 v) || is_nan (c1 v) || is_nan (c2 v) = true ->
  is_nan (dot3 v) = true.
Proof.
  unfold dot3. intros H.
  apply orb_true_iff in H as [H|H]; [apply orb_true_iff in H as [H|H]|].
  - apply add_nan_l, add_nan_l, mul_nan, H.
  - apply add_nan_l, add_nan_r, mul_nan, H.
  - apply add_nan_r, mul_nan, H.
Qed.

(** The norm of a triple with a NaN in it is NaN. *)
Lemma norm_complex_nan (v : vec3 complex) :
  cis_nan (c0 v) || cis_nan (c1 v) || cis_nan (c2 v) = true ->
  is_nan (norm_complex v) = true.
Proof.
  unfold norm_complex, cis_nan. intros H. apply sqrt_nan.
  assert (Hcases :
    is_nan (re (c0 v)) || is_nan (re (c1 v)) || is_nan (re (c2 v)) = true
    \/ is_nan (im (c0 v)) || is_nan (im (c1 v)) || is_nan (im (c2 v)) = true).
  { destruct (is_nan (re (c0 v))), (is_nan (re (c1 v))), (is_nan (re (c2 v)));
      simpl in *; auto. }
  destruct Hcases as [Hre|Him].
  - apply add_nan_l, dot3_nan. exact Hre.
  - apply add_nan_r, dot3_nan. exact Him.
Qed.

Lemma csub_nan (z w : complex) : cis_nan z = true -> cis_nan (csub z w) = true.
Proof.
  unfold cis_nan, csub. simpl. intros H.
  apply orb_true_iff in H as [H|H]; apply orb_true_iff; [left|right];
    apply sub_nan_l, H.
Qed.

(** C4, the claim as stated fails: where a curl interpolator has no value
    (a piecewise-linear interpolator outside its hull answers NaN), the
    error is NaN, which is not greater than or equal to 0. *)
Lemma compute_cell_error_not_nonnegative :
  PrimFloat.leb 0
    (compute_cell_error (ND := Toy.numdiff) Toy.origin
       (fun _ => Cx nan 0) (fun _ => czero) (fun _ => czero)
       (fun _ => czero) (fun _ => czero) (fun _ => czero)) = false.
Proof. vm_compute. reflexivity. Qed.

(** C4, amended: for every point and every six interpolators,
    [compute_cell_error] is the Euclidean norm of the difference between
    the face-based curl triple at the point and the curl rebuilt from the
    order-2 Jacobian of the electric-field triple, where every NaN entry
    of the Jacobian has been replaced by 0 and the other entries are kept;
    the result is never negative: it is NaN or at least 0, and it is NaN
    whenever one of the three curl interpolators yields a NaN part at the
    point. *)
Theorem compute_cell_error_is_curl_mismatch `{ND : NumDiffTools}
    (cell : point) (curl_x curl_y curl_z ef_x ef_y ef_z : interpolator) :
  let raw := nd_Jacobian 2 (fun x => V3 (ef_x x) (ef_y x) (ef_z x)) cell in
  let jacobian := nan_to_zero raw in
  let error := compute_cell_error cell curl_x curl_y curl_z ef_x ef_y ef_z in
  error =
    norm_complex
      (vzip csub (V3 (curl_x cell) (curl_y cell) (curl_z cell))
         (V3 (csub (entry jacobian 2 1) (entry jacobian 1 2))
             (csub (entry jacobian 0 2) (entry jacobian 2 0))
             (csub (entry jacobian 1 0) (entry jacobian 0 1))))
  /\ (forall i j, cis_nan (entry jacobian i j) = false)
  /\ (forall i j, cis_nan (entry raw i j) = false ->
        entry jacobian i j = entry raw i j)
  /\ (forall i j, cis_nan (entry raw i j) = true -> entry jacobian i j = czero)
  /\ (is_nan error = true \/ PrimFloat.leb 0 error = true)
  /\ (cis_nan (curl_x cell) || cis_nan (curl_y cell) || cis_nan (curl_z cell)
      = true -> is_nan error = true).
Proof.
  intros raw jacobian error. repeat split.
  - intros i j. apply nan_to_zero_clean.
  - intros i j H. unfold jacobian. rewrite nan_to_zero_entry, H. reflexivity.
  - intros i j H. unfold jacobian. rewrite nan_to_zero_entry, H. reflexivity.
  - apply norm_complex_nonneg_or_nan.
  - intros H. unfold error, compute_cell_error. apply norm_complex_nan.
    unfold vzip. cbn [c0 c1 c2].
    apply orb_true_iff in H as [H|H]; [apply orb_true_iff in H as [H|H]|].
    + rewrite (csub_nan _ _ H). reflexivity.
    + rewrite (csub_nan _ _ H). rewrite orb_true_r. reflexivity.
    + rewrite (csub_nan _ _ H). apply orb_true_r.
Qed.

(** ** estimate_error *)

Lemma rbind_ok {A B} (r : result A) (k : A -> result B) (b : B) :
  rbind r k = Ok b -> exists a, r = Ok a /\ k a = Ok b.
Proof. destruct r as [a|e]; simpl; [eauto | discriminate]. Qed.

Lemma insert_index_perm (a : list float) (i : nat) (l : list nat) :
  Permutation (insert_index a i l) (i :: l).
Proof.
  induction l as [|j l IH]; simpl; [reflexivity|].
  destruct (sort_le _ _); [reflexivity|].
  rewrite IH. apply perm_swap.
Qed.

Lemma argsort_perm (a : list float) :
  Permutation (argsort a) (seq 0 (length a)).
Proof.
  unfold argsort. induction (seq 0 (length a)) as [|i l IH]; simpl; [reflexivity|].
  rewrite insert_index_perm, IH. reflexivity.
Qed.

Lemma take_rows_total {A} (a : list A) (idx : list nat) :
  Forall (fun i => (i < length a)%nat) idx ->
  exists xs, take_rows a idx = Ok xs /\ length xs = length idx
             /\ Forall (fun x => In x a) xs.
Proof.
  induction 1 as [|i idx Hi _ IH]; simpl.
  - exists []. auto.
  - destruct IH as (xs & -> & Hlen & Hin).
    destruct (nth_error a i) as [x|] eqn:E.
    + exists (x :: xs). simpl. repeat split; [congruence|].
      constructor; [eapply nth_error_In; eauto | assumption].
    + apply nth_error_None in E. lia.
Qed.

Lemma slice_from_tail {A} (l : list A) (n : Z) :
  1 <= n <= Z.of_nat (length l) ->
  length (slice_from l (- n)) = Z.to_nat n.
Proof.
  intros H. unfold slice_from.
  destruct (Z.ltb_spec (- n) 0); [|lia].
  rewrite length_skipn. lia.
Qed.

Lemma slice_from_zero {A} (l : list A) : slice_from l (- 0) = l.
Proof.
  unfold slice_from. simpl. destruct (length l); reflexivity.
Qed.

Lemma slice_from_incl {A} (l : list A) (start : Z) (x : A) :
  In x (slice_from l start) -> In x l.
Proof.
  unfold slice_from. generalize (Z.to_nat
    (if start <? 0 then Z.max 0 (Z.of_nat (length l) + start)
     else Z.min start (Z.of_nat (length l)))).
  intros k. revert l. induction k as [|k IH]; intros [|y l]; simpl; auto.
Qed.

Lemma slice_from_length {A} (l : list A) (start : Z) :
  0 <= start <= Z.of_nat (length l) ->
  Z.of_nat (length (slice_from l start)) = Z.of_nat (length l) - start.
Proof.
  intros H. unfold slice_from.
  destruct (Z.ltb_spec start 0); [lia|].
  rewrite length_skipn. lia.
Qed.

Lemma in_firstn_nth {A} (k : nat) (l : list A) (x d : A) :
  In x (firstn k l) ->
  exists i, (i < k)%nat /\ (i < length l)%nat /\ nth i l d = x.
Proof.
  revert l. induction k as [|k IH]; intros [|y l]; simpl; try contradiction.
  intros [<-|H].
  - exists 0%nat. repeat split; lia.
  - destruct (IH l H) as (i & Hi & Hl & Hx).
    exists (S i). repeat split; [lia | lia | exact Hx].
Qed.

Lemma in_skipn_nth {A} (k : nat) (l : list A) (x d : A) :
  In x (skipn k l) ->
  exists j, (k <= j)%nat /\ (j < length l)%nat /\ nth j l d = x.
Proof.
  revert l. induction k as [|k IH]; intros l H.
  - simpl in H. destruct (In_nth l x d H) as (j & Hj & Hx).
    exists j. repeat split; [lia | exact Hj | exact Hx].
  - destruct l as [|y l]; [contradiction|]. simpl in H.
    destruct (IH l H) as (j & Hj & Hl & Hx).
    exists (S j). simpl. repeat split; [lia | lia | exact Hx].
Qed.

(** *** The order of the selection *)

Lemma lex_le_total (a b : Z * Z * Z) : lex_le a b \/ lex_le b a.
Proof. unfold lex_le. lia. Qed.

Lemma lex_le_trans (a b c : Z * Z * Z) : lex_le a b -> lex_le b c -> lex_le a c.
Proof. unfold lex_le. lia. Qed.

Lemma sort_le_key (x y : float) :
  sort_le x y = true <-> lex_le (sf_key (Prim2SF x)) (sf_key (Prim2SF y)).
Proof.
  unfold sort_le, is_nan, PrimFloat.is_nan.
  rewrite !FloatAxioms.eqb_spec, FloatAxioms.leb_spec.
  unfold SFeqb, SFleb, lex_le.
  destruct (Prim2SF x) as [sx | sx | | sx mx ex];
    destruct (Prim2SF y) as [sy | sy | | sy my ey];
    try destruct sx; try destruct sy; simpl;
    rewrite ?Z.compare_refl, ?Pos.compare_cont_refl; simpl;
    try (split; [intros _; lia | reflexivity]);
    try (split; [discriminate | lia]).
  - change (Pos.compare_cont Eq mx my) with (Pos.compare mx my).
    destruct (Z.compare_spec ex ey); destruct (Pos.compare_spec mx my); simpl;
      split; try discriminate; try reflexivity; lia.
  - change (Pos.compare_cont Eq mx my) with (Pos.compare mx my).
    destruct (Z.compare_spec ex ey); destruct (Pos.compare_spec mx my); simpl;
      split; try discriminate; try reflexivity; lia.
Qed.

(** On numbers the sort order is [<=]. *)
Lemma sort_le_numbers (x y : float) :
  is_nan x = false -> is_nan y = false ->
  sort_le x y = PrimFloat.leb x y.
Proof. unfold sort_le. intros -> ->. reflexivity. Qed.

Lemma index_le_trans (a : list float) (i j k : nat) :
  index_le a i j -> index_le a j k -> index_le a i k.
Proof. unfold index_le. rewrite !sort_le_key. apply lex_le_trans. Qed.

Lemma index_le_total (a : list float) (i j : nat) :
  sort_le (nth i a nan) (nth j a nan) = false -> index_le a j i.
Proof.
  unfold index_le. intros H.
  destruct (lex_le_total (sf_key (Prim2SF (nth i a nan)))
              (sf_key (Prim2SF (nth j a nan)))) as [L|L].
  - apply sort_le_key in L. congruence.
  - apply sort_le_key. exact L.
Qed.

Lemma insert_index_sorted (a : list float) (i : nat) (l : list nat) :
  StronglySorted (index_le a) l ->
  StronglySorted (index_le a) (insert_index a i l).
Proof.
  induction 1 as [|j l Hs IH Hall]; simpl.
  - repeat constructor.
  - destruct (sort_le (nth i a nan) (nth j a nan)) eqn:E.
    + constructor; [constructor; assumption|].
      constructor; [exact E|].
      eapply List.Forall_impl; [|exact Hall].
      intros k Hk. eapply index_le_trans; [exact E | exact Hk].
    + constructor; [exact IH|].
      apply List.Forall_forall. intros k Hk.
      apply (Permutation_in _ (insert_index_perm a i l)) in Hk.
      destruct Hk as [<-|Hk].
      * apply index_le_total, E.
      * rewrite List.Forall_forall in Hall. apply Hall, Hk.
Qed.

Lemma argsort_sorted (a : list float) : StronglySorted (index_le a) (argsort a).
Proof.
  unfold argsort. induction (seq 0 (length a)) as [|i l IH]; simpl.
  - constructor.
  - apply insert_index_sorted, IH.
Qed.

Lemma sort_le_refl (x : float) : sort_le x x = true.
Proof. apply sort_le_key. unfold lex_le. lia. Qed.

Lemma sorted_nth {A} (R : A -> A -> Prop) (l : list A) :
  StronglySorted R l ->
  forall i j a b, (i < j)%nat -> nth_error l i = Some a ->
    nth_error l j = Some b -> R a b.
Proof.
  induction 1 as [|x l Hs IH Hall]; intros i j a b Hij Ha Hb.
  - destruct i; discriminate Ha.
  - destruct j as [|j]; [lia|]. simpl in Hb. destruct i as [|i].
    + simpl in Ha. injection Ha as <-.
      rewrite List.Forall_forall in Hall. apply Hall.
      eapply nth_error_In, Hb.
    + simpl in Ha. apply (IH i j a b); [lia | exact Ha | exact Hb].
Qed.

Lemma argsort_nth_le (a : list float) (i j : nat) :
  (i <= j)%nat -> (j < length a)%nat ->
  index_le a (nth i (argsort a) 0%nat) (nth j (argsort a) 0%nat).
Proof.
  intros Hij Hj.
  assert (Hl : length (argsort a) = length a)
    by (rewrite (Permutation_length (argsort_perm a)); apply length_seq).
  destruct (Nat.eq_dec i j) as [->|Hne].
  - unfold index_le. apply sort_le_refl.
  - apply (sorted_nth _ _ (argsort_sorted a) i j); [lia | |];
      apply nth_error_nth'; lia.
Qed.

(** The full sort is a selection for every position. *)
Lemma toy_numpy_laws : NumPyLaws Toy.numpy.
Proof.
  split; simpl.
  - intros a k _. apply argsort_perm.
  - intros a k i Hk Hi. apply argsort_nth_le; lia.
  - intros a k i Hk Hi. apply argsort_nth_le; lia.
Qed.

(** *** argpartition *)

Section Selection.

Context `{NP : NumPy}.

Lemma argpartition_inside (a : list float) (kth : Z) :
  let n := Z.of_nat (length a) in
  0 <= normalize_kth n kth < n ->
  argpartition a kth = Ok (introselect a (Z.to_nat (normalize_kth n kth))).
Proof.
  intros n H. unfold argpartition. fold n.
  destruct (Z.leb_spec 0 (normalize_kth n kth)); [|lia].
  destruct (Z.ltb_spec (normalize_kth n kth) n); [|lia].
  reflexivity.
Qed.

Lemma argpartition_outside (a : list float) (kth : Z) :
  let n := Z.of_nat (length a) in
  ~ 0 <= normalize_kth n kth < n ->
  argpartition a kth = argpartition_checked a kth.
Proof.
  intros n H. unfold argpartition. fold n.
  destruct (Z.leb_spec 0 (normalize_kth n kth));
    destruct (Z.ltb_spec (normalize_kth n kth) n); simpl; try reflexivity.
  lia.
Qed.

(** On every array numpy can hold, one of fewer than [2^63] entries,
    [argpartition] is [argpartition_checked]: the conversion of [kth]
    comes first and changes nothing for a [kth] inside the array. *)
Lemma argpartition_as_numpy (a : list float) (kth : Z) :
  Z.of_nat (length a) < 2 ^ 63 ->
  argpartition a kth = argpartition_checked a kth.
Proof.
  intros Hn. set (n := Z.of_nat (length a)) in *.
  destruct (Z.le_gt_cases 0 (normalize_kth n kth)) as [H0|H0];
    [destruct (Z.lt_ge_cases (normalize_kth n kth) n) as [H1|H1]|];
    try (apply argpartition_outside; fold n; lia).
  rewrite argpartition_inside by (fold n; lia). fold n.
  unfold argpartition_checked, intp_of_kth. fold n.
  assert (Hk : - 2 ^ 63 <= kth < 2 ^ 63).
  { unfold normalize_kth in H0, H1. destruct (Z.ltb_spec kth 0); lia. }
  destruct (Z.leb_spec (- 2 ^ 63) kth); [|lia].
  destruct (Z.ltb_spec kth (2 ^ 63)); [|lia].
  simpl. destruct (Z.eqb_spec n 0); [lia|].
  destruct (Z.leb_spec 0 (normalize_kth n kth)); [|lia].
  destruct (Z.ltb_spec (normalize_kth n kth) n); [|lia].
  reflexivity.
Qed.

Context `{NPL : !NumPyLaws NP}.

Lemma introselect_length (a : list float) (k : nat) :
  (k < length a)%nat -> length (introselect a k) = length a.
Proof.
  intros H. rewrite (Permutation_length (introselect_permutation a k H)).
  apply length_seq.
Qed.

Lemma introselect_in_range (a : list float) (k i : nat) :
  (k < length a)%nat -> In i (introselect a k) -> (i < length a)%nat.
Proof.
  intros H Hi. apply (Permutation_in _ (introselect_permutation a k H)) in Hi.
  apply in_seq in Hi. lia.
Qed.

Context `{ND : NumDiffTools}.

(** Within its range the selection has the requested size: when the
    number of cells to refine lies between 1 and the size of the search
    area, [estimate_error] returns that many points of the area. *)
Lemma estimate_error_count (search_area : list point)
    (curl_x curl_y curl_z ef_x ef_y ef_z : interpolator)
    (refine_percentage : float) (n : Z) :
  n_refine_cells_of refine_percentage search_area = Ok n ->
  1 <= n <= Z.of_nat (length search_area) ->
  exists cells,
    estimate_error search_area curl_x curl_y curl_z ef_x ef_y ef_z
      refine_percentage = Ok cells
    /\ Z.of_nat (length cells) = n
    /\ Forall (fun c => In c search_area) cells.
Proof.
  intros Hn Hrange. unfold estimate_error. rewrite Hn. simpl.
  set (errs := cell_errors_of search_area curl_x curl_y curl_z ef_x ef_y ef_z).
  assert (Hlen : length errs = length search_area)
    by (unfold errs, cell_errors_of; apply length_map).
  assert (Hk : normalize_kth (Z.of_nat (length errs)) (- n) =
               Z.of_nat (length search_area) - n).
  { unfold normalize_kth. rewrite Hlen.
    destruct (Z.ltb_spec (- n) 0); lia. }
  rewrite argpartition_inside by (rewrite Hk, ?Hlen; lia).
  rewrite Hk. cbn [rbind].
  set (k := Z.to_nat (Z.of_nat (length search_area) - n)).
  assert (Hklt : (k < length errs)%nat) by (unfold k; lia).
  destruct (take_rows_total search_area (slice_from (introselect errs k) (- n)))
    as (cells & Hok & Hl & Hin).
  - apply List.Forall_forall. intros i Hi. apply slice_from_incl in Hi.
    apply (introselect_in_range errs k i Hklt) in Hi. lia.
  - exists cells. repeat split; [exact Hok | | exact Hin].
    rewrite Hl, slice_from_tail; rewrite ?introselect_length; lia.
Qed.

(** Within its range the selection is the top of the partition: when the
    number [n] of cells to refine lies between 1 and the size of the
    search area, [estimate_error] returns the points at the last [n]
    positions of a permutation of the indices, and the error at every
    position left out sorts at or before the error at every position
    chosen (on numbers: is less than or equal to it; NaN sorts last). *)
Lemma estimate_error_selects_largest
    (search_area : list point)
    (curl_x curl_y curl_z ef_x ef_y ef_z : interpolator)
    (refine_percentage : float) (n : Z) :
  n_refine_cells_of refine_percentage search_area = Ok n ->
  1 <= n <= Z.of_nat (length search_area) ->
  let errors := cell_errors_of search_area curl_x curl_y curl_z ef_x ef_y ef_z in
  let cut := (length search_area - Z.to_nat n)%nat in
  exists order,
    Permutation order (seq 0 (length search_area))
    /\ estimate_error search_area curl_x curl_y curl_z ef_x ef_y ef_z
         refine_percentage = take_rows search_area (skipn cut order)
    /\ length (skipn cut order) = Z.to_nat n
    /\ forall left_out chosen,
         In left_out (firstn cut order) -> In chosen (skipn cut order) ->
         sort_le (nth left_out errors nan) (nth chosen errors nan) = true.
Proof.
  intros Hn Hrange errors cut.
  assert (Hlen : length errors = length search_area)
    by (unfold errors, cell_errors_of; apply length_map).
  assert (Hcut : (cut < length errors)%nat) by (unfold cut; lia).
  exists (introselect errors cut).
  pose proof (introselect_permutation errors cut Hcut) as Hperm.
  rewrite Hlen in Hperm.
  pose proof (introselect_length errors cut Hcut) as Hl. rewrite Hlen in Hl.
  split; [exact Hperm|]. split.
  - unfold estimate_error. rewrite Hn. simpl. fold errors.
    assert (Hk : normalize_kth (Z.of_nat (length errors)) (- n) = Z.of_nat cut).
    { unfold normalize_kth. rewrite Hlen.
      destruct (Z.ltb_spec (- n) 0); [|lia]. unfold cut. lia. }
    rewrite argpartition_inside by (rewrite Hk; lia).
    rewrite Hk, Nat2Z.id. simpl. unfold slice_from. rewrite Hl.
    destruct (Z.ltb_spec (- n) 0); [|lia].
    f_equal. f_equal. unfold cut. lia.
  - split.
    + rewrite length_skipn, Hl. unfold cut. lia.
    + intros k j Hk Hj.
      destruct (in_firstn_nth _ _ _ 0%nat Hk) as (i & Hi & _ & <-).
      destruct (in_skipn_nth _ _ _ 0%nat Hj) as (i' & Hi' & Hl' & <-).
      rewrite Hl, <- Hlen in Hl'.
      apply (index_le_trans errors _ (nth cut (introselect errors cut) 0%nat)).
      * apply introselect_before; [exact Hcut | lia].
      * apply introselect_after; [exact Hi' | exact Hl'].
Qed.

End Selection.

(** C2, on a concrete call: with [refine_percentage = 0] the number of
    cells to refine is [ceil(0 * 3) = 0], yet all three points of the
    search area come back, because the slice [[-0:]] is the whole
    partition. *)
Theorem estimate_error_zero_percentage_returns_all :
  let search_area := [Toy.origin; Toy.unit_x; Toy.origin] in
  n_refine_cells_of 0%float search_area = Ok 0
  /\ exists cells,
       estimate_error (NP := Toy.numpy) (ND := Toy.numdiff) search_area
         (fun _ => czero) (fun _ => czero) (fun p => of_real (fst (fst p)))
         (fun _ => czero) (fun _ => czero) (fun _ => czero) 0%float = Ok cells
       /\ length cells = 3%nat.
Proof.
  split; [vm_compute; reflexivity|].
  eexists. split; [vm_compute; reflexivity | reflexivity].
Qed.

(** ** estimate_curl_electric_field *)

Lemma slice_three {A} (l : list A) (a b c : nat) :
  length l = (a + b + c)%nat ->
  l = slice l 0 a ++ slice l a (a + b) ++ slice l (a + b) (a + b + c)
  /\ length (slice l 0 a) = a
  /\ length (slice l a (a + b)) = b
  /\ length (slice l (a + b) (a + b + c)) = c.
Proof.
  intros H. unfold slice.
  rewrite Nat.sub_0_r. change (skipn 0 l) with l.
  replace (a + b - a)%nat with b by lia.
  replace (a + b + c - (a + b))%nat with c by lia.
  repeat split.
  - rewrite <- (firstn_skipn a l) at 1. f_equal.
    rewrite <- (firstn_skipn b (skipn a l)) at 1. f_equal.
    rewrite skipn_skipn.
    replace (b + a)%nat with (a + b)%nat by lia.
    symmetry. apply firstn_all2. rewrite length_skipn. lia.
  - rewrite length_firstn. lia.
  - rewrite length_firstn, length_skipn. lia.
  - rewrite length_firstn, length_skipn. lia.
Qed.

Lemma concat_singletons {A B} (f : A -> B) (l : list A) :
  concat (map (fun i => [f i]) l) = map f l.
Proof. induction l as [|x l IH]; simpl; [reflexivity|]. rewrite IH. reflexivity. Qed.

Lemma nth_column (x : list complex) (i : nat) :
  (i < length x)%nat -> nth i (map (fun z => [z]) x) [] = [nth i x czero].
Proof.
  intros H. rewrite (nth_indep _ [] [czero]) by (rewrite length_map; exact H).
  apply (map_nth (fun z : complex => [z])).
Qed.

Lemma nth_scaled (c : complex) (x : list complex) (i : nat) :
  (i < length x)%nat -> nth i (map (cmul c) x) czero = cmul c (nth i x czero).
Proof.
  intros H. rewrite (nth_indep _ czero (cmul c czero)) by (rewrite length_map; exact H).
  apply map_nth.
Qed.

(** On two columns of one length the difference is the column of the
    differences. *)
Lemma array2_sub_columns (x y : list complex) :
  length x = length y ->
  array2_sub (mkArray2 1 (map (fun z => [z]) x)) (mkArray2 1 (map (fun z => [z]) y)) =
  Ok (mkArray2 1
        (map (fun i => [csub (nth i x czero) (nth i y czero)])
             (seq 0 (length x)))).
Proof.
  intros H. unfold array2_sub, broadcast_dim. cbn [a2_rows a2_cols].
  rewrite !length_map, <- H, Nat.eqb_refl. cbn [Nat.eqb].
  f_equal. f_equal. apply map_ext_in. intros i Hi. apply in_seq in Hi.
  cbn [seq map]. unfold a2_entry. cbn [a2_rows a2_cols Nat.eqb].
  rewrite !length_map, <- H.
  assert (Hrow : (if Nat.eqb (length x) 1 then 0%nat else i) = i).
  { destruct (Nat.eqb_spec (length x) 1); lia. }
  rewrite Hrow, !nth_column by lia. reflexivity.
Qed.

(** On the columns of one source the curl is computed entry by entry and
    the reshape only drops the unit axis. *)
Lemma face_curl_columns (Sm b : list complex) (omega : float) :
  length Sm = length b ->
  face_curl (mkArray2 1 (map (fun z => [z]) Sm)) omega
    (mkArray2 1 (map (fun z => [z]) b)) =
  Ok (map (fun i =>
             csub (nth i Sm czero)
                  (cmul (cmul imag_unit (of_real omega)) (nth i b czero)))
          (seq 0 (length b))).
Proof.
  intros H. unfold face_curl, array2_scale. cbn [a2_rows a2_cols].
  rewrite map_map. cbn [map].
  rewrite <- (map_map (cmul (cmul imag_unit (of_real omega))) (fun z => [z])).
  rewrite array2_sub_columns by (rewrite length_map; exact H).
  cbn [rbind]. unfold reshape_to_len. cbn [a2_rows a2_cols].
  rewrite length_map, length_seq, Nat.mul_1_r, Nat.eqb_refl.
  rewrite concat_singletons, H. f_equal.
  apply map_ext_in. intros i Hi. apply in_seq in Hi.
  rewrite nth_scaled by lia. reflexivity.
Qed.

Lemma reshape_column (e : list complex) :
  reshape_to_len (mkArray2 1 (map (fun z => [z]) e)) = Ok e.
Proof.
  unfold reshape_to_len. cbn [a2_rows a2_cols].
  rewrite length_map, Nat.mul_1_r, Nat.eqb_refl.
  rewrite (concat_singletons (fun z : complex => z)), map_id. reflexivity.
Qed.

(** C1, amended: on a survey of one source, where the flux-density
    solution, the source term and the electric-field solution are arrays
    of one column and the source term has as many rows as the flux
    density, [estimate_curl_electric_field] computes
    [curl = Sm - 1j*omega*b] entry by entry, cuts from it the first
    [n_faces_x] entries, the next [n_faces_y] and the next [n_faces_z],
    cuts from the electric field the first [n_edges_x] entries, the next
    [n_edges_y] and the next [n_edges_z], and returns six interpolators
    in the order curl_x, curl_y, curl_z, E_x, E_y, E_z: for "rbf" each is
    [Rbf] of the three coordinate columns of its face or edge locations
    and its block, for "linear" [LinearNDInterpolator] and for every
    other name [NearestNDInterpolator] of the locations and the block.
    When the arrays have one row per face and per edge, the three blocks
    of each are consecutive and make up the whole array.  The map is
    passed as [rhoMap] for the parameter "resistivity" and as [sigmaMap]
    otherwise. *)
Theorem estimate_curl_electric_field_blocks
    `{SP : SciPy} `{ML : MeshLib} `{EM : !SimPEG}
    (mesh : Mesh) (survey : Survey) (model_map : InjectActiveCells)
    (model : list float) (interpolation : string) (frequency omega : float)
    (parameter : string) (Sm b e : list complex) :
  let keyword :=
    if String.eqb parameter "resistivity"%string then rhoMap else sigmaMap in
  fields_solution Simulation3DMagneticFluxDensity mesh survey keyword
    model_map model = mkArray2 1 (map (fun z => [z]) b) ->
  fst (getSourceTerm Simulation3DMagneticFluxDensity mesh survey keyword
         model_map frequency) = mkArray2 1 (map (fun z => [z]) Sm) ->
  fields_solution Simulation3DElectricField mesh survey keyword
    model_map model = mkArray2 1 (map (fun z => [z]) e) ->
  length Sm = length b ->
  exists curl,
    length curl = length b
    /\ (forall k, (k < length b)%nat ->
          nth k curl czero =
          csub (nth k Sm czero)
               (cmul (cmul imag_unit (of_real omega)) (nth k b czero)))
    /\ let x_curl := firstn (n_faces_x mesh) curl in
       let y_curl := firstn (n_faces_y mesh) (skipn (n_faces_x mesh) curl) in
       let z_curl :=
         firstn (n_faces_z mesh)
           (skipn (n_faces_x mesh + n_faces_y mesh) curl) in
       let EF_x := firstn (n_edges_x mesh) e in
       let EF_y := firstn (n_edges_y mesh) (skipn (n_edges_x mesh) e) in
       let EF_z :=
         firstn (n_edges_z mesh)
           (skipn (n_edges_x mesh + n_edges_y mesh) e) in
       (length b = (n_faces_x mesh + n_faces_y mesh + n_faces_z mesh)%nat ->
        curl = x_curl ++ y_curl ++ z_curl
        /\ length x_curl = n_faces_x mesh
        /\ length y_curl = n_faces_y mesh
        /\ length z_curl = n_faces_z mesh)
       /\ (length e = (n_edges_x mesh + n_edges_y mesh + n_edges_z mesh)%nat ->
           e = EF_x ++ EF_y ++ EF_z
           /\ length EF_x = n_edges_x mesh
           /\ length EF_y = n_edges_y mesh
           /\ length EF_z = n_edges_z mesh)
       /\ estimate_curl_electric_field mesh survey model_map model
            interpolation frequency omega parameter =
          Ok (if String.eqb interpolation "rbf"%string then
                let rbf (locations : list point) (values : list complex) :=
                  Rbf (map (fun p : point => fst (fst p)) locations)
                      (map (fun p : point => snd (fst p)) locations)
                      (map (fun p : point => snd p) locations) values in
                mkSix (rbf (faces_x mesh) x_curl) (rbf (faces_y mesh) y_curl)
                      (rbf (faces_z mesh) z_curl) (rbf (edges_x mesh) EF_x)
                      (rbf (edges_y mesh) EF_y) (rbf (edges_z mesh) EF_z)
              else if String.eqb interpolation "linear"%string then
                mkSix (LinearNDInterpolator (faces_x mesh) x_curl)
                      (LinearNDInterpolator (faces_y mesh) y_curl)
                      (LinearNDInterpolator (faces_z mesh) z_curl)
                      (LinearNDInterpolator (edges_x mesh) EF_x)
                      (LinearNDInterpolator (edges_y mesh) EF_y)
                      (LinearNDInterpolator (edges_z mesh) EF_z)
              else
                mkSix (NearestNDInterpolator (faces_x mesh) x_curl)
                      (NearestNDInterpolator (faces_y mesh) y_curl)
                      (NearestNDInterpolator (faces_z mesh) z_curl)
                      (NearestNDInterpolator (edges_x mesh) EF_x)
                      (NearestNDInterpolator (edges_y mesh) EF_y)
                      (NearestNDInterpolator (edges_z mesh) EF_z)).
Proof.
  intros keyword Hb HSm He HlSm.
  set (curl := map (fun i =>
                      csub (nth i Sm czero)
                           (cmul (cmul imag_unit (of_real omega)) (nth i b czero)))
                   (seq 0 (length b))).
  assert (Hlen : length curl = length b)
    by (unfold curl; rewrite length_map; apply length_seq).
  exists curl.
  split; [exact Hlen|].
  split.
  { intros k Hk. unfold curl.
    rewrite (nth_indep _ czero
               ((fun i => csub (nth i Sm czero)
                            (cmul (cmul imag_unit (of_real omega))
                               (nth i b czero))) 0%nat))
      by (rewrite length_map, length_seq; exact Hk).
    rewrite (map_nth (fun i => csub (nth i Sm czero)
                                 (cmul (cmul imag_unit (of_real omega))
                                    (nth i b czero)))).
    rewrite seq_nth by exact Hk. reflexivity. }
  cbv zeta.
  assert (Hblocks : forall (A : Type) (l : list A) (x y z : nat),
            slice l 0 x = firstn x l
            /\ slice l x (x + y) = firstn y (skipn x l)
            /\ slice l (x + y) (x + y + z) = firstn z (skipn (x + y) l)).
  { intros A l x y z. unfold slice. rewrite Nat.sub_0_r.
    replace (x + y - x)%nat with y by lia.
    replace (x + y + z - (x + y))%nat with z by lia.
    repeat split. }
  destruct (Hblocks _ curl (n_faces_x mesh) (n_faces_y mesh) (n_faces_z mesh))
    as (Cx & Cy & Cz).
  destruct (Hblocks _ e (n_edges_x mesh) (n_edges_y mesh) (n_edges_z mesh))
    as (Ex & Ey & Ez).
  split; [|split].
  - intros Hlb. rewrite <- Hlen in Hlb.
    destruct (slice_three curl _ _ _ Hlb) as (Hc & Hx & Hy & Hz).
    rewrite Cx, Cy, Cz in *. auto.
  - intros Hle.
    destruct (slice_three e _ _ _ Hle) as (Hc & Hx & Hy & Hz).
    rewrite Ex, Ey, Ez in *. auto.
  - unfold estimate_curl_electric_field, select_keyword.
    fold keyword. rewrite Hb, HSm, He.
    rewrite (face_curl_columns Sm b omega HlSm). fold curl. cbn [rbind].
    rewrite reshape_column. cbn [rbind].
    rewrite Cx, Cy, Cz, Ex, Ey, Ez.
    unfold select_interpolator.
    destruct (String.eqb interpolation "rbf"%string); [reflexivity|].
    destruct (String.eqb interpolation "linear"%string); reflexivity.
Qed.

(** Whenever the difference [Sm - 1j*omega*b] has rows and more than one
    column, or none, the reshape raises and so does the call. *)
Lemma several_columns_raise `{SP : SciPy} `{ML : MeshLib} `{EM : !SimPEG}
    (mesh : Mesh) (survey : Survey) (model_map : InjectActiveCells)
    (model : list float) (interpolation : string) (frequency omega : float)
    (parameter : string) (n k : nat) :
  let keyword :=
    if String.eqb parameter "resistivity"%string then rhoMap else sigmaMap in
  let b := fields_solution Simulation3DMagneticFluxDensity mesh survey keyword
             model_map model in
  let Sm := fst (getSourceTerm Simulation3DMagneticFluxDensity mesh survey
                   keyword model_map frequency) in
  broadcast_dim (length (a2_rows Sm)) (length (a2_rows b)) = Some n ->
  broadcast_dim (a2_cols Sm) (a2_cols b) = Some k ->
  n <> 0%nat -> k <> 1%nat ->
  estimate_curl_electric_field mesh survey model_map model interpolation
    frequency omega parameter = Raise ValueError.
Proof.
  intros keyword b Sm Hn Hk Hn0 Hk1.
  unfold estimate_curl_electric_field, select_keyword, face_curl, array2_sub.
  fold keyword. fold b. fold Sm.
  unfold array2_scale. cbn [a2_rows a2_cols]. rewrite length_map, Hn, Hk.
  cbn [rbind]. unfold reshape_to_len. cbn [a2_rows a2_cols].
  rewrite length_map, length_seq.
  destruct (Nat.eqb_spec (n * k) n) as [E|E]; [|reflexivity].
  exfalso. destruct k as [|[|k]]; [lia | congruence | nia].
Qed.

(** C1, the claim as stated fails: on a survey of two sources the field
    arrays have two columns, [np.reshape(curl, len(curl))] cannot hold
    their entries, and the call raises [ValueError] instead of returning
    six interpolators. *)
Lemma two_sources_raise :
  a2_cols (fields_solution (SimPEG := Toy.simpeg_two_sources)
             Simulation3DMagneticFluxDensity [] tt rhoMap
             (mkInjectActiveCells Toy.meshlib [] [true; true] 1%float)
             [1; 1]%float) = 2%nat
  /\ estimate_curl_electric_field (SP := Toy.scipy)
       (EM := Toy.simpeg_two_sources) []
       tt (mkInjectActiveCells Toy.meshlib [] [true; true] 1%float)
       [1; 1]%float "nearest"%string 1%float 2%float "resistivity"%string
     = Raise ValueError.
Proof. split; vm_compute; reflexivity. Qed.

(** The small instance, one face and one edge per axis, in the
    radial-basis mode: the curl [Sm - 2i*b] is [5-2i, 2, 5-3i], and each
    interpolator is built from one coordinate per axis and one value. *)
Lemma estimate_curl_electric_field_blocks_witness :
  let mesh : Mesh (MeshLib := Toy.meshlib) := [] in
  let model_map := mkInjectActiveCells Toy.meshlib [] [true; true] 1%float in
  exists curl,
    curl = [Cx 5 (-2); Cx 2 0; Cx 5 (-3)]%float
    /\ estimate_curl_electric_field (SP := Toy.scipy)
         (EM := Toy.simpeg Toy.e_moving) mesh tt model_map [1; 1]%float
         "rbf"%string 1%float 2%float "resistivity"%string =
       Ok (mkSix
             (Rbf (SciPy := Toy.scipy) [0%float] [0%float] [0%float]
                (firstn 1 curl))
             (Rbf (SciPy := Toy.scipy) [0%float] [0%float] [0%float]
                (firstn 1 (skipn 1 curl)))
             (Rbf (SciPy := Toy.scipy) [0%float] [0%float] [0%float]
                (firstn 1 (skipn 2 curl)))
             (Rbf (SciPy := Toy.scipy) [0%float] [0%float] [0%float]
                [Cx 100 0])
             (Rbf (SciPy := Toy.scipy) [0%float] [0%float] [0%float]
                [Cx 1 0])
             (Rbf (SciPy := Toy.scipy) [0%float] [0%float] [0%float]
                [Cx 1 0])).
Proof.
  intros mesh model_map.
  destruct (estimate_curl_electric_field_blocks (SP := Toy.scipy)
              (EM := Toy.simpeg Toy.e_moving) mesh tt model_map
              [1; 1]%float "rbf"%string 1%float 2%float
              "resistivity"%string
              [Cx 5 0; Cx 0 0; Cx 1 1]%float [Cx 1 0; Cx 0 1; Cx 2 2]%float
              [Cx 100 0; Cx 1 0; Cx 1 0]%float
              eq_refl eq_refl eq_refl eq_refl)
    as (curl & Hl & Hnth & _ & _ & H).
  exists curl. split.
  - change (length [Cx 1 0; Cx 0 1; Cx 2 2]%float) with 3%nat in Hl, Hnth.
    pose proof (Hnth 0%nat ltac:(lia)) as H0.
    pose proof (Hnth 1%nat ltac:(lia)) as H1.
    pose proof (Hnth 2%nat ltac:(lia)) as H2.
    destruct curl as [|k0 [|k1 [|k2 [|k3 curl]]]]; try discriminate Hl.
    vm_compute in H0, H1, H2. rewrite H0, H1, H2. reflexivity.
  - exact H.
Defined.

(** ** The seafloor routine *)

Import RealisticModel.

Lemma first_selected {A} (ns : list A) (mask : list bool) (z : A) :
  length mask = length ns ->
  (exists rest,
     map fst (List.filter (fun p : A * bool => snd p) (combine ns mask)) = z :: rest)
  <->
  (exists k, nth_error mask k = Some true
             /\ (forall j, (j < k)%nat -> nth_error mask j = Some false)
             /\ nth_error ns k = Some z).
Proof.
  revert mask. induction ns as [|n ns IH]; intros [|b mask] Hlen;
    try discriminate Hlen.
  - simpl. split.
    + intros [rest H]. discriminate H.
    + intros (k & H & _). destruct k; discriminate H.
  - simpl in Hlen. injection Hlen as Hlen. simpl. destruct b; simpl.
    + split.
      * intros [rest H]. injection H as -> _. exists 0%nat.
        repeat split; auto. intros j Hj. lia.
      * intros (k & Hk & Hfirst & Hz). destruct k as [|k].
        -- simpl in Hz. injection Hz as ->. eauto.
        -- specialize (Hfirst 0%nat ltac:(lia)). discriminate Hfirst.
    + rewrite (IH mask Hlen). split.
      * intros (k & Hk & Hfirst & Hz). exists (S k). repeat split; auto.
        intros [|j] Hj; simpl; [reflexivity | apply Hfirst; lia].
      * intros (k & Hk & Hfirst & Hz). destruct k as [|k]; [discriminate Hk|].
        exists k. repeat split; auto.
        intros j Hj. apply (Hfirst (S j)). lia.
Qed.

Lemma nth_error_removelast {A} (l : list A) (k : nat) :
  (k < length (removelast l))%nat ->
  nth_error (removelast l) k = nth_error l k.
Proof.
  revert k. induction l as [|x l IH]; intros k Hk; [reflexivity|].
  destruct l as [|y l]; [simpl in Hk; lia|].
  destruct k as [|k]; [reflexivity|].
  change (removelast (x :: y :: l)) with (x :: removelast (y :: l)) in *.
  change (length (x :: removelast (y :: l)))
    with (S (length (removelast (y :: l)))) in Hk.
  change (nth_error (removelast (y :: l)) k = nth_error (y :: l) k).
  apply IH. lia.
Qed.

(** C9, the claim as stated fails: in a column with nodes at -3, -2, -1
    and 0 whose two upper cells have resistivity 0.3, the highest cell
    below the threshold has its top at 0, and the routine records -2. *)
Lemma seafloor_is_not_the_highest_top :
  let nodes_z := [-3; -2; -1; 0]%float in
  let column := [1; 0.3; 0.3]%float in
  seafloor_as_specified nodes_z column = Some 0%float
  /\ seafloor_of_column nodes_z column = Ok (-2)%float
  /\ PrimFloat.eqb (-2) 0 = false.
Proof. vm_compute. repeat split. Qed.

(** C9, amended: for a column of cells, the routine records [z] exactly
    when the column has one resistivity per cell and [z] is the node
    [nodes_z[k]] below the first cell [k], in index order along z, whose
    x-direction resistivity is below 0.33 (with nodes in ascending order:
    the bottom elevation of the deepest such cell). *)
Theorem seafloor_of_column_first_cell (nodes_z column : list float) (z : float) :
  seafloor_of_column nodes_z column = Ok z
  <->
  (length column = length (drop_last nodes_z)
   /\ exists k rho,
        nth_error column k = Some rho
        /\ lt rho 0.33%float = true
        /\ (forall j r, (j < k)%nat -> nth_error column j = Some r ->
              lt r 0.33%float = false)
        /\ nth_error nodes_z k = Some z).
Proof.
  unfold seafloor_of_column, mask_select, below_threshold.
  rewrite length_map.
  destruct (Nat.eqb_spec (length column) (length (drop_last nodes_z))) as [Hlen|Hlen].
  - simpl.
    pose proof (first_selected (drop_last nodes_z)
                  (map (fun rho => lt rho 0.33%float) column) z
                  ltac:(rewrite length_map; exact Hlen)) as Hfirst.
    split.
    + intros H. split; [exact Hlen|].
      destruct (map fst _) as [|z' rest] eqn:E; [discriminate H|].
      injection H as ->.
      destruct Hfirst as [Hfirst _].
      destruct (Hfirst (ex_intro _ rest eq_refl)) as (k & Hk & Hbefore & Hz).
      rewrite nth_error_map in Hk.
      destruct (nth_error column k) as [rho|] eqn:Erho; [|discriminate Hk].
      simpl in Hk. injection Hk as Hk.
      exists k, rho. repeat split; auto.
      * intros j r Hj Hr. specialize (Hbefore j Hj).
        rewrite nth_error_map, Hr in Hbefore. simpl in Hbefore. congruence.
      * rewrite <- nth_error_removelast; [exact Hz|].
        apply nth_error_Some. unfold drop_last in Hz. congruence.
    + intros (_ & k & rho & Hrho & Hlt & Hbefore & Hz).
      destruct Hfirst as [_ Hfirst].
      destruct Hfirst as [rest ->]; [|reflexivity].
      exists k. repeat split.
      * rewrite nth_error_map, Hrho. simpl. congruence.
      * intros j Hj. rewrite nth_error_map.
        destruct (nth_error column j) as [r|] eqn:Er.
        -- simpl. rewrite (Hbefore j r Hj Er). reflexivity.
        -- apply nth_error_None in Er.
           assert (k < length column)%nat
             by (apply nth_error_Some; congruence). lia.
      * unfold drop_last. rewrite nth_error_removelast; [exact Hz|].
        unfold drop_last in Hlen. rewrite <- Hlen.
        apply nth_error_Some. congruence.
  - simpl. split; [discriminate|]. intros [H _]. contradiction.
Qed.

(** ** iteratornonobject and its model arguments *)

Section NonobjectArguments.

Context `{NP : NumPy} `{ND : NumDiffTools} `{SP : SciPy} `{ML : MeshLib}
  `{EM : !SimPEG}.

Variable a : nonobject_args.
Variables model_map1 model_map2 : InjectActiveCells.
Variables model1 model2 : list float.

Lemma nonobject_init_ignores_model_arguments (s : store) :
  nonobject_init (with_model_arguments a model_map1 model1) s =
  nonobject_init (with_model_arguments a model_map2 model2) s.
Proof. reflexivity. Qed.

Lemma nonobject_body_ignores_model_arguments (fresh : bool) (st : loop_state) :
  nonobject_body (with_model_arguments a model_map1 model1) fresh st =
  nonobject_body (with_model_arguments a model_map2 model2) fresh st.
Proof. reflexivity. Qed.

Lemma while_loop_ext (fuel : nat) (lim : number)
    (body1 body2 : loop_state -> result loop_state) (st : loop_state) :
  (forall st', body1 st' = body2 st') ->
  while_loop fuel lim body1 st = while_loop fuel lim body2 st.
Proof.
  intros Hbody. revert st. induction fuel as [|fuel IH]; intros st; simpl.
  - reflexivity.
  - destruct (loop_condition lim st); [|reflexivity].
    rewrite Hbody. destruct (body2 st) as [st'|e]; [|reflexivity].
    rewrite IH. reflexivity.
Qed.

(** The model map and the model the loop starts from are computed from
    the mesh, whatever the arguments were. *)
Lemma nonobject_init_recomputes (s : store) (st : loop_state) (lim : number)
    (fresh : bool) :
  nonobject_init (with_model_arguments a model_map1 model1) s = Ok (st, lim, fresh) ->
  st_model_map st =
    mkInjectActiveCells _ (no_mesh a) (repeat true (n_cells (no_mesh a)))
      (no_par_inactive a)
  /\ st_model st = no_resistivity_function a (cell_centers (no_mesh a)).
Proof.
  unfold nonobject_init. simpl.
  destruct (starts_fresh (no_diff_list a)) as [[|]|e]; simpl;
    [| destruct (py_float (no_lim_iterations a)); simpl |];
    intros H; inversion H; subst; simpl; auto.
Qed.

(** C10: two calls of [iteratornonobject] that differ only in the
    [model_map] and [model] arguments run the same number of loop bodies
    and return or raise the same, with the same store, for every amount
    of fuel and for the fuel the call itself uses; the loop starts from
    the map built on an all-true mask with fill value [par_inactive] and
    from the model [resistivity_function] gives at the cell centers. *)
Theorem iteratornonobject_ignores_model_arguments (s : store) :
  (forall fuel,
     iteratornonobject_from fuel (with_model_arguments a model_map1 model1) s =
     iteratornonobject_from fuel (with_model_arguments a model_map2 model2) s)
  /\ iteratornonobject (with_model_arguments a model_map1 model1) s =
     iteratornonobject (with_model_arguments a model_map2 model2) s
  /\ (forall st lim fresh,
        nonobject_init (with_model_arguments a model_map1 model1) s =
          Ok (st, lim, fresh) ->
        st_model_map st =
          mkInjectActiveCells _ (no_mesh a) (repeat true (n_cells (no_mesh a)))
            (no_par_inactive a)
        /\ st_model st = no_resistivity_function a (cell_centers (no_mesh a))).
Proof.
  assert (H : forall fuel,
     iteratornonobject_from fuel (with_model_arguments a model_map1 model1) s =
     iteratornonobject_from fuel (with_model_arguments a model_map2 model2) s).
  { intros fuel. unfold iteratornonobject_from.
    rewrite nonobject_init_ignores_model_arguments.
    destruct (nonobject_init _ s) as [[[st0 lim] fresh]|e]; [|reflexivity].
    rewrite (while_loop_ext fuel lim _
               (nonobject_body (with_model_arguments a model_map2 model2) fresh));
      [reflexivity|].
    intros st'. apply nonobject_body_ignores_model_arguments. }
  split; [exact H|]. split; [apply H|].
  intros st lim fresh. apply nonobject_init_recomputes.
Qed.

End NonobjectArguments.

(** ** The loops of iterator and iteratornonobject *)

Ltac bind_inv H :=
  repeat match type of H with
  | rbind ?r _ = Ok _ =>
      let E := fresh "E" in
      destruct r eqn:E; simpl in H; [|discriminate H]
  | match ?p with (_, _) => _ end = Ok _ => destruct p
  | match ?p with mkSix _ _ _ _ _ _ => _ end = Ok _ => destruct p
  end.

Section Loops.

Context `{NP : NumPy} `{ND : NumDiffTools} `{SP : SciPy} `{ML : MeshLib}
  `{EM : !SimPEG}.

(** What a body of [iterator] that does not raise has done. *)
Lemma iterator_body_ok (a : iterator_args) (fresh : bool) (st st' : loop_state) :
  iterator_body a fresh st = Ok st' ->
  let mesh := st_mesh st in
  let area_o := search_area_object mesh (it_objct a) (it_factor_object a) in
  let area_r :=
    search_area_receivers mesh (it_receiver_locations a) (it_factor_receiver a) in
  let area_s :=
    search_area_sources mesh (it_source_locations a) (it_factor_source a) in
  exists s6 cells_o cells_r cells_s s1 s2 lo lr ls,
    estimate_curl_electric_field mesh (it_survey a) (st_model_map st)
      (st_model st) (it_interpolation a) (it_frequency a) (it_omega a)
      (it_parameter a) = Ok s6
    /\ compare_fields fresh st (EF_x_inter s6, EF_y_inter s6, EF_z_inter s6)
         area_o area_r area_s = Ok (st_diff st', st_av_diff_list st')
    /\ estimate_error area_o (curl_x_inter s6) (curl_y_inter s6) (curl_z_inter s6)
         (EF_x_inter s6) (EF_y_inter s6) (EF_z_inter s6) (it_refine_percentage a)
       = Ok cells_o
    /\ list_append (st_store st) (st_first_list st) cells_o = Ok s1
    /\ estimate_error area_r (curl_x_inter s6) (curl_y_inter s6) (curl_z_inter s6)
         (EF_x_inter s6) (EF_y_inter s6) (EF_z_inter s6) (it_refine_percentage a)
       = Ok cells_r
    /\ list_append s1 (st_receivers_list st) cells_r = Ok s2
    /\ estimate_error area_s (curl_x_inter s6) (curl_y_inter s6) (curl_z_inter s6)
         (EF_x_inter s6) (EF_y_inter s6) (EF_z_inter s6) (it_refine_percentage a)
       = Ok cells_s
    /\ list_append s2 (st_sources_list st) cells_s = Ok (st_store st')
    /\ list_read (st_store st') (st_first_list st) = Ok lo
    /\ list_read (st_store st') (st_receivers_list st) = Ok lr
    /\ list_read (st_store st') (st_sources_list st) = Ok ls
    /\ st_mesh st' =
         rebuilt_mesh (it_domain a) (it_cell_width a) (it_objct a)
           (it_source_locations a) (it_receiver_locations a) lo lr ls
    /\ iterator_model_rebuild a (st_mesh st') (st_ind_object st) =
         Ok (st_model_map st', st_model st', st_ind_object st')
    /\ st_i st' = num_succ (st_i st)
    /\ st_ef st' = Some (EF_x_inter s6, EF_y_inter s6, EF_z_inter s6)
    /\ st_ef_old st' =
         Some (Some (EF_x_inter s6), Some (EF_y_inter s6), Some (EF_z_inter s6))
    /\ st_first_list st' = st_first_list st
    /\ st_receivers_list st' = st_receivers_list st
    /\ st_sources_list st' = st_sources_list st.
Proof.
  intros H. unfold iterator_body in H.
  bind_inv H.
  injection H as <-. simpl.
  do 9 eexists. repeat split; try eassumption; try reflexivity.
Qed.

(** What a body of [iteratornonobject] that does not raise has done. *)
Lemma nonobject_body_ok (a : nonobject_args) (fresh : bool) (st st' : loop_state) :
  nonobject_body a fresh st = Ok st' ->
  let mesh := st_mesh st in
  let area_l :=
    search_area_landscape mesh (no_domain a) (no_landscape a)
      (no_factor_landscape a) in
  let area_r :=
    search_area_receivers mesh (no_receiver_locations a) (no_factor_receiver a) in
  let area_s :=
    search_area_sources mesh (no_source_locations a) (no_factor_source a) in
  exists s6 cells_l cells_r cells_s s1 s2 ll lr ls,
    estimate_curl_electric_field mesh (no_survey a) (st_model_map st)
      (st_model st) (no_interpolation a) (no_frequency a) (no_omega a)
      (no_parameter a) = Ok s6
    /\ compare_fields fresh st (EF_x_inter s6, EF_y_inter s6, EF_z_inter s6)
         area_l area_r area_s = Ok (st_diff st', st_av_diff_list st')
    /\ estimate_error area_l (curl_x_inter s6) (curl_y_inter s6) (curl_z_inter s6)
         (EF_x_inter s6) (EF_y_inter s6) (EF_z_inter s6) (no_refine_percentage a)
       = Ok cells_l
    /\ list_append (st_store st) (st_first_list st) cells_l = Ok s1
    /\ estimate_error area_r (curl_x_inter s6) (curl_y_inter s6) (curl_z_inter s6)
         (EF_x_inter s6) (EF_y_inter s6) (EF_z_inter s6) (no_refine_percentage a)
       = Ok cells_r
    /\ list_append s1 (st_receivers_list st) cells_r = Ok s2
    /\ estimate_error area_s (curl_x_inter s6) (curl_y_inter s6) (curl_z_inter s6)
         (EF_x_inter s6) (EF_y_inter s6) (EF_z_inter s6) (no_refine_percentage a)
       = Ok cells_s
    /\ list_append s2 (st_sources_list st) cells_s = Ok (st_store st')
    /\ list_read (st_store st') (st_first_list st) = Ok ll
    /\ list_read (st_store st') (st_receivers_list st) = Ok lr
    /\ list_read (st_store st') (st_sources_list st) = Ok ls
    /\ st_mesh st' =
         rebuilt_mesh (no_domain a) (no_cell_width a) (no_landscape a)
           (no_source_locations a) (no_receiver_locations a) ll lr ls
    /\ nonobject_model_setup a (st_mesh st') = (st_model_map st', st_model st')
    /\ st_i st' = num_succ (st_i st)
    /\ st_ef st' = Some (EF_x_inter s6, EF_y_inter s6, EF_z_inter s6)
    /\ st_ef_old st' =
         Some (Some (EF_x_inter s6), Some (EF_y_inter s6), Some (EF_z_inter s6))
    /\ st_first_list st' = st_first_list st
    /\ st_receivers_list st' = st_receivers_list st
    /\ st_sources_list st' = st_sources_list st.
Proof.
  intros H. unfold nonobject_body in H.
  bind_inv H.
  injection H as <-. simpl.
  do 9 eexists. repeat split; try eassumption; try reflexivity.
Qed.

(** A loop with a measure that every completed body lowers by one, and
    under which the counter has reached the cap once the measure is
    used up, is left after at most that many bodies. *)
Lemma while_loop_measure (lim : number)
    (body : loop_state -> result loop_state) (inv : Z -> loop_state -> Prop) :
  (forall d st, inv d st -> d <= 0 -> num_lt (st_i st) lim = false) ->
  (forall d st st', inv d st -> 0 < d -> body st = Ok st' -> inv (d - 1) st') ->
  forall fuel d st,
    inv d st -> (Z.to_nat d <= fuel)%nat ->
    exists n r,
      while_loop fuel lim body st = Some (n, r) /\ (n <= Z.to_nat d)%nat.
Proof.
  intros Hstop Hstep.
  induction fuel as [|fuel IH]; intros d st Hinv Hfuel; simpl.
  - unfold loop_condition. rewrite (Hstop d st Hinv) by lia.
    rewrite andb_false_r. exists 0%nat, (Ok st). split; [reflexivity | lia].
  - destruct (loop_condition lim st) eqn:Hc.
    + unfold loop_condition in Hc. apply andb_true_iff in Hc as [_ Hc].
      assert (Hd : 0 < d).
      { destruct (Z.lt_ge_cases 0 d) as [L|L]; [exact L|].
        rewrite (Hstop d st Hinv) in Hc by lia. discriminate Hc. }
      destruct (body st) as [st'|e] eqn:Hb.
      * destruct (IH (d - 1) st' (Hstep _ _ _ Hinv Hd Hb)) as (n & r & Hrun & Hn);
          [lia|].
        rewrite Hrun. exists (S n), r. split; [reflexivity | lia].
      * exists 1%nat, (Raise e). split; [reflexivity | lia].
    + exists 0%nat, (Ok st). split; [reflexivity | lia].
Qed.

(** More fuel does not change the outcome of a loop that ended. *)
Lemma while_loop_more_fuel (lim : number) (body : loop_state -> result loop_state)
    (fuel : nat) :
  forall st x, while_loop fuel lim body st = Some x ->
  forall fuel', (fuel <= fuel')%nat -> while_loop fuel' lim body st = Some x.
Proof.
  induction fuel as [|fuel IH]; intros st x H fuel' Hle.
  - simpl in H. destruct (loop_condition lim st) eqn:Hc; [discriminate H|].
    destruct fuel'; simpl; rewrite Hc; exact H.
  - destruct fuel' as [|fuel']; [lia|].
    simpl in *. destruct (loop_condition lim st); [|exact H].
    destruct (body st) as [st'|e]; [|exact H].
    destruct (while_loop fuel lim body st') as [[n r]|] eqn:Hrun;
      [|discriminate H].
    rewrite (IH st' (n, r) Hrun fuel') by lia. exact H.
Qed.

(** A loop that ends without raising ends in a state where the condition
    is false. *)
Lemma while_loop_exit (lim : number) (body : loop_state -> result loop_state)
    (fuel : nat) :
  forall st n st', while_loop fuel lim body st = Some (n, Ok st') ->
  loop_condition lim st' = false.
Proof.
  induction fuel as [|fuel IH]; intros st n st' H; simpl in H.
  - destruct (loop_condition lim st) eqn:Hc; [discriminate H|].
    injection H as _ <-. exact Hc.
  - destruct (loop_condition lim st) eqn:Hc.
    + destruct (body st) as [st1|e]; [|discriminate H].
      destruct (while_loop fuel lim body st1) as [[m r]|] eqn:Hrun;
        [|discriminate H].
      injection H as _ ->. eapply IH, Hrun.
    + injection H as _ <-. exact Hc.
Qed.


(** A loop whose counter is not below the cap is not entered. *)
Lemma while_loop_not_entered (fuel : nat) (lim : number)
    (body : loop_state -> result loop_state) (st : loop_state) :
  num_lt (st_i st) lim = false ->
  while_loop fuel lim body st = Some (0%nat, Ok st).
Proof.
  intros H.
  assert (Hc : loop_condition lim st = false)
    by (unfold loop_condition; rewrite H; apply andb_false_r).
  destruct fuel; simpl; rewrite Hc; reflexivity.
Qed.

(** The outcome of a call whose loop has ended is the same for every
    larger amount of fuel. *)
Lemma call_outcome (lim : number) (body : loop_state -> result loop_state)
    (st0 : loop_state) (fuel0 n : nat) (r : result loop_state) :
  while_loop fuel0 lim body st0 = Some (n, r) ->
  exists out : result (returned * store),
    forall fuel, (fuel0 <= fuel)%nat ->
      match while_loop fuel lim body st0 with
      | None => None
      | Some (n, Raise e) => Some (n, Raise e)
      | Some (n, Ok st) =>
          Some (n, try! r := return_of st in Ok (r, st_store st))
      end = Some (n, out).
Proof.
  intros Hrun. destruct r as [st|e].
  - eexists. intros fuel Hfuel.
    rewrite (while_loop_more_fuel _ _ _ _ _ Hrun fuel Hfuel). reflexivity.
  - eexists. intros fuel Hfuel.
    rewrite (while_loop_more_fuel _ _ _ _ _ Hrun fuel Hfuel). reflexivity.
Qed.

(** The counter of a fresh run: an [int] that starts at 0. *)
Lemma fresh_loop_terminates (L : Z) (body : loop_state -> result loop_state)
    (st0 : loop_state) :
  (forall st st', body st = Ok st' -> st_i st' = num_succ (st_i st)) ->
  st_i st0 = PyInt 0 ->
  exists n r,
    while_loop (Z.to_nat L) (PyInt L) body st0 = Some (n, r)
    /\ Z.of_nat n <= Z.max 0 L.
Proof.
  intros Hstep H0.
  destruct (while_loop_measure (PyInt L) body
              (fun d st => st_i st = PyInt (L - d))) with
      (fuel := Z.to_nat L) (d := L) (st := st0) as (n & r & Hrun & Hn).
  - intros d st Hi Hd. rewrite Hi. simpl. apply Z.ltb_ge. lia.
  - intros d st st' Hi Hd Hb. rewrite (Hstep _ _ Hb), Hi. simpl.
    f_equal. lia.
  - rewrite H0. f_equal. lia.
  - lia.
  - exists n, r. split; [exact Hrun | lia].
Qed.

(** The counter of a resumed run: a float that starts at a whole number
    [k] and, below [2^53], counts exactly. *)
Lemma resumed_loop_terminates (L k : Z)
    (body : loop_state -> result loop_state) (st0 : loop_state) :
  (forall st st', body st = Ok st' -> st_i st' = num_succ (st_i st)) ->
  0 <= k -> k + Z.max 0 L <= 2 ^ 53 ->
  st_i st0 = Float64 (float_of_Z k) ->
  exists n r,
    while_loop (Z.to_nat L)
      (Float64 (float_of_Z L + float_of_Z k)%float) body st0 = Some (n, r)
    /\ Z.of_nat n <= Z.max 0 L.
Proof.
  intros Hstep Hk Hsum H0.
  destruct (Z.le_gt_cases L 0) as [Hneg|Hpos].
  - exists 0%nat, (Ok st0). split; [|lia].
    apply while_loop_not_entered. rewrite H0. simpl.
    apply add_nonpos_not_above, float_of_Z_nonpos, Hneg.
  - rewrite float_of_Z_add by lia.
    destruct (while_loop_measure (Float64 (float_of_Z (L + k))) body
                (fun d st => 0 <= d <= L
                             /\ st_i st = Float64 (float_of_Z (k + L - d)))) with
        (fuel := Z.to_nat L) (d := L) (st := st0) as (n & r & Hrun & Hn).
    + intros d st [Hd Hi] Hd0. rewrite Hi. simpl.
      rewrite float_of_Z_ltb by lia. apply Z.ltb_ge. lia.
    + intros d st st' [Hd Hi] Hd0 Hb. split; [lia|].
      rewrite (Hstep _ _ Hb), Hi. simpl. f_equal.
      rewrite <- float_of_Z_one, float_of_Z_add by lia. f_equal. lia.
    + split; [lia|]. rewrite H0. f_equal. f_equal. lia.
    + lia.
    + exists n, r. split; [exact Hrun | lia].
Qed.

End Loops.

Section IteratorTermination.

Context `{NP : NumPy} `{ND : NumDiffTools} `{SP : SciPy} `{ML : MeshLib}
  `{EM : !SimPEG}.

Lemma iterator_init_ok (a : iterator_args) (s : store) (st0 : loop_state)
    (lim : number) (fresh : bool) :
  iterator_init a s = Ok (st0, lim, fresh) ->
  starts_fresh (it_diff_list a) = Ok fresh
  /\ st_diff st0 = 10%float
  /\ st_mesh st0 = it_mesh a
  /\ st_ef st0 = None
  /\ (if fresh
      then st_i st0 = PyInt 0 /\ lim = PyInt (it_lim_iterations a)
           /\ st_av_diff_list st0 = []
           /\ st_first_list st0 = Some (next_loc s)
           /\ st_receivers_list st0 = Some (S (next_loc s))
           /\ st_sources_list st0 = Some (S (S (next_loc s)))
      else st_i st0 = Float64 (fst (List.last (it_diff_list a) (0, 0)%float))
           /\ lim = Float64 (float_of_Z (it_lim_iterations a)
                             + fst (List.last (it_diff_list a) (0, 0)%float))
           /\ st_av_diff_list st0 = record_rows (it_diff_list a)
           /\ st_first_list st0 = it_r_a_o_list a
           /\ st_receivers_list st0 = it_r_a_r_list a
           /\ st_sources_list st0 = it_r_a_s_list a
           /\ st_ef_old st0 = Some (it_Ex a, it_Ey a, it_Ez a)
           /\ st_store st0 = s).
Proof.
  unfold iterator_init. intros H.
  destruct (iterator_model_setup a (it_mesh a)) as [[[mm m] io]|e];
    simpl in H; [|discriminate H].
  destruct (starts_fresh (it_diff_list a)) as [[|]|e]; simpl in H;
    [| |discriminate H].
  - injection H as <- <- <-; simpl; repeat split.
  - unfold py_float in H.
    destruct (PrimFloat.is_infinity (float_of_Z (it_lim_iterations a)));
      simpl in H; [discriminate H|].
    injection H as <- <- <-; simpl; repeat split.
Qed.




End IteratorTermination.



(** ** Exit of the loop and shape of the return value *)

Section LoopExit.

Context `{ML : MeshLib}.

(** The loop is left exactly when the difference is not above 0.01 or the
    counter is not below the cap. *)
Lemma loop_condition_false (lim : number) (st : loop_state) :
  loop_condition lim st = false <->
  gt (st_diff st) 0.01%float = false \/ num_lt (st_i st) lim = false.
Proof.
  unfold loop_condition. rewrite andb_false_iff. reflexivity.
Qed.

(** The form of the return value follows the test [diff < 0.01]. *)
Lemma return_of_shape (st : loop_state) (r : returned) :
  return_of st = Ok r ->
  match r with
  | Short _ _ _ _ _ => lt (st_diff st) 0.01%float = true
  | Long _ _ _ _ _ _ _ _ => lt (st_diff st) 0.01%float = false
  end.
Proof.
  unfold return_of. destruct (st_ef st) as [[[ex ey] ez]|]; [|discriminate].
  destruct (lt (st_diff st) 0.01%float) eqn:E; intros H; injection H as <-;
    reflexivity.
Qed.

Context `{NP : NumPy} `{ND : NumDiffTools} `{SP : SciPy} `{EM : !SimPEG}.

(** A call of [iterator] that returns has left its loop in a state where
    the difference is not above 0.01 or the counter is not below the cap, and
    returns the short form exactly when that difference is below 0.01. *)
Lemma iterator_exit_and_return (fuel : nat) (a : iterator_args) (s s' : store)
    (n : nat) (r : returned) :
  iterator_from fuel a s = Some (n, Ok (r, s')) ->
  exists st0 lim fresh st,
    iterator_init a s = Ok (st0, lim, fresh)
    /\ while_loop fuel lim (iterator_body a fresh) st0 = Some (n, Ok st)
    /\ (gt (st_diff st) 0.01%float = false \/ num_lt (st_i st) lim = false)
    /\ match r with
       | Short _ _ _ _ _ => lt (st_diff st) 0.01%float = true
       | Long _ _ _ _ _ _ _ _ => lt (st_diff st) 0.01%float = false
       end.
Proof.
  unfold iterator_from.
  destruct (iterator_init a s) as [[[st0 lim] fresh]|e]; [|discriminate].
  destruct (while_loop fuel lim (iterator_body a fresh) st0)
    as [[m [st|e]]|] eqn:Hrun; try discriminate.
  intros H. injection H as <- H.
  destruct (return_of st) as [r'|e] eqn:Hret; [|discriminate H].
  simpl in H. injection H as <- <-.
  exists st0, lim, fresh, st. split; [reflexivity|]. split; [exact Hrun|].
  split.
  - apply loop_condition_false. eapply while_loop_exit, Hrun.
  - apply return_of_shape, Hret.
Qed.

(** A call of [iteratornonobject] that returns has left its loop in a
    state where the difference is not above 0.01 or the counter is not
    below the cap, and returns the short form exactly when that
    difference is below 0.01. *)
Lemma iteratornonobject_exit_and_return (fuel : nat) (a : nonobject_args)
    (s s' : store) (n : nat) (r : returned) :
  iteratornonobject_from fuel a s = Some (n, Ok (r, s')) ->
  exists st0 lim fresh st,
    nonobject_init a s = Ok (st0, lim, fresh)
    /\ while_loop fuel lim (nonobject_body a fresh) st0 = Some (n, Ok st)
    /\ (gt (st_diff st) 0.01%float = false \/ num_lt (st_i st) lim = false)
    /\ match r with
       | Short _ _ _ _ _ => lt (st_diff st) 0.01%float = true
       | Long _ _ _ _ _ _ _ _ => lt (st_diff st) 0.01%float = false
       end.
Proof.
  unfold iteratornonobject_from.
  destruct (nonobject_init a s) as [[[st0 lim] fresh]|e]; [|discriminate].
  destruct (while_loop fuel lim (nonobject_body a fresh) st0)
    as [[m [st|e]]|] eqn:Hrun; try discriminate.
  intros H. injection H as <- H.
  destruct (return_of st) as [r'|e] eqn:Hret; [|discriminate H].
  simpl in H. injection H as <- <-.
  exists st0, lim, fresh, st. split; [reflexivity|]. split; [exact Hrun|].
  split.
  - apply loop_condition_false. eapply while_loop_exit, Hrun.
  - apply return_of_shape, Hret.
Qed.

End LoopExit.

(** C3, on a concrete run: a fresh run of [iterator] with cap 5 whose
    field moves by one percent leaves the loop after two bodies with an
    average relative difference of exactly 0.01, which is at or under
    0.01, and returns the long form with the three history lists, because
    the return tests [diff < 0.01]. *)
Theorem iterator_long_form_at_threshold :
  match iterator (NP := Toy.numpy) (ND := Toy.numdiff) (SP := Toy.scipy)
          (EM := Toy.simpeg Toy.e_one_percent)
          (Toy.fresh_args Toy.e_one_percent 5) Toy.empty_store with
  | Some (n, Ok (Long _ _ _ _ av_diff _ _ _, _)) =>
      n = 2%nat
      /\ av_diff = [(2%float, 0.01%float)]
      /\ PrimFloat.leb 0.01 0.01 = true
      /\ gt 0.01 0.01 = false
  | _ => False
  end.
Proof. vm_compute. repeat split. Qed.

(** ** The convergence record *)

Section ConvergenceRecord.

Context `{NP : NumPy} `{ND : NumDiffTools} `{SP : SciPy} `{ML : MeshLib}
  `{EM : !SimPEG}.

Lemma relative_differences_ok
    (ef_old : option (option interpolator * option interpolator * option interpolator))
    (ef : interp3) (cells : list point) (ds : list float) :
  relative_differences ef_old ef cells = Ok ds ->
  Forall2 (fun cell d => relative_difference_at ef_old ef cell = Ok d) cells ds.
Proof.
  revert ds. induction cells as [|cell cells IH]; intros ds H; simpl in H.
  - injection H as <-. constructor.
  - bind_inv H. injection H as <-. constructor; auto.
Qed.

Lemma compare_fields_ok (fresh : bool) (st : loop_state) (ef : interp3)
    (area1 area2 area3 : list point) (diff : float)
    (av : list (number * float)) :
  compare_fields fresh st ef area1 area2 area3 = Ok (diff, av) ->
  if fresh && negb (num_lt (PyInt 0) (st_i st))
  then diff = st_diff st /\ av = st_av_diff_list st
  else exists ds,
         Forall2 (fun cell d => relative_difference_at (st_ef_old st) ef cell = Ok d)
           (area1 ++ area2 ++ area3) ds
         /\ ds <> []
         /\ diff = (py_sum ds / float_of_nat (length ds))%float
         /\ av = st_av_diff_list st ++ [(num_succ (st_i st), diff)].
Proof.
  unfold compare_fields, average_relative_difference.
  destruct (fresh && negb (num_lt (PyInt 0) (st_i st))).
  - intros H. injection H as <- <-. auto.
  - destruct (relative_differences (st_ef_old st) ef (area1 ++ area2 ++ area3))
      as [ds|e] eqn:Hds; simpl; [|discriminate].
    apply relative_differences_ok in Hds.
    destruct ds as [|d ds]; simpl; [discriminate|].
    intros H. injection H as <- <-.
    exists (d :: ds). repeat split; auto.
Qed.

(** C6, amended: a loop body of [iterator] that completes appends to the
    convergence record exactly one pair, except in a fresh run while the
    counter [i] is not above 0 (the first iteration), where it appends
    nothing.  The pair holds [i + 1], the 1-based number of the
    iteration, and the average (the left-to-right sum divided by the
    count), over all points of the three search areas taken together in
    the order object, receivers, sources, of the per-point norm of the
    moduli of the elementwise quotient, as numpy's complex division
    gives it, of the difference between the previous and the current
    electric field by the previous one, the current field being the
    three electric-field interpolators [estimate_curl_electric_field]
    returned in this body. *)
Theorem iterator_body_record (a : iterator_args) (fresh : bool)
    (st st' : loop_state) :
  iterator_body a fresh st = Ok st' ->
  let mesh := st_mesh st in
  let points :=
    search_area_object mesh (it_objct a) (it_factor_object a)
    ++ search_area_receivers mesh (it_receiver_locations a) (it_factor_receiver a)
    ++ search_area_sources mesh (it_source_locations a) (it_factor_source a) in
  if fresh && negb (num_lt (PyInt 0) (st_i st))
  then st_av_diff_list st' = st_av_diff_list st
  else exists s6 norms,
         estimate_curl_electric_field mesh (it_survey a) (st_model_map st)
           (st_model st) (it_interpolation a) (it_frequency a) (it_omega a)
           (it_parameter a) = Ok s6
         /\ Forall2
              (fun cell d =>
                 exists old,
                   ef_old_interpolator (st_ef_old st) cell = Ok old
                   /\ d = norm_real
                            (vmap (fun z => npy_hypot (re z) (im z))
                               (vzip cdiv
                                  (vzip csub old
                                     (V3 (EF_x_inter s6 cell)
                                         (EF_y_inter s6 cell)
                                         (EF_z_inter s6 cell)))
                                  old)))
              points norms
         /\ norms <> []
         /\ st_av_diff_list st' =
            st_av_diff_list st
            ++ [(num_succ (st_i st),
                 (fold_left PrimFloat.add norms 0 / float_of_nat (length norms))%float)].
Proof.
  intros H mesh points. apply iterator_body_ok in H.
  destruct H as (s6 & co & cr & cs & s1 & s2 & lo & lr & ls
                 & Hs6 & Hcmp & _).
  apply compare_fields_ok in Hcmp.
  destruct (fresh && negb (num_lt (PyInt 0) (st_i st))).
  - apply Hcmp.
  - destruct Hcmp as (ds & Hall & Hne & Hdiff & Hav).
    exists s6, ds.
    split; [exact Hs6|]. split.
    + eapply Forall2_impl; [exact Hall|].
      intros cell d Hd. unfold relative_difference_at in Hd.
      bind_inv Hd. injection Hd as <-. eauto.
    + split; [exact Hne|]. rewrite Hav, Hdiff. reflexivity.
Qed.

End ConvergenceRecord.

(** Against a previous field that is zero the quotient is a division by
    a complex zero, which numpy answers with an infinite real part, and
    the difference at the point is infinite, not NaN. *)
Lemma difference_from_zero_field :
  relative_difference_at (NP := Toy.numpy)
    (Some (Some (fun _ => czero), Some (fun _ => czero), Some (fun _ => czero)))
    (fun _ => of_real 1, fun _ => of_real 1, fun _ => of_real 1) Toy.origin
  = Ok infinity.
Proof. vm_compute. reflexivity. Qed.

(** C6, the claim as stated fails: a fresh run with cap 1 executes one
    loop body and returns an empty convergence record. *)
Lemma first_iteration_records_nothing :
  match iterator (NP := Toy.numpy) (ND := Toy.numdiff) (SP := Toy.scipy)
          (EM := Toy.simpeg Toy.e_moving)
          (Toy.fresh_args Toy.e_moving 1) Toy.empty_store with
  | Some (n, Ok (Long _ _ _ _ av_diff _ _ _, _)) => n = 1%nat /\ av_diff = []
  | _ => False
  end.
Proof. vm_compute. split; reflexivity. Qed.

(** The third body of a fresh run on the small instance, where the field
    moves from 105 to 108 on the x-edges: four points are compared, and
    the pair numbered 3 joins the record with the difference
    [3 * (1 / 105)], as numpy's division leaves it. *)
Lemma iterator_body_record_witness :
  let st := Toy.get_state (Toy.state_after Toy.e_moving 5 2) in
  let st' := Toy.get_state (Toy.state_after Toy.e_moving 5 3) in
  exists norms,
    length norms = 4%nat
    /\ st_av_diff_list st' =
       st_av_diff_list st
       ++ [(PyInt 3, (fold_left PrimFloat.add norms 0 / 4)%float)]
    /\ st_av_diff_list st' =
       [(PyInt 2, 0.050000000000000003%float);
        (PyInt 3, 0.028571428571428574%float)].
Proof.
  intros st st'.
  assert (Hbody : iterator_body (NP := Toy.numpy) (ND := Toy.numdiff)
                    (SP := Toy.scipy) (EM := Toy.simpeg Toy.e_moving)
                    (Toy.fresh_args Toy.e_moving 5) true st = Ok st')
    by (vm_compute; reflexivity).
  pose proof (iterator_body_record (NP := Toy.numpy) (ND := Toy.numdiff)
                (SP := Toy.scipy) (EM := Toy.simpeg Toy.e_moving)
                (Toy.fresh_args Toy.e_moving 5) true st st' Hbody) as H.
  cbv zeta in H.
  change (true && negb (num_lt (PyInt 0) (st_i st))) with false in H.
  destruct H as (s6 & norms & _ & Hall & _ & H).
  apply Forall2_length in Hall.
  change (length _ = length norms) with (4%nat = length norms) in Hall.
  exists norms. split; [symmetry; exact Hall|]. split.
  - rewrite H, <- Hall. reflexivity.
  - vm_compute. reflexivity.
Defined.

(** ** The refinement history *)

Lemma list_append_ok (s : store) (l : option nat) (x : list point) (s' : store) :
  list_append s l x = Ok s' ->
  exists r xs, l = Some r /\ lists s !! r = Some xs
               /\ lists s' = <[r := xs ++ [x]]> (lists s).
Proof.
  unfold list_append. destruct l as [r|]; [|discriminate].
  destruct (lists s !! r) as [xs|] eqn:E; [|discriminate].
  intros H. injection H as <-. exists r, xs. auto.
Qed.

Lemma list_read_ok (s : store) (l : option nat) (xs : list (list point)) :
  list_read s l = Ok xs -> exists r, l = Some r /\ lists s !! r = Some xs.
Proof.
  unfold list_read. destruct l as [r|]; [|discriminate].
  destruct (lists s !! r) as [ys|] eqn:E; [|discriminate].
  intros H. injection H as <-. eauto.
Qed.

(** Three appends to three different lists: each list gains its entry and
    nothing else in the store changes. *)
Lemma three_appends (s0 s1 s2 s3 : store) (r1 r2 r3 : nat)
    (c1 c2 c3 : list point) :
  r1 <> r2 -> r1 <> r3 -> r2 <> r3 ->
  list_append s0 (Some r1) c1 = Ok s1 ->
  list_append s1 (Some r2) c2 = Ok s2 ->
  list_append s2 (Some r3) c3 = Ok s3 ->
  exists o1 o2 o3,
    lists s0 !! r1 = Some o1 /\ lists s0 !! r2 = Some o2
    /\ lists s0 !! r3 = Some o3
    /\ lists s3 !! r1 = Some (o1 ++ [c1])
    /\ lists s3 !! r2 = Some (o2 ++ [c2])
    /\ lists s3 !! r3 = Some (o3 ++ [c3])
    /\ forall r, r <> r1 -> r <> r2 -> r <> r3 -> lists s3 !! r = lists s0 !! r.
Proof.
  intros H12 H13 H23 A1 A2 A3.
  apply list_append_ok in A1 as (r1' & o1 & [= <-] & L1 & S1).
  apply list_append_ok in A2 as (r2' & o2 & [= <-] & L2 & S2).
  apply list_append_ok in A3 as (r3' & o3 & [= <-] & L3 & S3).
  rewrite S2, lookup_insert_ne, S1, lookup_insert_ne in L3 by congruence.
  rewrite S1, lookup_insert_ne in L2 by congruence.
  exists o1, o2, o3. rewrite S3, S2, S1. repeat split; auto.
  - rewrite !lookup_insert_ne by congruence. apply lookup_insert_eq.
  - rewrite lookup_insert_ne by congruence. apply lookup_insert_eq.
  - apply lookup_insert_eq.
  - intros r N1 N2 N3. rewrite !lookup_insert_ne by congruence. reflexivity.
Qed.

Section RefinementHistory.

Context `{NP : NumPy} `{ND : NumDiffTools} `{SP : SciPy} `{ML : MeshLib}
  `{EM : !SimPEG}.

(** C7, amended: when the three history lists are three different list
    objects (as they are in every fresh run, which creates them), a loop
    body of [iterator] or of [iteratornonobject] that completes appends
    exactly one entry to each of them, the cells [estimate_error] selected
    in the corresponding search area from the fields of this body, and
    leaves the mesh obtained from a new [create_octree_mesh] by one call
    of [refine_at_locations] for the source locations, one for the
    receiver locations, and then one for every entry, oldest first and
    the new entry last, of the first list, of the receivers list and of
    the sources list, in that order, followed by [finalize]. *)
Theorem history_grows_and_is_replayed :
  (forall (a : iterator_args) (fresh : bool) (st st' : loop_state)
          (r1 r2 r3 : nat),
     st_first_list st = Some r1 -> st_receivers_list st = Some r2 ->
     st_sources_list st = Some r3 ->
     r1 <> r2 -> r1 <> r3 -> r2 <> r3 ->
     iterator_body a fresh st = Ok st' ->
     exists s6 o1 o2 o3 c1 c2 c3,
       estimate_error
         (search_area_object (st_mesh st) (it_objct a) (it_factor_object a))
         (curl_x_inter s6) (curl_y_inter s6) (curl_z_inter s6)
         (EF_x_inter s6) (EF_y_inter s6) (EF_z_inter s6)
         (it_refine_percentage a) = Ok c1
       /\ estimate_error
            (search_area_receivers (st_mesh st) (it_receiver_locations a)
               (it_factor_receiver a))
            (curl_x_inter s6) (curl_y_inter s6) (curl_z_inter s6)
            (EF_x_inter s6) (EF_y_inter s6) (EF_z_inter s6)
            (it_refine_percentage a) = Ok c2
       /\ estimate_error
            (search_area_sources (st_mesh st) (it_source_locations a)
               (it_factor_source a))
            (curl_x_inter s6) (curl_y_inter s6) (curl_z_inter s6)
            (EF_x_inter s6) (EF_y_inter s6) (EF_z_inter s6)
            (it_refine_percentage a) = Ok c3
       /\ lists (st_store st) !! r1 = Some o1
       /\ lists (st_store st) !! r2 = Some o2
       /\ lists (st_store st) !! r3 = Some o3
       /\ lists (st_store st') !! r1 = Some (o1 ++ [c1])
       /\ lists (st_store st') !! r2 = Some (o2 ++ [c2])
       /\ lists (st_store st') !! r3 = Some (o3 ++ [c3])
       /\ st_first_list st' = Some r1 /\ st_receivers_list st' = Some r2
       /\ st_sources_list st' = Some r3
       /\ st_mesh st' =
          finalize
            (fold_left refine_at_locations (o3 ++ [c3])
               (fold_left refine_at_locations (o2 ++ [c2])
                  (fold_left refine_at_locations (o1 ++ [c1])
                     (refine_at_locations
                        (refine_at_locations
                           (create_octree_mesh (it_domain a) (it_cell_width a)
                              (it_objct a) "surface"%string)
                           (it_source_locations a))
                        (it_receiver_locations a))))))
  /\
  (forall (a : nonobject_args) (fresh : bool) (st st' : loop_state)
          (r1 r2 r3 : nat),
     st_first_list st = Some r1 -> st_receivers_list st = Some r2 ->
     st_sources_list st = Some r3 ->
     r1 <> r2 -> r1 <> r3 -> r2 <> r3 ->
     nonobject_body a fresh st = Ok st' ->
     exists s6 o1 o2 o3 c1 c2 c3,
       estimate_error
         (search_area_landscape (st_mesh st) (no_domain a) (no_landscape a)
            (no_factor_landscape a))
         (curl_x_inter s6) (curl_y_inter s6) (curl_z_inter s6)
         (EF_x_inter s6) (EF_y_inter s6) (EF_z_inter s6)
         (no_refine_percentage a) = Ok c1
       /\ estimate_error
            (search_area_receivers (st_mesh st) (no_receiver_locations a)
               (no_factor_receiver a))
            (curl_x_inter s6) (curl_y_inter s6) (curl_z_inter s6)
            (EF_x_inter s6) (EF_y_inter s6) (EF_z_inter s6)
            (no_refine_percentage a) = Ok c2
       /\ estimate_error
            (search_area_sources (st_mesh st) (no_source_locations a)
               (no_factor_source a))
            (curl_x_inter s6) (curl_y_inter s6) (curl_z_inter s6)
            (EF_x_inter s6) (EF_y_inter s6) (EF_z_inter s6)
            (no_refine_percentage a) = Ok c3
       /\ lists (st_store st) !! r1 = Some o1
       /\ lists (st_store st) !! r2 = Some o2
       /\ lists (st_store st) !! r3 = Some o3
       /\ lists (st_store st') !! r1 = Some (o1 ++ [c1])
       /\ lists (st_store st') !! r2 = Some (o2 ++ [c2])
       /\ lists (st_store st') !! r3 = Some (o3 ++ [c3])
       /\ st_first_list st' = Some r1 /\ st_receivers_list st' = Some r2
       /\ st_sources_list st' = Some r3
       /\ st_mesh st' =
          finalize
            (fold_left refine_at_locations (o3 ++ [c3])
               (fold_left refine_at_locations (o2 ++ [c2])
                  (fold_left refine_at_locations (o1 ++ [c1])
                     (refine_at_locations
                        (refine_at_locations
                           (create_octree_mesh (no_domain a) (no_cell_width a)
                              (no_landscape a) "surface"%string)
                           (no_source_locations a))
                        (no_receiver_locations a)))))).
Proof.
  split.
  - intros a fresh st st' r1 r2 r3 R1 R2 R3 N12 N13 N23 H.
    apply iterator_body_ok in H.
    destruct H as (s6 & c1 & c2 & c3 & s1 & s2 & lo & lr & ls
                   & _ & _ & E1 & A1 & E2 & A2 & E3 & A3 & L1 & L2 & L3
                   & Hmesh & _ & _ & _ & _ & F1 & F2 & F3).
    rewrite R1 in *. rewrite R2 in *. rewrite R3 in *.
    destruct (three_appends _ _ _ _ _ _ _ _ _ _ N12 N13 N23 A1 A2 A3)
      as (o1 & o2 & o3 & O1 & O2 & O3 & P1 & P2 & P3 & _).
    apply list_read_ok in L1 as (? & [= <-] & L1).
    apply list_read_ok in L2 as (? & [= <-] & L2).
    apply list_read_ok in L3 as (? & [= <-] & L3).
    rewrite P1 in L1. rewrite P2 in L2. rewrite P3 in L3.
    injection L1 as <-. injection L2 as <-. injection L3 as <-.
    exists s6, o1, o2, o3, c1, c2, c3.
    repeat (split; [assumption|]). exact Hmesh.
  - intros a fresh st st' r1 r2 r3 R1 R2 R3 N12 N13 N23 H.
    apply nonobject_body_ok in H.
    destruct H as (s6 & c1 & c2 & c3 & s1 & s2 & lo & lr & ls
                   & _ & _ & E1 & A1 & E2 & A2 & E3 & A3 & L1 & L2 & L3
                   & Hmesh & _ & _ & _ & _ & F1 & F2 & F3).
    rewrite R1 in *. rewrite R2 in *. rewrite R3 in *.
    destruct (three_appends _ _ _ _ _ _ _ _ _ _ N12 N13 N23 A1 A2 A3)
      as (o1 & o2 & o3 & O1 & O2 & O3 & P1 & P2 & P3 & _).
    apply list_read_ok in L1 as (? & [= <-] & L1).
    apply list_read_ok in L2 as (? & [= <-] & L2).
    apply list_read_ok in L3 as (? & [= <-] & L3).
    rewrite P1 in L1. rewrite P2 in L2. rewrite P3 in L3.
    injection L1 as <-. injection L2 as <-. injection L3 as <-.
    exists s6, o1, o2, o3, c1, c2, c3.
    repeat (split; [assumption|]). exact Hmesh.
Qed.

End RefinementHistory.

(** C7, the claim as stated fails: a resumed call that was handed one
    list as all three histories runs one loop body, and the list has
    gained three entries. *)
Lemma shared_history_list_gains_three :
  lists Toy.one_list_store !! 0%nat = Some []
  /\ match iterator (NP := Toy.numpy) (ND := Toy.numdiff) (SP := Toy.scipy)
             (EM := Toy.simpeg Toy.e_moving)
             Toy.shared_list_args Toy.one_list_store with
     | Some (n, Ok (Long _ _ _ _ _ l1 l2 l3, s)) =>
         n = 1%nat
         /\ (l1, l2, l3) = (Some 0%nat, Some 0%nat, Some 0%nat)
         /\ option_map (@length _) (lists s !! 0%nat) = Some 3%nat
     | _ => False
     end.
Proof. vm_compute. repeat split. Qed.

(** The second body of a fresh run on the small instance: each list
    gains its second entry, and the mesh, which on this instance is the
    list of the refinement requests it received, shows the replay: the
    sources, the receivers, then the two entries of each list. *)
Lemma history_grows_and_is_replayed_witness :
  let st := Toy.get_state (Toy.state_after Toy.e_moving 5 1) in
  let st' := Toy.get_state (Toy.state_after Toy.e_moving 5 2) in
  exists o1 o2 o3 c1 c2 c3,
    lists (st_store st) !! 0%nat = Some o1
    /\ lists (st_store st') !! 0%nat = Some (o1 ++ [c1])
    /\ lists (st_store st') !! 1%nat = Some (o2 ++ [c2])
    /\ lists (st_store st') !! 2%nat = Some (o3 ++ [c3])
    /\ length o1 = 1%nat
    /\ st_mesh st' =
       ([[Toy.origin]; [Toy.origin]] ++ (o1 ++ [c1])) ++ (o2 ++ [c2])
       ++ (o3 ++ [c3]).
Proof.
  intros st st'.
  assert (R1 : st_first_list st = Some 0%nat) by (vm_compute; reflexivity).
  assert (R2 : st_receivers_list st = Some 1%nat) by (vm_compute; reflexivity).
  assert (R3 : st_sources_list st = Some 2%nat) by (vm_compute; reflexivity).
  assert (Hbody : iterator_body (NP := Toy.numpy) (ND := Toy.numdiff)
                    (SP := Toy.scipy) (EM := Toy.simpeg Toy.e_moving)
                    (Toy.fresh_args Toy.e_moving 5) true st = Ok st')
    by (vm_compute; reflexivity).
  assert (N01 : 0%nat <> 1%nat) by discriminate.
  assert (N02 : 0%nat <> 2%nat) by discriminate.
  assert (N12 : 1%nat <> 2%nat) by discriminate.
  destruct (proj1 (history_grows_and_is_replayed (NP := Toy.numpy)
                     (ND := Toy.numdiff) (SP := Toy.scipy)
                     (EM := Toy.simpeg Toy.e_moving))
              (Toy.fresh_args Toy.e_moving 5) true st st' 0%nat 1%nat 2%nat
              R1 R2 R3 N01 N02 N12 Hbody)
    as (s6 & o1 & o2 & o3 & c1 & c2 & c3 & _ & _ & _ & O1 & _ & _
        & P1 & P2 & P3 & _ & _ & _ & Hmesh).
  exists o1, o2, o3, c1, c2, c3.
  split; [exact O1|]. split; [exact P1|]. split; [exact P2|].
  split; [exact P3|]. split.
  - vm_compute in O1. injection O1 as <-. reflexivity.
  - rewrite Hmesh. cbn [finalize create_octree_mesh refine_at_locations
                        Toy.meshlib it_domain it_cell_width it_objct
                        it_source_locations it_receiver_locations].
    clear. generalize (o1 ++ [c1]) (o2 ++ [c2]) (o3 ++ [c3]).
    intros l1 l2 l3.
    assert (F : forall (l m : list (list point)),
              fold_left (fun (m0 : list (list point)) pts => m0 ++ [pts]) l m
              = m ++ l).
    { induction l as [|x l IH]; intros m; simpl.
      - rewrite app_nil_r. reflexivity.
      - rewrite IH, <- app_assoc. reflexivity. }
    unfold Toy.fresh_args, Toy.args. cbn.
    rewrite !F, <- !app_assoc. reflexivity.
Defined.

(** ** The model after a mesh rebuild *)

Lemma mask_assign_ok (a : list float) (mask : list bool) (v : float)
    (m : list float) :
  mask_assign a mask v = Ok m ->
  length mask = length a /\ length m = length a
  /\ forall k, (k < length a)%nat ->
       nth k m 0%float = if nth k mask false then v else nth k a 0%float.
Proof.
  unfold mask_assign.
  destruct (Nat.eqb_spec (length mask) (length a)) as [Hlen|]; [|discriminate].
  intros H. injection H as <-. split; [exact Hlen|]. split.
  - rewrite length_map, length_combine. lia.
  - intros k Hk.
    rewrite (nth_indep _ 0%float
               ((fun p : float * bool => if snd p then v else fst p)
                  (0%float, false)))
      by (rewrite length_map, length_combine; lia).
    rewrite (map_nth (fun p : float * bool => if snd p then v else fst p)).
    rewrite combine_nth by lia. reflexivity.
Qed.

Section ModelRebuild.

Context `{NP : NumPy} `{ND : NumDiffTools} `{SP : SciPy} `{ML : MeshLib}
  `{EM : !SimPEG}.

(** After a rebuild the model has one entry per active cell, the object
    value where the indicator in use is set and the background value
    elsewhere; for a block, the indicator in use is the one
    [get_ind_block] computes without the caller's [axis] and
    [degrees_rad]. *)
Lemma iterator_model_rebuild_ok (a : iterator_args) (mesh : Mesh)
    (ind_object : list bool) (model_map : InjectActiveCells)
    (model : list float) (ind_object' : list bool) :
  iterator_model_rebuild a mesh ind_object = Ok (model_map, model, ind_object') ->
  let ind_active := surface2ind_topo mesh (it_surface a) in
  model_map = mkInjectActiveCells _ mesh ind_active (it_par_background a)
  /\ length model = count_true ind_active
  /\ ind_object' =
       (if String.eqb (it_type_object a) "sphere"%string
        then get_ind_sphere mesh ind_active (it_coordinates a) (it_radius a)
        else if String.eqb (it_type_object a) "block"%string
             then get_ind_block mesh ind_active (it_coordinates a)
                    get_ind_block_axis get_ind_block_degrees_rad
             else ind_object)
  /\ forall k, (k < length model)%nat ->
       nth k model 0%float =
       if nth k ind_object' false then it_par_object a
       else (it_par_background a * 1)%float.
Proof.
  intros H ind_active. unfold iterator_model_rebuild in H.
  fold ind_active in H.
  bind_inv H. injection H as <- <- <-.
  match goal with E : mask_assign _ _ _ = Ok _ |- _ =>
    apply mask_assign_ok in E as (Hm & Hl & Hnth) end.
  unfold background_model in *. rewrite repeat_length in *.
  repeat split; auto.
  intros k Hk. rewrite Hnth by lia.
  destruct (nth k _ false); [reflexivity|].
  apply nth_repeat_lt. lia.
Qed.

End ModelRebuild.

(** C8, on a concrete run: for a block rotated by one radian the set-up
    before the loop fills the cell inside the rotated block, the second
    one; after the first rebuild the first cell holds [par_object] and
    the cell that the indicator with the caller's rotation marks holds
    [par_background]. *)
Theorem rebuilt_model_drops_rotation :
  let a := Toy.rotated_block_args in
  match iterator_init (EM := Toy.simpeg Toy.e_moving) a Toy.empty_store with
  | Ok (st0, _, fresh) =>
      match iterator_body (NP := Toy.numpy) (ND := Toy.numdiff)
              (SP := Toy.scipy) a fresh st0 with
      | Ok st1 =>
          let ind_active :=
            surface2ind_topo (SimPEG := Toy.simpeg Toy.e_moving)
              (st_mesh st1) (it_surface a) in
          (it_par_background a, it_par_object a) = (1, 100)%float
          /\ st_model st0 = [1; 100]%float
          /\ get_ind_block (st_mesh st1) ind_active (it_coordinates a)
               (it_axis a) (it_degrees_rad a) = [false; true]
          /\ st_model st1 = [100; 1]%float
      | Raise _ => False
      end
  | Raise _ => False
  end.
Proof. vm_compute. repeat split. Qed.

(** ** Whole fresh runs *)

Section FreshRuns.

Context `{NP : NumPy} `{ND : NumDiffTools} `{SP : SciPy} `{ML : MeshLib}
  `{EM : !SimPEG}.

(** A property that every completed body carries from step [k] to step
    [k + 1] holds, after a loop of [n] bodies that did not raise, at [n]. *)
Lemma while_loop_invariant (inv : nat -> loop_state -> Prop) (lim : number)
    (body : loop_state -> result loop_state) :
  (forall k st st', inv k st -> body st = Ok st' -> inv (S k) st') ->
  forall fuel k st n st',
    inv k st ->
    while_loop fuel lim body st = Some (n, Ok st') ->
    inv (k + n)%nat st'.
Proof.
  intros Hstep. induction fuel as [|fuel IH]; intros k st n st' Hinv H; simpl in H.
  - destruct (loop_condition lim st); [discriminate H|].
    injection H as <- <-. rewrite Nat.add_0_r. exact Hinv.
  - destruct (loop_condition lim st).
    + destruct (body st) as [st1|e] eqn:Hb; [|discriminate H].
      destruct (while_loop fuel lim body st1) as [[m r]|] eqn:Hrun;
        [|discriminate H].
      injection H as <- ->.
      replace (k + S m)%nat with (S k + m)%nat by lia.
      eapply IH; [|exact Hrun]. eapply Hstep; eauto.
    + injection H as <- <-. rewrite Nat.add_0_r. exact Hinv.
Qed.

Lemma fresh_invariant_init (a : iterator_args) (s : store) (st0 : loop_state)
    (lim : number) :
  iterator_init a s = Ok (st0, lim, true) ->
  fresh_invariant (next_loc s) 0 st0.
Proof.
  unfold iterator_init. intros H.
  destruct (iterator_model_setup a (it_mesh a)) as [[[mm m] io]|e];
    simpl in H; [|discriminate H].
  destruct (starts_fresh (it_diff_list a)) as [[|]|e]; simpl in H;
    [| destruct (py_float (it_lim_iterations a)); simpl in H; discriminate H
     | discriminate H].
  injection H as <- <-. unfold fresh_invariant. simpl.
  repeat split.
  exists [], [], []. repeat split.
  - rewrite !lookup_insert_ne by lia. apply lookup_insert_eq.
  - rewrite lookup_insert_ne by lia. apply lookup_insert_eq.
  - apply lookup_insert_eq.
Qed.

Lemma fresh_invariant_step (a : iterator_args) (r k : nat)
    (st st' : loop_state) :
  fresh_invariant r k st ->
  iterator_body a true st = Ok st' ->
  fresh_invariant r (S k) st'.
Proof.
  intros (R1 & R2 & R3 & (l1 & l2 & l3 & L1 & L2 & L3 & K1 & K2 & K3) & Hi & Hav) H.
  pose proof (iterator_body_ok _ _ _ _ H) as Hok.
  destruct Hok as (s6 & c1 & c2 & c3 & s1 & s2 & lo & lr & ls
                   & _ & Hcmp & _ & A1 & _ & A2 & _ & A3 & _ & _ & _
                   & _ & _ & Hi' & _ & _ & F1 & F2 & F3).
  rewrite R1 in A1. rewrite R2 in A2. rewrite R3 in A3.
  destruct (three_appends _ _ _ _ r (S r) (S (S r)) _ _ _
              ltac:(lia) ltac:(lia) ltac:(lia) A1 A2 A3)
    as (o1 & o2 & o3 & O1 & O2 & O3 & P1 & P2 & P3 & _).
  rewrite L1 in O1. rewrite L2 in O2. rewrite L3 in O3.
  injection O1 as <-. injection O2 as <-. injection O3 as <-.
  unfold fresh_invariant.
  rewrite F1, F2, F3, Hi', Hi. repeat split; auto;
    [|simpl; f_equal; lia|].
  - exists (l1 ++ [c1]), (l2 ++ [c2]), (l3 ++ [c3]).
    rewrite !length_app. simpl. repeat split; auto; lia.
  - apply compare_fields_ok in Hcmp. rewrite Hi in Hcmp.
    cbn [num_lt andb] in Hcmp.
    destruct k as [|k].
    + simpl in Hcmp. destruct Hcmp as [_ ->]. rewrite Hav. reflexivity.
    + replace (0 <? Z.of_nat (S k)) with true in Hcmp
        by (symmetry; apply Z.ltb_lt; lia).
      simpl in Hcmp. destruct Hcmp as (ds & _ & _ & _ & ->).
      rewrite length_app, Hav. simpl. lia.
Qed.

(** A fresh run of [iterator] that returns after [n] loop bodies leaves
    three lists of [n] entries each, created by the call, and a
    convergence record of [n - 1] pairs. *)
Lemma fresh_run_lengths (fuel : nat) (a : iterator_args) (s s' : store)
    (n : nat) (r : returned) :
  starts_fresh (it_diff_list a) = Ok true ->
  iterator_from fuel a s = Some (n, Ok (r, s')) ->
  (exists l1 l2 l3,
     lists s' !! next_loc s = Some l1
     /\ lists s' !! S (next_loc s) = Some l2
     /\ lists s' !! S (S (next_loc s)) = Some l3
     /\ length l1 = n /\ length l2 = n /\ length l3 = n)
  /\ match r with
     | Short _ _ _ _ av | Long _ _ _ _ av _ _ _ => length av = Nat.pred n
     end.
Proof.
  intros Hfresh H. unfold iterator_from in H.
  destruct (iterator_init a s) as [[[st0 lim] fresh]|e] eqn:Hinit;
    [|discriminate H].
  pose proof (iterator_init_ok _ _ _ _ _ Hinit) as (Hf & _).
  rewrite Hfresh in Hf. injection Hf as <-.
  apply fresh_invariant_init in Hinit.
  destruct (while_loop fuel lim (iterator_body a true) st0)
    as [[m [st|e]]|] eqn:Hrun; try discriminate H.
  injection H as <- H.
  pose proof (while_loop_invariant (fresh_invariant (next_loc s)) lim
                (iterator_body a true)
                (fun k st1 st2 => fresh_invariant_step a (next_loc s) k st1 st2)
                fuel 0%nat st0 m st Hinit Hrun) as Hinv.
  simpl in Hinv.
  destruct Hinv as (_ & _ & _ & Hlists & _ & Hav).
  unfold return_of in H. destruct (st_ef st) as [[[ex ey] ez]|]; [|discriminate H].
  destruct (lt (st_diff st) 0.01%float); simpl in H; injection H as <- <-;
    (split; [exact Hlists|]); unfold record_array; rewrite length_map;
    exact Hav.
Qed.

End FreshRuns.

(** ** Further properties, on concrete inputs *)

(** For any array whose length is the sum of the three per-axis counts,
    the three slices taken at those counts are consecutive, have the
    counted sizes, and concatenated in order give the array back. *)
Theorem block_partition_exact {A} (solution : list A) (n_x n_y n_z : nat) :
  length solution = (n_x + n_y + n_z)%nat ->
  slice solution 0 n_x ++ slice solution n_x (n_x + n_y)
    ++ slice solution (n_x + n_y) (n_x + n_y + n_z) = solution
  /\ length (slice solution 0 n_x) = n_x
  /\ length (slice solution n_x (n_x + n_y)) = n_y
  /\ length (slice solution (n_x + n_y) (n_x + n_y + n_z)) = n_z.
Proof.
  intros H. destruct (slice_three solution n_x n_y n_z H) as (E & ? & ? & ?).
  repeat split; auto.
Qed.

(** Six entries cut into blocks of one, two and three. *)
Lemma block_partition_exact_witness :
  slice [1; 2; 3; 4; 5; 6] 0 1 ++ slice [1; 2; 3; 4; 5; 6] 1 (1 + 2)
    ++ slice [1; 2; 3; 4; 5; 6] (1 + 2) (1 + 2 + 3) = [1; 2; 3; 4; 5; 6]
  /\ length (slice [1; 2; 3; 4; 5; 6] 0 1) = 1%nat
  /\ length (slice [1; 2; 3; 4; 5; 6] 1 (1 + 2)) = 2%nat
  /\ length (slice [1; 2; 3; 4; 5; 6] (1 + 2) (1 + 2 + 3)) = 3%nat.
Proof. exact (block_partition_exact [1; 2; 3; 4; 5; 6] 1 2 3 eq_refl). Defined.

(** Half of three points: two are selected. *)
Lemma estimate_error_selects_largest_witness :
  let search_area := [Toy.origin; Toy.unit_x; Toy.origin] in
  exists order,
    length (skipn 1 order) = 2%nat
    /\ estimate_error (NP := Toy.numpy) (ND := Toy.numdiff) search_area
         (fun _ => czero) (fun _ => czero) (fun p => of_real (fst (fst p)))
         (fun _ => czero) (fun _ => czero) (fun _ => czero) 0.5%float =
       take_rows search_area (skipn 1 order).
Proof.
  intros search_area.
  destruct (estimate_error_selects_largest (NP := Toy.numpy)
              (NPL := toy_numpy_laws) (ND := Toy.numdiff) search_area
              (fun _ => czero) (fun _ => czero) (fun p => of_real (fst (fst p)))
              (fun _ => czero) (fun _ => czero) (fun _ => czero) 0.5%float 2
              ltac:(vm_compute; reflexivity) ltac:(simpl; lia))
    as (order & _ & He & Hl & _).
  exists order. split; [exact Hl | exact He].
Defined.

(** A fresh run of three bodies on the small instance. *)
Lemma fresh_run_lengths_witness :
  exists l1 l2 l3,
    lists (Toy.store_of Toy.moving_run) !! 0%nat = Some l1
    /\ lists (Toy.store_of Toy.moving_run) !! 1%nat = Some l2
    /\ lists (Toy.store_of Toy.moving_run) !! 2%nat = Some l3
    /\ length l1 = 3%nat /\ length l2 = 3%nat /\ length l3 = 3%nat.
Proof.
  assert (Hrun : Toy.moving_run =
                 Some (3%nat, @Ok (@returned Toy.meshlib * store)
                                (Toy.returned_of Toy.moving_run,
                                 Toy.store_of Toy.moving_run)))
    by (vm_compute; reflexivity).
  destruct (fresh_run_lengths (NP := Toy.numpy) (ND := Toy.numdiff) (SP := Toy.scipy)
              (EM := Toy.simpeg Toy.e_moving) 3
              (Toy.fresh_args Toy.e_moving 3) Toy.empty_store
              (Toy.store_of Toy.moving_run) 3
              (Toy.returned_of Toy.moving_run) eq_refl Hrun)
    as [(l1 & l2 & l3 & H) _].
  exists l1, l2, l3. exact H.
Defined.

(** The same run, at its exit. *)
Lemma iterator_exit_and_return_witness :
  exists (st : @loop_state Toy.meshlib) (lim : number),
    (gt (st_diff st) 0.01%float = false \/ num_lt (st_i st) lim = false)
    /\ match Toy.returned_of Toy.moving_run with
       | Short _ _ _ _ _ => lt (st_diff st) 0.01%float = true
       | Long _ _ _ _ _ _ _ _ => lt (st_diff st) 0.01%float = false
       end.
Proof.
  assert (Hrun : Toy.moving_run =
                 Some (3%nat, @Ok (@returned Toy.meshlib * store)
                                (Toy.returned_of Toy.moving_run,
                                 Toy.store_of Toy.moving_run)))
    by (vm_compute; reflexivity).
  destruct (iterator_exit_and_return (NP := Toy.numpy) (ND := Toy.numdiff) (SP := Toy.scipy)
              (EM := Toy.simpeg Toy.e_moving) 3
              (Toy.fresh_args Toy.e_moving 3) Toy.empty_store
              (Toy.store_of Toy.moving_run) 3
              (Toy.returned_of Toy.moving_run) Hrun)
    as (st0 & lim & fresh & st & _ & _ & Hexit & Hshape).
  exists st, lim. split; [exact Hexit | exact Hshape].
Defined.

(** ** Calls of iteratornonobject: termination *)

Section NonobjectTermination.

Context `{NP : NumPy} `{ND : NumDiffTools} `{SP : SciPy} `{ML : MeshLib}
  `{EM : !SimPEG}.

(** What the statements of [iteratornonobject] before its loop leave in
    the state. *)
Lemma nonobject_init_ok (a : nonobject_args) (s : store) (st0 : loop_state)
    (lim : number) (fresh : bool) :
  nonobject_init a s = Ok (st0, lim, fresh) ->
  starts_fresh (no_diff_list a) = Ok fresh
  /\ st_diff st0 = 10%float
  /\ st_mesh st0 = no_mesh a
  /\ st_ef st0 = None
  /\ (if fresh
      then st_i st0 = PyInt 0 /\ lim = PyInt (no_lim_iterations a)
           /\ st_av_diff_list st0 = []
           /\ st_first_list st0 = Some (next_loc s)
           /\ st_receivers_list st0 = Some (S (next_loc s))
           /\ st_sources_list st0 = Some (S (S (next_loc s)))
      else st_i st0 = Float64 (fst (List.last (no_diff_list a) (0, 0)%float))
           /\ lim = Float64 (float_of_Z (no_lim_iterations a)
                             + fst (List.last (no_diff_list a) (0, 0)%float))
           /\ st_av_diff_list st0 = record_rows (no_diff_list a)
           /\ st_first_list st0 = no_r_a_l_list a
           /\ st_receivers_list st0 = no_r_a_r_list a
           /\ st_sources_list st0 = no_r_a_s_list a
           /\ st_ef_old st0 = Some (no_Ex a, no_Ey a, no_Ez a)
           /\ st_store st0 = s).
Proof.
  unfold nonobject_init. simpl. intros H.
  destruct (starts_fresh (no_diff_list a)) as [[|]|e]; simpl in H;
    [| |discriminate H].
  - injection H as <- <- <-; simpl; repeat split.
  - unfold py_float in H.
    destruct (PrimFloat.is_infinity (float_of_Z (no_lim_iterations a)));
      simpl in H; [discriminate H|].
    injection H as <- <- <-; simpl; repeat split.
Qed.

Lemma nonobject_init_raises (a : nonobject_args) (s : store) (e : exn) :
  nonobject_init a s = Raise e ->
  forall fuel, iteratornonobject_from fuel a s = Some (0%nat, Raise e).
Proof. intros H fuel. unfold iteratornonobject_from. rewrite H. reflexivity. Qed.

Lemma nonobject_body_counts (a : nonobject_args) (fresh : bool)
    (st st' : loop_state) :
  nonobject_body a fresh st = Ok st' -> st_i st' = num_succ (st_i st).
Proof.
  intros Hb. apply nonobject_body_ok in Hb.
  destruct Hb as (?&?&?&?&?&?&?&?&?&Hb). apply Hb.
Qed.

(** A fresh call of [iteratornonobject] counts with the integer 0 under
    the cap [lim_iterations] and ends, by a return or by an exception,
    after at most [lim_iterations] loop bodies; more fuel than
    [lim_iterations] changes nothing.  A resumed call counts with the
    float [diff_list[-1, 0]] under the float sum of [lim_iterations] and
    that index; when the index is a whole number [k >= 0] and
    [k + lim_iterations] does not exceed [2^53], it ends after at most
    [lim_iterations] loop bodies as well. *)
Theorem iteratornonobject_terminates_within_cap (a : nonobject_args)
    (s : store) :
  (forall st0 lim fresh,
     nonobject_init a s = Ok (st0, lim, fresh) ->
     starts_fresh (no_diff_list a) = Ok fresh
     /\ (if fresh then st_i st0 = PyInt 0 /\ lim = PyInt (no_lim_iterations a)
         else st_i st0 =
                Float64 (fst (List.last (no_diff_list a) (0, 0)%float))
              /\ lim =
                 Float64 (float_of_Z (no_lim_iterations a)
                          + fst (List.last (no_diff_list a) (0, 0)%float))))
  /\ (starts_fresh (no_diff_list a) = Ok true ->
      exists n r,
        iteratornonobject a s = Some (n, r)
        /\ Z.of_nat n <= Z.max 0 (no_lim_iterations a)
        /\ forall fuel, (Z.to_nat (no_lim_iterations a) <= fuel)%nat ->
             iteratornonobject_from fuel a s = Some (n, r))
  /\ (forall k,
        starts_fresh (no_diff_list a) = Ok false ->
        fst (List.last (no_diff_list a) (0, 0)%float) = float_of_Z k ->
        0 <= k -> k + Z.max 0 (no_lim_iterations a) <= 2 ^ 53 ->
        exists n r,
          iteratornonobject a s = Some (n, r)
          /\ Z.of_nat n <= Z.max 0 (no_lim_iterations a)
          /\ forall fuel, (Z.to_nat (no_lim_iterations a) <= fuel)%nat ->
               iteratornonobject_from fuel a s = Some (n, r)).
Proof.
  split; [|split].
  - intros st0 lim fresh H. apply nonobject_init_ok in H.
    destruct H as (Hf & _ & _ & _ & H). split; [exact Hf|].
    destruct fresh.
    + destruct H as (? & ? & _). auto.
    + destruct H as (? & ? & _). auto.
  - intros Hfresh.
    destruct (nonobject_init a s) as [[[st0 lim] fresh]|e] eqn:Hinit.
    + pose proof (nonobject_init_ok _ _ _ _ _ Hinit) as (Hf & _ & _ & _ & H).
      rewrite Hfresh in Hf. injection Hf as <-. destruct H as (Hi & -> & _).
      destruct (fresh_loop_terminates (no_lim_iterations a)
                  (nonobject_body a true) st0 (nonobject_body_counts a true) Hi)
        as (n & r & Hrun & Hn).
      destruct (call_outcome _ _ _ _ _ _ Hrun) as (out & Hout).
      exists n, out. unfold iteratornonobject, iteratornonobject_from.
      rewrite Hinit.
      split; [apply Hout; lia|]. split; [exact Hn|].
      intros fuel Hfuel. apply Hout, Hfuel.
    + exists 0%nat, (Raise e). unfold iteratornonobject.
      rewrite !(nonobject_init_raises _ _ _ Hinit). split; [reflexivity|].
      split; [lia|]. intros fuel _. apply (nonobject_init_raises _ _ _ Hinit).
  - intros k Hresume Hlast Hk Hsum.
    destruct (nonobject_init a s) as [[[st0 lim] fresh]|e] eqn:Hinit.
    + pose proof (nonobject_init_ok _ _ _ _ _ Hinit) as (Hf & _ & _ & _ & H).
      rewrite Hresume in Hf. injection Hf as <-. destruct H as (Hi & -> & _).
      rewrite Hlast in Hi, Hinit.
      destruct (resumed_loop_terminates (no_lim_iterations a) k
                  (nonobject_body a false) st0 (nonobject_body_counts a false)
                  Hk Hsum Hi)
        as (n & r & Hrun & Hn).
      destruct (call_outcome _ _ _ _ _ _ Hrun) as (out & Hout).
      exists n, out. unfold iteratornonobject, iteratornonobject_from.
      rewrite Hinit.
      split; [apply Hout; lia|]. split; [exact Hn|].
      intros fuel Hfuel. apply Hout, Hfuel.
    + exists 0%nat, (Raise e). unfold iteratornonobject.
      rewrite !(nonobject_init_raises _ _ _ Hinit). split; [reflexivity|].
      split; [lia|]. intros fuel _. apply (nonobject_init_raises _ _ _ Hinit).
Qed.

End NonobjectTermination.

(** ** Calls that cannot return *)

Section CallsThatCannotReturn.

Context `{NP : NumPy} `{ND : NumDiffTools} `{SP : SciPy} `{ML : MeshLib}
  `{EM : !SimPEG}.

(** With [lim_iterations] at or below zero the loop is never entered, and
    the return statement reads the names [ef_x], [ef_y], [ef_z] that only
    the loop body binds: [iterator], once its set-up went through, and
    [iteratornonobject], for any non-empty [diff_list] of a fresh call
    and for any resumed call whose [lim_iterations] converts to a float,
    raise [UnboundLocalError] instead of returning.  A resumed call of
    [iteratornonobject] whose [lim_iterations] is too large for a float
    raises [OverflowError] before the loop. *)
Theorem no_iteration_no_return :
  (forall (a : iterator_args) (s : store) st0 lim fresh,
     it_lim_iterations a <= 0 ->
     iterator_init a s = Ok (st0, lim, fresh) ->
     forall fuel,
       iterator_from fuel a s = Some (0%nat, Raise UnboundLocalError))
  /\
  (forall (a : nonobject_args) (s : store),
     no_lim_iterations a <= 0 ->
     no_diff_list a <> [] ->
     starts_fresh (no_diff_list a) = Ok true
     \/ PrimFloat.is_infinity (float_of_Z (no_lim_iterations a)) = false ->
     forall fuel,
       iteratornonobject_from fuel a s = Some (0%nat, Raise UnboundLocalError))
  /\
  (forall (a : nonobject_args) (s : store),
     starts_fresh (no_diff_list a) = Ok false ->
     PrimFloat.is_infinity (float_of_Z (no_lim_iterations a)) = true ->
     forall fuel,
       iteratornonobject_from fuel a s = Some (0%nat, Raise OverflowError)).
Proof.
  assert (Hcap : forall (L : Z) (i0 : number) (lim : number) (fresh : bool),
            L <= 0 ->
            (if fresh then i0 = PyInt 0 /\ lim = PyInt L
             else exists x, i0 = Float64 x
                            /\ lim = Float64 (float_of_Z L + x)%float) ->
            num_lt i0 lim = false).
  { intros L i0 lim fresh HL H. destruct fresh.
    - destruct H as [-> ->]. simpl. apply Z.ltb_ge. exact HL.
    - destruct H as (x & -> & ->). simpl.
      apply add_nonpos_not_above, float_of_Z_nonpos, HL. }
  split; [|split].
  - intros a s st0 lim fresh Hlim Hinit fuel.
    unfold iterator_from. rewrite Hinit.
    pose proof (iterator_init_ok _ _ _ _ _ Hinit) as (_ & _ & _ & Hef & H).
    rewrite while_loop_not_entered.
    + unfold return_of. rewrite Hef. reflexivity.
    + apply (Hcap (it_lim_iterations a) _ _ fresh Hlim). destruct fresh.
      * destruct H as (-> & -> & _). auto.
      * destruct H as (-> & -> & _). eauto.
  - intros a s Hlim Hne Hconv fuel.
    unfold iteratornonobject_from.
    destruct (nonobject_init a s) as [[[st0 lim] fresh]|e] eqn:Hinit.
    + pose proof (nonobject_init_ok _ _ _ _ _ Hinit) as (_ & _ & _ & Hef & H).
      rewrite while_loop_not_entered.
      * unfold return_of. rewrite Hef. reflexivity.
      * apply (Hcap (no_lim_iterations a) _ _ fresh Hlim). destruct fresh.
        -- destruct H as (-> & -> & _). auto.
        -- destruct H as (-> & -> & _). eauto.
    + exfalso. unfold nonobject_init in Hinit. simpl in Hinit.
      destruct (no_diff_list a) as [|[i0 d] rest]; [contradiction|].
      simpl in Hinit, Hconv. unfold py_float in Hinit.
      destruct (PrimFloat.eqb i0 0); [discriminate Hinit|].
      destruct Hconv as [Hconv|Hconv]; [discriminate Hconv|].
      rewrite Hconv in Hinit. discriminate Hinit.
  - intros a s Hresume Hinf fuel.
    unfold iteratornonobject_from, nonobject_init. simpl.
    rewrite Hresume. simpl. unfold py_float. rewrite Hinf. reflexivity.
Qed.

(** The field of the caller is called component by component: all three
    must be there. *)
Lemma ef_old_needs_all (ox oy oz : option interpolator) (cell : point)
    (v : vec3 complex) :
  ef_old_interpolator (Some (ox, oy, oz)) cell = Ok v ->
  ox <> None /\ oy <> None /\ oz <> None.
Proof.
  unfold ef_old_interpolator, call.
  destruct ox, oy, oz; simpl; try discriminate; intros _; repeat split;
    discriminate.
Qed.

Lemma compare_needs_fields (st : loop_state) (ef : interp3)
    (area1 area2 area3 : list point) (ox oy oz : option interpolator)
    (r : float * list (number * float)) :
  st_ef_old st = Some (ox, oy, oz) ->
  compare_fields false st ef area1 area2 area3 = Ok r ->
  ox <> None /\ oy <> None /\ oz <> None.
Proof.
  intros Hold H. destruct r as [diff av].
  apply compare_fields_ok in H. simpl in H.
  destruct H as (ds & Hall & Hne & _).
  destruct Hall as [|cell d cells ds' Hd _]; [contradiction|].
  unfold relative_difference_at in Hd. rewrite Hold in Hd.
  destruct (ef_old_interpolator (Some (ox, oy, oz)) cell) as [v|e] eqn:E;
    [|discriminate Hd].
  eapply ef_old_needs_all, E.
Qed.

(** A loop whose first body raises ends, if it ends without an exception,
    in the state it started from. *)
Lemma while_loop_stuck (fuel : nat) (lim : number)
    (body : loop_state -> result loop_state) (st0 st : loop_state) (n : nat) :
  (forall st', body st0 <> Ok st') ->
  while_loop fuel lim body st0 = Some (n, Ok st) ->
  st = st0.
Proof.
  intros Hb H. destruct fuel; simpl in H.
  - destruct (loop_condition lim st0); [discriminate H|].
    injection H as _ <-. reflexivity.
  - destruct (loop_condition lim st0).
    + destruct (body st0) as [st'|e] eqn:E; [|discriminate H].
      exfalso. apply (Hb st'). reflexivity.
    + injection H as _ <-. reflexivity.
Qed.

Lemma iterator_body_needs (a : iterator_args) (st st' : loop_state) :
  iterator_body a false st = Ok st' ->
  st_first_list st <> None /\ st_receivers_list st <> None
  /\ st_sources_list st <> None
  /\ forall ox oy oz, st_ef_old st = Some (ox, oy, oz) ->
       ox <> None /\ oy <> None /\ oz <> None.
Proof.
  intros H. apply iterator_body_ok in H.
  destruct H as (s6 & c1 & c2 & c3 & s1 & s2 & lo & lr & ls
                 & _ & Hcmp & _ & A1 & _ & A2 & _ & A3 & _).
  apply list_append_ok in A1 as (r1 & ? & -> & _).
  apply list_append_ok in A2 as (r2 & ? & -> & _).
  apply list_append_ok in A3 as (r3 & ? & -> & _).
  split; [discriminate|]. split; [discriminate|]. split; [discriminate|].
  intros ox oy oz Hold. eapply compare_needs_fields; eauto.
Qed.

Lemma nonobject_body_needs (a : nonobject_args) (st st' : loop_state) :
  nonobject_body a false st = Ok st' ->
  st_first_list st <> None /\ st_receivers_list st <> None
  /\ st_sources_list st <> None
  /\ forall ox oy oz, st_ef_old st = Some (ox, oy, oz) ->
       ox <> None /\ oy <> None /\ oz <> None.
Proof.
  intros H. apply nonobject_body_ok in H.
  destruct H as (s6 & c1 & c2 & c3 & s1 & s2 & lo & lr & ls
                 & _ & Hcmp & _ & A1 & _ & A2 & _ & A3 & _).
  apply list_append_ok in A1 as (r1 & ? & -> & _).
  apply list_append_ok in A2 as (r2 & ? & -> & _).
  apply list_append_ok in A3 as (r3 & ? & -> & _).
  split; [discriminate|]. split; [discriminate|]. split; [discriminate|].
  intros ox oy oz Hold. eapply compare_needs_fields; eauto.
Qed.

(** A call that resumes (the first index of [diff_list] is not 0) and
    leaves any of the three history lists or any of [Ex], [Ey], [Ez] at
    its default [None] never returns a value, in [iterator] and in
    [iteratornonobject]: the first loop body raises when it calls the
    missing field or appends to the missing list, and with a cap that
    admits no body the return statement does. *)
Theorem resumed_call_needs_all_arguments :
  (forall (a : iterator_args) (s : store),
     starts_fresh (it_diff_list a) = Ok false ->
     it_r_a_o_list a = None \/ it_r_a_r_list a = None \/ it_r_a_s_list a = None
     \/ it_Ex a = None \/ it_Ey a = None \/ it_Ez a = None ->
     forall fuel n r s', iterator_from fuel a s <> Some (n, Ok (r, s')))
  /\
  (forall (a : nonobject_args) (s : store),
     starts_fresh (no_diff_list a) = Ok false ->
     no_r_a_l_list a = None \/ no_r_a_r_list a = None \/ no_r_a_s_list a = None
     \/ no_Ex a = None \/ no_Ey a = None \/ no_Ez a = None ->
     forall fuel n r s',
       iteratornonobject_from fuel a s <> Some (n, Ok (r, s'))).
Proof.
  split.
  - intros a s Hresume Hmissing fuel n r s' H.
    unfold iterator_from in H.
    destruct (iterator_init a s) as [[[st0 lim] fresh]|e] eqn:Hinit;
      [|discriminate H].
    pose proof (iterator_init_ok _ _ _ _ _ Hinit) as (Hf & _ & _ & Hef & Hst).
    rewrite Hresume in Hf. injection Hf as <-.
    destruct Hst as (_ & _ & _ & R1 & R2 & R3 & Hold & _).
    destruct (while_loop fuel lim (iterator_body a false) st0)
      as [[m [st|e]]|] eqn:Hrun; try discriminate H.
    assert (Hstuck : forall st', iterator_body a false st0 <> Ok st').
    { intros st' Hb. apply iterator_body_needs in Hb.
      destruct Hb as (N1 & N2 & N3 & Nf).
      destruct (Nf _ _ _ Hold) as (Nx & Ny & Nz).
      rewrite R1 in N1. rewrite R2 in N2. rewrite R3 in N3.
      destruct Hmissing as [E|[E|[E|[E|[E|E]]]]]; congruence. }
    rewrite (while_loop_stuck _ _ _ _ _ _ Hstuck Hrun) in H.
    unfold return_of in H. rewrite Hef in H. discriminate H.
  - intros a s Hresume Hmissing fuel n r s' H.
    unfold iteratornonobject_from in H.
    destruct (nonobject_init a s) as [[[st0 lim] fresh]|e] eqn:Hinit;
      [|discriminate H].
    pose proof (nonobject_init_ok _ _ _ _ _ Hinit) as (Hf & _ & _ & Hef & Hst).
    rewrite Hresume in Hf. injection Hf as <-.
    destruct Hst as (_ & _ & _ & R1 & R2 & R3 & Hold & _).
    destruct (while_loop fuel lim (nonobject_body a false) st0)
      as [[m [st|e]]|] eqn:Hrun; try discriminate H.
    assert (Hstuck : forall st', nonobject_body a false st0 <> Ok st').
    { intros st' Hb. apply nonobject_body_needs in Hb.
      destruct Hb as (N1 & N2 & N3 & Nf).
      destruct (Nf _ _ _ Hold) as (Nx & Ny & Nz).
      rewrite R1 in N1. rewrite R2 in N2. rewrite R3 in N3.
      destruct Hmissing as [E|[E|[E|[E|[E|E]]]]]; congruence. }
    rewrite (while_loop_stuck _ _ _ _ _ _ Hstuck Hrun) in H.
    unfold return_of in H. rewrite Hef in H. discriminate H.
Qed.

End CallsThatCannotReturn.

(** ** The record and the history lists over a whole call *)

Section Bookkeeping.

Context `{NP : NumPy} `{ND : NumDiffTools} `{SP : SciPy} `{ML : MeshLib}
  `{EM : !SimPEG}.

(** Both loop bodies keep the books the same way. *)
Lemma iterator_body_bookkeeping (a : iterator_args) (fresh : bool)
    (st st' : loop_state) :
  iterator_body a fresh st = Ok st' -> body_bookkeeping fresh st st'.
Proof.
  intros H. apply iterator_body_ok in H.
  destruct H as (s6 & c1 & c2 & c3 & s1 & s2 & lo & lr & ls
                 & _ & Hcmp & _ & A1 & _ & A2 & _ & A3 & _ & _ & _ & _ & _
                 & Hi & _ & _ & F1 & F2 & F3).
  unfold body_bookkeeping. do 9 eexists. repeat split; eassumption.
Qed.

Lemma nonobject_body_bookkeeping (a : nonobject_args) (fresh : bool)
    (st st' : loop_state) :
  nonobject_body a fresh st = Ok st' -> body_bookkeeping fresh st st'.
Proof.
  intros H. apply nonobject_body_ok in H.
  destruct H as (s6 & c1 & c2 & c3 & s1 & s2 & lo & lr & ls
                 & _ & Hcmp & _ & A1 & _ & A2 & _ & A3 & _ & _ & _ & _ & _
                 & Hi & _ & _ & F1 & F2 & F3).
  unfold body_bookkeeping. do 9 eexists. repeat split; eassumption.
Qed.

(** The counter after [k] steps from an [int] and from a float. *)
Lemma iter_num_succ_int (c : Z) (k : nat) :
  Nat.iter k num_succ (PyInt c) = PyInt (c + Z.of_nat k).
Proof.
  induction k as [|k IH].
  - simpl. f_equal. lia.
  - rewrite Nat.iter_succ, IH. simpl. f_equal. lia.
Qed.

Lemma iter_num_succ_float (x : float) (k : nat) :
  Nat.iter k num_succ (Float64 x) =
  Float64 (Nat.iter k (fun y => (y + 1)%float) x).
Proof.
  induction k as [|k IH]; [reflexivity|].
  rewrite !Nat.iter_succ, IH. reflexivity.
Qed.

Variable fresh : bool.
Variable lim : number.
Variable body : loop_state -> result loop_state.
Hypothesis body_keeps_books :
  forall st st', body st = Ok st' -> body_bookkeeping fresh st st'.

(** The record and the counter over a whole loop: every body raises the
    counter by one and, the first body of a fresh run excepted, appends
    the raised counter. *)
Lemma run_record (st0 : loop_state) (fuel n : nat) (st : loop_state) :
  (fresh = true -> st_i st0 = PyInt 0) ->
  while_loop fuel lim body st0 = Some (n, Ok st) ->
  st_i st = Nat.iter n num_succ (st_i st0)
  /\ exists new,
       st_av_diff_list st = st_av_diff_list st0 ++ new
       /\ length new = (if fresh then Nat.pred n else n)
       /\ forall j, (j < length new)%nat ->
            fst (nth j new (PyInt 0, 0%float)) =
            Nat.iter (if fresh then S (S j) else S j) num_succ (st_i st0).
Proof.
  intros Hfresh Hrun.
  apply (while_loop_invariant
           (fun k st =>
              st_i st = Nat.iter k num_succ (st_i st0)
              /\ exists new,
                   st_av_diff_list st = st_av_diff_list st0 ++ new
                   /\ length new = (if fresh then Nat.pred k else k)
                   /\ forall j, (j < length new)%nat ->
                        fst (nth j new (PyInt 0, 0%float)) =
                        Nat.iter (if fresh then S (S j) else S j) num_succ
                          (st_i st0))
           lim body) with (fuel := fuel) (k := 0%nat) (st := st0) (n := n).
  - intros k st1 st2 (Hi & new & Hav & Hlen & Hidx) Hb.
    apply body_keeps_books in Hb.
    destruct Hb as (ef & a1 & a2 & a3 & c1 & c2 & c3 & s1 & s2
                    & Hcmp & _ & _ & _ & Hi' & _).
    split; [rewrite Hi', Hi; reflexivity|].
    apply compare_fields_ok in Hcmp.
    destruct (fresh && negb (num_lt (PyInt 0) (st_i st1))) eqn:Hskip.
    + destruct Hcmp as [_ Hsame].
      apply andb_true_iff in Hskip as [Hf Hneg]. subst fresh.
      rewrite Hi, (Hfresh eq_refl), iter_num_succ_int in Hneg.
      cbn [num_lt] in Hneg. apply negb_true_iff, Z.ltb_ge in Hneg.
      assert (k = 0%nat) by lia. subst k.
      exists new. split; [congruence|]. split; [exact Hlen | exact Hidx].
    + destruct Hcmp as (ds & _ & _ & _ & Hav').
      assert (Hk2 : (if fresh then S (S (length new)) else S (length new))
                    = S k).
      { destruct fresh; [|lia].
        simpl in Hskip. apply negb_false_iff in Hskip.
        rewrite Hi, (Hfresh eq_refl), iter_num_succ_int in Hskip.
        cbn [num_lt] in Hskip. apply Z.ltb_lt in Hskip.
        simpl in *. lia. }
      exists (new ++ [(num_succ (st_i st1), st_diff st2)]).
      split; [rewrite Hav', Hav, <- app_assoc; reflexivity|].
      split.
      * rewrite length_app. simpl. destruct fresh; simpl in *; lia.
      * intros j Hj. rewrite length_app in Hj. simpl in Hj.
        destruct (Nat.lt_ge_cases j (length new)) as [Hlt|Hge].
        -- rewrite app_nth1 by exact Hlt. apply Hidx, Hlt.
        -- assert (j = length new) by lia. subst j.
           rewrite app_nth2, Nat.sub_diag by lia. cbn [nth fst].
           rewrite Hk2, Hi. reflexivity.
  - split; [reflexivity|]. exists []. split; [rewrite app_nil_r; reflexivity|].
    split; [destruct fresh; reflexivity|]. intros j Hj. simpl in Hj. lia.
  - exact Hrun.
Qed.

(** The three history lists over a whole loop, when they are three
    different list objects. *)
Lemma run_lists (st0 : loop_state) (r1 r2 r3 : nat)
    (o1 o2 o3 : list (list point)) (fuel n : nat) (st : loop_state) :
  st_first_list st0 = Some r1 -> st_receivers_list st0 = Some r2 ->
  st_sources_list st0 = Some r3 ->
  r1 <> r2 -> r1 <> r3 -> r2 <> r3 ->
  lists (st_store st0) !! r1 = Some o1 ->
  lists (st_store st0) !! r2 = Some o2 ->
  lists (st_store st0) !! r3 = Some o3 ->
  while_loop fuel lim body st0 = Some (n, Ok st) ->
  st_first_list st = Some r1 /\ st_receivers_list st = Some r2
  /\ st_sources_list st = Some r3
  /\ (exists n1 n2 n3,
        lists (st_store st) !! r1 = Some (o1 ++ n1)
        /\ lists (st_store st) !! r2 = Some (o2 ++ n2)
        /\ lists (st_store st) !! r3 = Some (o3 ++ n3)
        /\ length n1 = n /\ length n2 = n /\ length n3 = n)
  /\ (forall r, r <> r1 -> r <> r2 -> r <> r3 ->
        lists (st_store st) !! r = lists (st_store st0) !! r).
Proof.
  intros R1 R2 R3 N12 N13 N23 O1 O2 O3 Hrun.
  apply (while_loop_invariant
           (fun k st =>
              st_first_list st = Some r1 /\ st_receivers_list st = Some r2
              /\ st_sources_list st = Some r3
              /\ (exists n1 n2 n3,
                    lists (st_store st) !! r1 = Some (o1 ++ n1)
                    /\ lists (st_store st) !! r2 = Some (o2 ++ n2)
                    /\ lists (st_store st) !! r3 = Some (o3 ++ n3)
                    /\ length n1 = k /\ length n2 = k /\ length n3 = k)
              /\ (forall r, r <> r1 -> r <> r2 -> r <> r3 ->
                    lists (st_store st) !! r = lists (st_store st0) !! r))
           lim body) with (fuel := fuel) (k := 0%nat) (st := st0) (n := n).
  - intros k st1 st2
      (F1 & F2 & F3 & (n1 & n2 & n3 & L1 & L2 & L3 & K1 & K2 & K3) & Hframe)
      Hb.
    apply body_keeps_books in Hb.
    destruct Hb as (ef & a1 & a2 & a3 & c1 & c2 & c3 & s1 & s2
                    & _ & A1 & A2 & A3 & _ & G1 & G2 & G3).
    rewrite F1 in A1, G1. rewrite F2 in A2, G2. rewrite F3 in A3, G3.
    destruct (three_appends _ _ _ _ _ _ _ _ _ _ N12 N13 N23 A1 A2 A3)
      as (p1 & p2 & p3 & P1 & P2 & P3 & Q1 & Q2 & Q3 & Qframe).
    rewrite L1 in P1. rewrite L2 in P2. rewrite L3 in P3.
    injection P1 as <-. injection P2 as <-. injection P3 as <-.
    repeat (split; [assumption|]). split.
    + exists (n1 ++ [c1]), (n2 ++ [c2]), (n3 ++ [c3]).
      rewrite !app_assoc, !length_app. simpl.
      repeat split; auto; lia.
    + intros r X1 X2 X3. rewrite Qframe by assumption. apply Hframe; assumption.
  - repeat (split; [assumption|]). split.
    + exists [], [], []. rewrite !app_nil_r. repeat split; assumption.
    + reflexivity.
  - exact Hrun.
Qed.

End Bookkeeping.

Section Runs.

Context `{NP : NumPy} `{ND : NumDiffTools} `{SP : SciPy} `{ML : MeshLib}
  `{EM : !SimPEG}.

(** What the return value carries of the final state. *)
Lemma return_of_parts (st : loop_state) (r : returned) :
  return_of st = Ok r ->
  returned_record r = record_array (st_av_diff_list st)
  /\ forall l, returned_lists r = Some l ->
       l = (st_first_list st, st_receivers_list st, st_sources_list st).
Proof.
  unfold return_of. destruct (st_ef st) as [[[ex ey] ez]|]; [|discriminate].
  destruct (lt (st_diff st) 0.01%float); intros H; injection H as <-; simpl;
    split; try reflexivity; intros l Hl; congruence.
Qed.

Lemma record_array_rows (diff_list : list (float * float)) :
  record_array (record_rows diff_list) = diff_list.
Proof.
  unfold record_array, record_rows. rewrite map_map. simpl.
  induction diff_list as [|[i d] l IH]; simpl; [reflexivity|].
  rewrite IH. reflexivity.
Qed.

Lemma nth_record_array (l : list (number * float)) (j : nat) :
  (j < length l)%nat ->
  fst (nth j (record_array l) (0, 0)%float) =
  to_float64 (fst (nth j l (PyInt 0, 0%float))).
Proof.
  intros H. unfold record_array.
  rewrite (nth_indep _ (0, 0)%float
             ((fun r : number * float => (to_float64 (fst r), snd r))
                (PyInt 0, 0%float)))
    by (rewrite length_map; exact H).
  rewrite (map_nth (fun r : number * float => (to_float64 (fst r), snd r))).
  reflexivity.
Qed.

(** The record a loop leaves, as the array the call returns. *)
Lemma returned_indices (fresh : bool) (lim : number)
    (body : loop_state -> result loop_state)
    (diff_list : list (float * float)) (st0 st : loop_state) (fuel n : nat) :
  (forall st st', body st = Ok st' -> body_bookkeeping fresh st st') ->
  (if fresh then st_i st0 = PyInt 0 /\ st_av_diff_list st0 = []
   else st_i st0 = Float64 (fst (List.last diff_list (0, 0)%float))
        /\ st_av_diff_list st0 = record_rows diff_list) ->
  while_loop fuel lim body st0 = Some (n, Ok st) ->
  exists new,
    record_array (st_av_diff_list st) = (if fresh then [] else diff_list) ++ new
    /\ length new = (if fresh then Nat.pred n else n)
    /\ forall j, (j < length new)%nat ->
         fst (nth j new (0, 0)%float) =
         if fresh then float_of_Z (Z.of_nat j + 2)
         else Nat.iter (S j) (fun x => (x + 1)%float)
                (fst (List.last diff_list (0, 0)%float)).
Proof.
  intros Hbooks Hst0 Hrun.
  destruct (run_record fresh lim body Hbooks st0 fuel n st)
    as (_ & new & Hav & Hlen & Hidx); [| exact Hrun |].
  { intros ->. apply Hst0. }
  exists (record_array new).
  assert (Hl : length (record_array new) = length new)
    by (unfold record_array; apply length_map).
  split.
  - rewrite Hav. unfold record_array at 1. rewrite map_app.
    fold (record_array (st_av_diff_list st0)). fold (record_array new).
    f_equal. destruct fresh.
    + destruct Hst0 as [_ ->]. reflexivity.
    + destruct Hst0 as [_ ->]. apply record_array_rows.
  - split; [rewrite Hl; exact Hlen|].
    intros j Hj. rewrite Hl in Hj.
    rewrite nth_record_array, Hidx by exact Hj.
    destruct fresh.
    + destruct Hst0 as [-> _]. rewrite iter_num_succ_int. simpl.
      f_equal. lia.
    + destruct Hst0 as [-> _]. rewrite iter_num_succ_float. reflexivity.
Qed.

(** The convergence record a call returns is the caller's record (empty
    on a fresh start) followed by one entry per loop body, the first
    body of a fresh start excepted, and the indices of the new entries
    count up by one: on a fresh start the floats of 2, 3, and so on; on
    a resumed start the caller's last index [diff_list[-1, 0]] with 1
    added to it once for the first new entry, twice for the second, and
    so on, each addition a float addition.  The same holds for
    [iterator] and [iteratornonobject]. *)
Theorem returned_record_indices :
  (forall (a : iterator_args) (s s' : store) (fresh : bool) (fuel n : nat)
          (r : returned),
     starts_fresh (it_diff_list a) = Ok fresh ->
     iterator_from fuel a s = Some (n, Ok (r, s')) ->
     exists new,
       returned_record r = (if fresh then [] else it_diff_list a) ++ new
       /\ length new = (if fresh then Nat.pred n else n)
       /\ forall j, (j < length new)%nat ->
            fst (nth j new (0, 0)%float) =
            if fresh then float_of_Z (Z.of_nat j + 2)
            else Nat.iter (S j) (fun x => (x + 1)%float)
                   (fst (List.last (it_diff_list a) (0, 0)%float)))
  /\
  (forall (a : nonobject_args) (s s' : store) (fresh : bool) (fuel n : nat)
          (r : returned),
     starts_fresh (no_diff_list a) = Ok fresh ->
     iteratornonobject_from fuel a s = Some (n, Ok (r, s')) ->
     exists new,
       returned_record r = (if fresh then [] else no_diff_list a) ++ new
       /\ length new = (if fresh then Nat.pred n else n)
       /\ forall j, (j < length new)%nat ->
            fst (nth j new (0, 0)%float) =
            if fresh then float_of_Z (Z.of_nat j + 2)
            else Nat.iter (S j) (fun x => (x + 1)%float)
                   (fst (List.last (no_diff_list a) (0, 0)%float))).
Proof.
  split.
  - intros a s s' fresh fuel n r Hfresh H.
    unfold iterator_from in H.
    destruct (iterator_init a s) as [[[st0 lim] fresh']|e] eqn:Hinit;
      [|discriminate H].
    pose proof (iterator_init_ok _ _ _ _ _ Hinit) as (Hf & _ & _ & _ & Hst).
    rewrite Hfresh in Hf. injection Hf as <-.
    destruct (while_loop fuel lim (iterator_body a fresh) st0)
      as [[m [st|e]]|] eqn:Hrun; try discriminate H.
    injection H as <- H.
    destruct (return_of st) as [r'|e] eqn:Hret; [|discriminate H].
    simpl in H. injection H as <- <-.
    apply return_of_parts in Hret as [-> _].
    apply (returned_indices fresh lim (iterator_body a fresh) (it_diff_list a)
             st0 st fuel m (iterator_body_bookkeeping a fresh)); [|exact Hrun].
    destruct fresh.
    + destruct Hst as (-> & _ & -> & _). auto.
    + destruct Hst as (-> & _ & -> & _). auto.
  - intros a s s' fresh fuel n r Hfresh H.
    unfold iteratornonobject_from in H.
    destruct (nonobject_init a s) as [[[st0 lim] fresh']|e] eqn:Hinit;
      [|discriminate H].
    pose proof (nonobject_init_ok _ _ _ _ _ Hinit) as (Hf & _ & _ & _ & Hst).
    rewrite Hfresh in Hf. injection Hf as <-.
    destruct (while_loop fuel lim (nonobject_body a fresh) st0)
      as [[m [st|e]]|] eqn:Hrun; try discriminate H.
    injection H as <- H.
    destruct (return_of st) as [r'|e] eqn:Hret; [|discriminate H].
    simpl in H. injection H as <- <-.
    apply return_of_parts in Hret as [-> _].
    apply (returned_indices fresh lim (nonobject_body a fresh) (no_diff_list a)
             st0 st fuel m (nonobject_body_bookkeeping a fresh)); [|exact Hrun].
    destruct fresh.
    + destruct Hst as (-> & _ & -> & _). auto.
    + destruct Hst as (-> & _ & -> & _). auto.
Qed.

(** A resumed call of [iterator] that is handed three different list
    objects and returns after [n] loop bodies has appended exactly [n]
    entries to each of them, behind the entries they had, has touched no
    other list, and a long-form return hands back the caller's own three
    lists. *)
Theorem resumed_run_extends_the_lists (a : iterator_args) (s s' : store)
    (r1 r2 r3 : nat) (o1 o2 o3 : list (list point)) (fuel n : nat)
    (r : returned) :
  starts_fresh (it_diff_list a) = Ok false ->
  it_r_a_o_list a = Some r1 -> it_r_a_r_list a = Some r2 ->
  it_r_a_s_list a = Some r3 ->
  r1 <> r2 -> r1 <> r3 -> r2 <> r3 ->
  lists s !! r1 = Some o1 -> lists s !! r2 = Some o2 ->
  lists s !! r3 = Some o3 ->
  iterator_from fuel a s = Some (n, Ok (r, s')) ->
  (exists n1 n2 n3,
     lists s' !! r1 = Some (o1 ++ n1)
     /\ lists s' !! r2 = Some (o2 ++ n2)
     /\ lists s' !! r3 = Some (o3 ++ n3)
     /\ length n1 = n /\ length n2 = n /\ length n3 = n)
  /\ (forall ref, ref <> r1 -> ref <> r2 -> ref <> r3 ->
        lists s' !! ref = lists s !! ref)
  /\ (forall l, returned_lists r = Some l -> l = (Some r1, Some r2, Some r3)).
Proof.
  intros Hresume R1 R2 R3 N12 N13 N23 O1 O2 O3 H.
  unfold iterator_from in H.
  destruct (iterator_init a s) as [[[st0 lim] fresh]|e] eqn:Hinit;
    [|discriminate H].
  pose proof (iterator_init_ok _ _ _ _ _ Hinit) as (Hf & _ & _ & _ & Hst).
  rewrite Hresume in Hf. injection Hf as <-.
  destruct Hst as (_ & _ & _ & F1 & F2 & F3 & _ & Hs).
  destruct (while_loop fuel lim (iterator_body a false) st0)
    as [[m [st|e]]|] eqn:Hrun; try discriminate H.
  injection H as <- H.
  destruct (return_of st) as [r'|e] eqn:Hret; [|discriminate H].
  simpl in H. injection H as <- <-.
  rewrite <- Hs in O1, O2, O3.
  destruct (run_lists false lim (iterator_body a false)
              (iterator_body_bookkeeping a false) st0 r1 r2 r3 o1 o2 o3
              fuel m st) as (G1 & G2 & G3 & Hl & Hframe); try congruence.
  split; [exact Hl|]. split.
  - intros ref X1 X2 X3. rewrite <- Hs. apply Hframe; assumption.
  - intros l Hl'. apply return_of_parts in Hret as [_ Hret].
    rewrite (Hret l Hl'), G1, G2, G3. reflexivity.
Qed.

(** A fresh call of [iteratornonobject] that returns after [n] loop
    bodies has created three new lists, each with exactly [n] entries,
    has left every list that existed before as it was, and a long-form
    return hands back those three new lists. *)
Theorem nonobject_fresh_run_creates_its_lists (a : nonobject_args)
    (s s' : store) (fuel n : nat) (r : returned) :
  starts_fresh (no_diff_list a) = Ok true ->
  iteratornonobject_from fuel a s = Some (n, Ok (r, s')) ->
  (exists l1 l2 l3,
     lists s' !! next_loc s = Some l1
     /\ lists s' !! S (next_loc s) = Some l2
     /\ lists s' !! S (S (next_loc s)) = Some l3
     /\ length l1 = n /\ length l2 = n /\ length l3 = n)
  /\ (forall ref, ref <> next_loc s -> ref <> S (next_loc s) ->
        ref <> S (S (next_loc s)) -> lists s' !! ref = lists s !! ref)
  /\ (forall l, returned_lists r = Some l ->
        l = (Some (next_loc s), Some (S (next_loc s)),
             Some (S (S (next_loc s))))).
Proof.
  intros Hfresh H.
  unfold iteratornonobject_from in H.
  destruct (nonobject_init a s) as [[[st0 lim] fresh]|e] eqn:Hinit;
    [|discriminate H].
  pose proof (nonobject_init_ok _ _ _ _ _ Hinit) as (Hf & _ & _ & _ & Hst).
  rewrite Hfresh in Hf. injection Hf as <-.
  destruct Hst as (_ & _ & _ & F1 & F2 & F3).
  assert (Hstore : lists (st_store st0) =
                   <[S (S (next_loc s)) := []]>
                     (<[S (next_loc s) := []]>
                        (<[next_loc s := []]> (lists s)))).
  { unfold nonobject_init in Hinit. simpl in Hinit.
    rewrite Hfresh in Hinit. simpl in Hinit. injection Hinit as <- _.
    reflexivity. }
  destruct (while_loop fuel lim (nonobject_body a true) st0)
    as [[m [st|e]]|] eqn:Hrun; try discriminate H.
  injection H as <- H.
  destruct (return_of st) as [r'|e] eqn:Hret; [|discriminate H].
  simpl in H. injection H as <- <-.
  destruct (run_lists true lim (nonobject_body a true)
              (nonobject_body_bookkeeping a true) st0
              (next_loc s) (S (next_loc s)) (S (S (next_loc s))) [] [] []
              fuel m st) as (G1 & G2 & G3 & (n1 & n2 & n3 & Hl) & Hframe);
    try assumption; try lia.
  - rewrite Hstore, !lookup_insert_ne by lia. apply lookup_insert_eq.
  - rewrite Hstore, lookup_insert_ne by lia. apply lookup_insert_eq.
  - rewrite Hstore. apply lookup_insert_eq.
  - split; [exists n1, n2, n3; exact Hl|]. split.
    + intros ref X1 X2 X3. rewrite Hframe by assumption.
      rewrite Hstore, !lookup_insert_ne by congruence. reflexivity.
    + intros l Hl'. apply return_of_parts in Hret as [_ Hret].
      rewrite (Hret l Hl'), G1, G2, G3. reflexivity.
Qed.

End Runs.

(** ** The model after a rebuild, for both functions *)

Lemma count_true_repeat (n : nat) : count_true (repeat true n) = n.
Proof.
  unfold count_true. induction n as [|n IH]; simpl; [reflexivity|].
  rewrite IH. reflexivity.
Qed.

Section ModelAndNames.
Context `{NP : NumPy} `{ND : NumDiffTools} `{SP : SciPy} `{ML : MeshLib}
  `{EM : !SimPEG}.

(** After every loop body the model fits the mesh it was rebuilt on. In
    [iterator] the model and the object indicator have one entry per
    active cell of the new mesh, the entries are [par_object] inside the
    object and [par_background * 1] elsewhere, the mapping is the
    injection on the active cells of the new mesh, and for a sphere the
    indicator is taken at the caller's centre and radius. In
    [iteratornonobject] every cell of the new mesh is active and the
    model is the caller's resistivity function on its cell centres. *)
Theorem rebuilt_model_fits_mesh :
  (forall (a : iterator_args) (fresh : bool) (st st' : loop_state),
     iterator_body a fresh st = Ok st' ->
     let ind_active := surface2ind_topo (st_mesh st') (it_surface a) in
     st_model_map st' =
       mkInjectActiveCells _ (st_mesh st') ind_active (it_par_background a)
     /\ length (st_model st') = count_true ind_active
     /\ length (st_ind_object st') = count_true ind_active
     /\ (forall k, (k < length (st_model st'))%nat ->
           nth k (st_model st') 0%float =
           if nth k (st_ind_object st') false then it_par_object a
           else (it_par_background a * 1)%float)
     /\ (it_type_object a = "sphere"%string ->
           st_ind_object st' =
           get_ind_sphere (st_mesh st') ind_active (it_coordinates a)
             (it_radius a)))
  /\
  (forall (a : nonobject_args) (fresh : bool) (st st' : loop_state),
     nonobject_body a fresh st = Ok st' ->
     st_model_map st' =
       mkInjectActiveCells _ (st_mesh st')
         (repeat true (n_cells (st_mesh st'))) (no_par_inactive a)
     /\ count_true (iac_ind_active (st_model_map st')) = n_cells (st_mesh st')
     /\ st_model st' = no_resistivity_function a (cell_centers (st_mesh st'))).
Proof.
  split.
  - intros a fresh st st' H ind_active.
    apply iterator_body_ok in H.
    destruct H as (s6 & c1 & c2 & c3 & s1 & s2 & lo & lr & ls
                   & _ & _ & _ & _ & _ & _ & _ & _ & _ & _ & _ & _ & Hreb & _).
    pose proof (iterator_model_rebuild_ok _ _ _ _ _ _ Hreb)
      as (Hmap & Hlen & Hind & Hnth).
    fold ind_active in Hmap, Hlen, Hind.
    split; [exact Hmap|]. split; [exact Hlen|]. split.
    + unfold iterator_model_rebuild in Hreb. fold ind_active in Hreb.
      bind_inv Hreb. injection Hreb as _ _ <-.
      match goal with E : mask_assign _ _ _ = Ok _ |- _ =>
        apply mask_assign_ok in E as (Hm & _) end.
      rewrite Hm. unfold background_model. apply repeat_length.
    + split; [exact Hnth|].
      intros Hsphere. rewrite Hind, Hsphere. reflexivity.
  - intros a fresh st st' H.
    apply nonobject_body_ok in H.
    destruct H as (s6 & c1 & c2 & c3 & s1 & s2 & lo & lr & ls
                   & _ & _ & _ & _ & _ & _ & _ & _ & _ & _ & _ & _ & Hset & _).
    unfold nonobject_model_setup in Hset. injection Hset as <- <-.
    split; [reflexivity|]. split; [|reflexivity].
    simpl. apply count_true_repeat.
Qed.

(** [estimate_curl_electric_field] rejects no spelling.  An
    [interpolation] that is neither "rbf" nor "linear" is served as
    "nearest" is, whatever the [parameter]; a [parameter] other than
    "resistivity" is served as "conductivity" is, whatever the
    [interpolation]. *)
Theorem unknown_names_fall_back (mesh : Mesh) (survey : Survey)
    (model_map : InjectActiveCells) (model : list float)
    (frequency omega : float) :
  (forall interpolation parameter : string,
     interpolation <> "rbf"%string -> interpolation <> "linear"%string ->
     estimate_curl_electric_field mesh survey model_map model interpolation
       frequency omega parameter =
     estimate_curl_electric_field mesh survey model_map model "nearest"%string
       frequency omega parameter)
  /\
  (forall interpolation parameter : string,
     parameter <> "resistivity"%string ->
     estimate_curl_electric_field mesh survey model_map model interpolation
       frequency omega parameter =
     estimate_curl_electric_field mesh survey model_map model interpolation
       frequency omega "conductivity"%string).
Proof.
  split.
  - intros interpolation parameter H1 H2.
    unfold estimate_curl_electric_field, select_interpolator.
    apply String.eqb_neq in H1, H2. rewrite H1, H2. reflexivity.
  - intros interpolation parameter H3.
    unfold estimate_curl_electric_field, select_keyword.
    apply String.eqb_neq in H3. rewrite H3. reflexivity.
Qed.
End ModelAndNames.

(** ** compute_cell_error: agreement and missing derivatives *)

(** Subtraction on binary64 and on complex numbers. *)
Lemma sub_self (x : float) : is_finite x = true -> (x - x)%float = 0%float.
Proof.
  intros H. apply Prim2SF_inj. rewrite FloatAxioms.sub_spec.
  unfold is_finite in H.
  destruct (Prim2SF x) as [s | s | | s m e]; try discriminate H.
  - destruct s; reflexivity.
  - unfold SF64sub, SFsub. rewrite Z.sub_diag. reflexivity.
Qed.

Lemma sub_zero (x : float) : (x - 0)%float = x.
Proof.
  apply Prim2SF_inj. rewrite FloatAxioms.sub_spec.
  change (Prim2SF 0) with (S754_zero false).
  destruct (Prim2SF x) as [s | s | | s m e]; try reflexivity.
  destruct s; reflexivity.
Qed.

Lemma csub_self (z : complex) : cfinite z = true -> csub z z = czero.
Proof.
  unfold cfinite, csub, czero. intros H. apply andb_true_iff in H as [Hr Hi].
  rewrite (sub_self _ Hr), (sub_self _ Hi). reflexivity.
Qed.

Lemma csub_zero (z : complex) : csub z czero = z.
Proof.
  destruct z as [r i]. unfold csub, czero. simpl. rewrite !sub_zero.
  reflexivity.
Qed.

Section CellError.
Context `{ND : NumDiffTools}.

(** Where the interpolated curl equals the curl of the interpolated
    field as the code computes it, and that curl is finite, the cell
    error is exactly zero. *)
Theorem compute_cell_error_zero_on_agreement (cell : point)
    (curl_x curl_y curl_z ef_x ef_y ef_z : interpolator) :
  let from_field :=
    curl_of_jacobian
      (nan_to_zero
         (nd_Jacobian 2 (fun x => V3 (ef_x x) (ef_y x) (ef_z x)) cell)) in
  V3 (curl_x cell) (curl_y cell) (curl_z cell) = from_field ->
  cfinite (c0 from_field) && cfinite (c1 from_field) && cfinite (c2 from_field)
    = true ->
  compute_cell_error cell curl_x curl_y curl_z ef_x ef_y ef_z = 0%float.
Proof.
  intros from_field Hagree Hfin.
  apply andb_true_iff in Hfin as [Hfin F2].
  apply andb_true_iff in Hfin as [F0 F1].
  unfold compute_cell_error. fold from_field. rewrite Hagree.
  unfold vzip. rewrite (csub_self _ F0), (csub_self _ F1), (csub_self _ F2).
  reflexivity.
Qed.

(** Where the numerical Jacobian is NaN in every entry, the entries are
    replaced by zero and the cell error is the norm of the interpolated
    curl alone. *)
Theorem compute_cell_error_without_derivative (cell : point)
    (curl_x curl_y curl_z ef_x ef_y ef_z : interpolator) :
  (forall i j,
     cis_nan
       (entry (nd_Jacobian 2 (fun x => V3 (ef_x x) (ef_y x) (ef_z x)) cell)
          i j) = true) ->
  compute_cell_error cell curl_x curl_y curl_z ef_x ef_y ef_z =
  norm_complex (V3 (curl_x cell) (curl_y cell) (curl_z cell)).
Proof.
  intros Hnan. unfold compute_cell_error, curl_of_jacobian.
  rewrite !nan_to_zero_entry, !Hnan.
  change (csub czero czero) with czero.
  unfold vzip. simpl. rewrite !csub_zero. reflexivity.
Qed.
End CellError.

(** ** estimate_error: the number of cells *)

Section SelectionSize.
Context `{NP : NumPy} `{NPL : !NumPyLaws NP} `{ND : NumDiffTools}.

(** How many cells [estimate_error] returns on a search area of [size]
    cells, with [n = ceil(refine_percentage * size)].  On a non-empty
    area: for [1 <= n <= size] exactly [n] cells and for
    [-size < n <= 0] (a percentage at or below zero) [size + n] cells,
    all of them cells of the search area; for [size < n <= 2^63] (a
    percentage above one) or [-2^63 < n <= -size] the partition index
    [-n] is a C integer out of bounds and the call raises [ValueError].
    On any area, once [-n] is out of bounds and no longer an integer
    numpy converts ([n > 2^63] or [n <= -2^64]) the call raises
    [TypeError].  On an empty area every other [n] gives the empty
    selection. *)
Theorem estimate_error_cardinality (search_area : list point)
    (curl_x curl_y curl_z ef_x ef_y ef_z : interpolator)
    (refine_percentage : float) (n : Z) :
  n_refine_cells_of refine_percentage search_area = Ok n ->
  let size := Z.of_nat (length search_area) in
  let selected :=
    estimate_error search_area curl_x curl_y curl_z ef_x ef_y ef_z
      refine_percentage in
  (search_area <> [] -> - size < n <= size ->
   exists cells,
     selected = Ok cells
     /\ Z.of_nat (length cells) = (if 1 <=? n then n else size + n)
     /\ Forall (fun c => In c search_area) cells)
  /\ (search_area <> [] ->
      size < n <= 2 ^ 63 \/ - 2 ^ 63 < n <= - size ->
      selected = Raise ValueError)
  /\ (size < n -> 2 ^ 63 < n -> selected = Raise TypeError)
  /\ (n <= - size -> n <= - 2 ^ 64 -> selected = Raise TypeError)
  /\ (search_area = [] -> - 2 ^ 64 < n <= 2 ^ 63 -> selected = Ok []).
Proof.
  intros Hn size selected.
  set (errs := cell_errors_of search_area curl_x curl_y curl_z ef_x ef_y ef_z).
  assert (Herrs : Z.of_nat (length errs) = size)
    by (unfold errs, cell_errors_of, size; rewrite length_map; reflexivity).
  assert (Hsel : selected =
                 try! partition := argpartition errs (- n) in
                 take_rows search_area (slice_from partition (- n))).
  { unfold selected, estimate_error. rewrite Hn. reflexivity. }
  assert (Hnorm : normalize_kth size (- n) =
                  if 1 <=? n then size - n else - n).
  { unfold normalize_kth.
    destruct (Z.ltb_spec (- n) 0); destruct (Z.leb_spec 1 n); lia. }
  assert (Hout : ~ 0 <= normalize_kth size (- n) < size ->
                 selected =
                 try! partition := argpartition_checked errs (- n) in
                 take_rows search_area (slice_from partition (- n))).
  { intros H. rewrite Hsel, argpartition_outside; [reflexivity|].
    cbv zeta. rewrite Herrs. exact H. }
  split; [|split; [|split; [|split]]].
  - intros Hne Hin.
    assert (Hsize : 1 <= size).
    { unfold size. destruct search_area; [contradiction|]. simpl. lia. }
    assert (Hk : 0 <= normalize_kth size (- n) < size)
      by (rewrite Hnorm; destruct (Z.leb_spec 1 n); lia).
    rewrite Hsel, argpartition_inside by (cbv zeta; rewrite Herrs; exact Hk).
    rewrite Herrs. cbn [rbind].
    set (k := Z.to_nat (normalize_kth size (- n))).
    assert (Hklt : (k < length errs)%nat) by (unfold k; lia).
    pose proof (introselect_length errs k Hklt) as Hlen.
    destruct (take_rows_total search_area (slice_from (introselect errs k) (- n)))
      as (cells & Hok & Hl & Hmem).
    { apply List.Forall_forall. intros i Hi. apply slice_from_incl in Hi.
      apply (introselect_in_range errs k i Hklt) in Hi. lia. }
    exists cells. split; [exact Hok|]. split; [|exact Hmem].
    rewrite Hl. destruct (Z.leb_spec 1 n).
    + rewrite slice_from_tail; lia.
    + rewrite slice_from_length; lia.
  - intros Hne Hrange.
    assert (Hsize : 1 <= size).
    { unfold size. destruct search_area; [contradiction|]. simpl. lia. }
    rewrite Hout by (rewrite Hnorm; destruct (Z.leb_spec 1 n); lia).
    unfold argpartition_checked, intp_of_kth. rewrite Herrs.
    destruct (Z.leb_spec (- 2 ^ 63) (- n)); [|lia].
    destruct (Z.ltb_spec (- n) (2 ^ 63)); [|lia].
    cbn [andb rbind]. destruct (Z.eqb_spec size 0); [lia|].
    rewrite Hnorm.
    destruct (Z.leb_spec 1 n).
    + destruct (Z.leb_spec 0 (size - n)); [lia|]. reflexivity.
    + destruct (Z.leb_spec 0 (- n)); [|lia].
      destruct (Z.ltb_spec (- n) size); [lia|]. reflexivity.
  - intros Hbig Hint.
    assert (Hsize : 0 <= size) by (unfold size; lia).
    rewrite Hout by (rewrite Hnorm; destruct (Z.leb_spec 1 n); lia).
    unfold argpartition_checked, intp_of_kth.
    destruct (Z.leb_spec (- 2 ^ 63) (- n)); [lia|].
    destruct (Z.leb_spec (2 ^ 63) (- n)); [lia|]. reflexivity.
  - intros Hsmall Hint.
    assert (Hsize : 0 <= size) by (unfold size; lia).
    rewrite Hout by (rewrite Hnorm; destruct (Z.leb_spec 1 n); lia).
    unfold argpartition_checked, intp_of_kth.
    destruct (Z.ltb_spec (- n) (2 ^ 63)); [lia|].
    destruct (Z.ltb_spec (- n) (2 ^ 64)); [lia|].
    rewrite !andb_false_r. reflexivity.
  - intros Hempty Hrange.
    assert (Hsize : size = 0) by (unfold size; rewrite Hempty; reflexivity).
    rewrite Hout by lia.
    unfold argpartition_checked. rewrite Herrs, Hsize.
    assert (Hintp : exists k, intp_of_kth (- n) = Ok k).
    { unfold intp_of_kth.
      destruct (Z.leb_spec (- 2 ^ 63) (- n)); [|lia].
      destruct (Z.ltb_spec (- n) (2 ^ 63)); [eexists; reflexivity|].
      destruct (Z.leb_spec (2 ^ 63) (- n)); [|lia].
      destruct (Z.ltb_spec (- n) (2 ^ 64)); [eexists; reflexivity|lia]. }
    destruct Hintp as (k & ->). cbn [rbind Z.eqb].
    rewrite Hempty. unfold slice_from. simpl. rewrite skipn_nil. reflexivity.
Qed.

(** A NaN [refine_percentage] raises [ValueError] (from [int] of a NaN
    ceiling), whatever the search area and the fields. *)
Theorem estimate_error_rejects_nan (search_area : list point)
    (curl_x curl_y curl_z ef_x ef_y ef_z : interpolator)
    (refine_percentage : float) :
  is_nan refine_percentage = true ->
  estimate_error search_area curl_x curl_y curl_z ef_x ef_y ef_z
    refine_percentage = Raise ValueError.
Proof.
  intros H. unfold estimate_error, n_refine_cells_of, int_ceil.
  apply (mul_nan _ (float_of_nat (length search_area))) in H.
  apply is_nan_spec in H. rewrite H. reflexivity.
Qed.
End SelectionSize.

(** ** The seafloor grid *)

Lemma map_result_ok {A B} (f : A -> result B) (l : list A) (ys : list B) :
  map_result f l = Ok ys <-> Forall2 (fun x y => f x = Ok y) l ys.
Proof.
  revert ys. induction l as [|x l IH]; intros ys; simpl.
  - split.
    + intros H. injection H as <-. constructor.
    + intros H. inversion H. reflexivity.
  - split.
    + intros H. destruct (f x) as [y|e] eqn:E; [|discriminate H]. simpl in H.
      destruct (map_result f l) as [ys'|e] eqn:E'; [|discriminate H].
      simpl in H. injection H as <-. constructor; [exact E|]. apply IH.
      reflexivity.
    + intros H. inversion H as [|x' y l' ys' Hy Hrest]; subst.
      rewrite Hy. simpl. apply IH in Hrest. rewrite Hrest. reflexivity.
Qed.

Lemma map_result_raise {A B} (f : A -> result B) (l : list A) (e : exn) :
  map_result f l = Raise e -> exists x, In x l /\ f x = Raise e.
Proof.
  induction l as [|x l IH]; simpl; [discriminate|].
  destruct (f x) as [y|e'] eqn:E; simpl.
  - destruct (map_result f l) as [ys|e'] eqn:E'; simpl; [discriminate|].
    intros H. injection H as <-. destruct (IH eq_refl) as (x' & Hin & Hx').
    exists x'. auto.
  - intros H. injection H as <-. exists x. auto.
Qed.

Lemma no_selection {A} (ns : list A) (mask : list bool) :
  length mask = length ns ->
  map fst (List.filter (fun p : A * bool => snd p) (combine ns mask)) = [] ->
  Forall (fun b => b = false) mask.
Proof.
  revert mask. induction ns as [|n ns IH]; intros [|b mask] Hlen H;
    try discriminate Hlen; [constructor|].
  simpl in *. destruct b; simpl in H; [discriminate H|].
  constructor; [reflexivity|]. apply IH; [lia | exact H].
Qed.

Lemma seafloor_of_column_raise (nodes_z column : list float) (e : exn) :
  seafloor_of_column nodes_z column = Raise e ->
  e = IndexError
  /\ (length column <> length (drop_last nodes_z)
      \/ Forall (fun rho => lt rho 0.33%float = false) column).
Proof.
  unfold seafloor_of_column, mask_select, below_threshold.
  rewrite length_map.
  destruct (Nat.eqb_spec (length column) (length (drop_last nodes_z)))
    as [Hlen|Hlen];
    simpl.
  - destruct (map fst _) as [|z rest] eqn:E; [|discriminate].
    intros H. injection H as <-. split; [reflexivity|]. right.
    apply no_selection in E; [|rewrite length_map; exact Hlen].
    apply List.Forall_forall. intros rho Hin.
    rewrite List.Forall_forall in E. apply E.
    exact (in_map (fun r => lt r 0.33%float) column rho Hin).
  - intros H. injection H as <-. auto.
Qed.

(** The seafloor loop as a whole: it fills the grid exactly when every
    column has a seafloor, entry by entry the one of its column; it
    raises nothing but [IndexError], and only when some column has a
    length other than that of [nodes_z[:-1]] or holds no cell below
    0.33. *)
Theorem seafloor_grid_outcome (nodes_z : list float)
    (property_x : list (list (list float))) :
  (forall grid,
     seafloor nodes_z property_x = Ok grid <->
     Forall2 (Forall2 (fun column z => seafloor_of_column nodes_z column = Ok z))
       property_x grid)
  /\ (forall e,
        seafloor nodes_z property_x = Raise e ->
        e = IndexError
        /\ exists row column,
             In row property_x /\ In column row
             /\ (length column <> length (drop_last nodes_z)
                 \/ Forall (fun rho => lt rho 0.33%float = false) column)).
Proof.
  split.
  - intros grid. unfold seafloor. rewrite map_result_ok.
    split; intros H; (eapply Forall2_impl; [exact H|]);
      intros row zs; apply map_result_ok.
  - intros e H. unfold seafloor in H.
    apply map_result_raise in H as (row & Hrow & H).
    apply map_result_raise in H as (column & Hcol & H).
    apply seafloor_of_column_raise in H as (-> & H).
    split; [reflexivity|]. exists row, column. auto.
Qed.

(** The seafloor of a column is the lower node of its first cell below
    0.33. *)
Lemma seafloor_of_column_ok (nodes_z column : list float) (z : float) :
  seafloor_of_column nodes_z column = Ok z ->
  exists k rho,
    nth_error column k = Some rho
    /\ lt rho 0.33%float = true
    /\ (forall j r, (j < k)%nat -> nth_error column j = Some r ->
          lt r 0.33%float = false)
    /\ nth_error nodes_z k = Some z.
Proof.
  unfold seafloor_of_column, mask_select, below_threshold.
  rewrite length_map.
  destruct (Nat.eqb_spec (length column) (length (drop_last nodes_z)))
    as [Hlen|Hlen];
    [|discriminate].
  simpl.
  pose proof (first_selected (drop_last nodes_z)
                (map (fun rho => lt rho 0.33%float) column) z
                ltac:(rewrite length_map; exact Hlen)) as [Hfirst _].
  intros H.
  destruct (map fst _) as [|z' rest] eqn:E; [discriminate H|].
  injection H as ->.
  destruct (Hfirst (ex_intro _ rest eq_refl)) as (k & Hk & Hbefore & Hz).
  rewrite nth_error_map in Hk.
  destruct (nth_error column k) as [rho|] eqn:Erho; [|discriminate Hk].
  simpl in Hk. injection Hk as Hk.
  exists k, rho. repeat split; auto.
  - intros j r Hj Hr. specialize (Hbefore j Hj).
    rewrite nth_error_map, Hr in Hbefore. simpl in Hbefore. congruence.
  - rewrite <- nth_error_removelast; [exact Hz|].
    apply nth_error_Some. unfold drop_last in Hz. congruence.
Qed.

(** With [nodes_z] in ascending order, the value taken as seafloor is at
    or below the lower node of every cell of the column whose
    resistivity is below 0.33: it is the bottom of the deepest such
    cell. *)
Theorem seafloor_is_the_deepest_water (nodes_z column : list float)
    (z : float) :
  StronglySorted (fun a b => PrimFloat.leb a b = true) nodes_z ->
  seafloor_of_column nodes_z column = Ok z ->
  forall j rho z_j,
    nth_error column j = Some rho -> lt rho 0.33%float = true ->
    nth_error nodes_z j = Some z_j ->
    z_j = z \/ PrimFloat.leb z z_j = true.
Proof.
  intros Hsorted H j rho z_j Hrho Hlt Hzj.
  apply seafloor_of_column_ok in H as (k & rho_k & _ & _ & Hbefore & Hz).
  destruct (Nat.lt_trichotomy j k) as [Hjk|[->|Hjk]].
  - rewrite (Hbefore j rho Hjk Hrho) in Hlt. discriminate Hlt.
  - left. congruence.
  - right. eapply (sorted_nth _ _ Hsorted k j); eauto.
Qed.

(** ** The field inside the box *)

Lemma take_rows_app {A} (a : list A) (idx : list nat) (xs : list A) (v : A) :
  take_rows a idx = Ok xs -> take_rows (a ++ [v]) idx = Ok xs.
Proof.
  revert xs. induction idx as [|i idx IH]; intros xs H; simpl in *; [exact H|].
  destruct (nth_error a i) as [x|] eqn:E; [|discriminate H].
  rewrite nth_error_app1 by (apply nth_error_Some; congruence). rewrite E.
  destruct (take_rows a idx) as [ys|e]; [|discriminate H].
  rewrite (IH ys eq_refl). exact H.
Qed.

(** Reading a block at the positions where the test holds gives the
    values paired with the locations that pass the test. *)
Lemma take_where {A B} (f : A -> bool) (pts : list A) :
  forall (vals pre : list B),
    length vals = length pts ->
    take_rows (pre ++ vals) (where_from (length pre) (map f pts)) =
    Ok (map snd (List.filter (fun p : A * B => f (fst p)) (combine pts vals))).
Proof.
  induction pts as [|p pts IH]; intros vals pre Hlen.
  - reflexivity.
  - destruct vals as [|v vals]; [discriminate Hlen|].
    simpl in Hlen. injection Hlen as Hlen.
    specialize (IH vals (pre ++ [v]) Hlen).
    rewrite <- app_assoc, length_app in IH. simpl in IH.
    replace (length pre + 1)%nat with (S (length pre)) in IH by lia.
    simpl. destruct (f p); simpl.
    + rewrite nth_error_app2 by lia. rewrite Nat.sub_diag. simpl.
      rewrite IH. reflexivity.
    + exact IH.
Qed.

Lemma take_np_where {A B} (f : A -> bool) (pts : list A) (vals : list B) :
  length vals = length pts ->
  take_rows vals (np_where (map f pts)) =
  Ok (map snd (List.filter (fun p : A * B => f (fst p)) (combine pts vals))).
Proof. intros H. exact (take_where f pts vals [] H). Qed.

Lemma select_where {A B} (f : A -> bool) (pts : list A) :
  forall (vals : list B),
    length vals = length pts ->
    mask_select pts (map f pts) =
    Ok (map fst (List.filter (fun p : A * B => f (fst p)) (combine pts vals))).
Proof.
  intros vals Hlen. unfold mask_select. rewrite length_map, Nat.eqb_refl.
  f_equal. revert vals Hlen.
  induction pts as [|p pts IH]; intros vals Hlen; [reflexivity|].
  destruct vals as [|v vals]; [discriminate Hlen|].
  simpl in Hlen. injection Hlen as Hlen.
  simpl. destruct (f p); simpl; rewrite (IH vals Hlen); reflexivity.
Qed.

Lemma combine_fst_snd {A B} (l : list (A * B)) :
  combine (map fst l) (map snd l) = l.
Proof.
  induction l as [|[a b] l IH]; simpl; [reflexivity|]. rewrite IH.
  reflexivity.
Qed.


(** When the field array has one entry per edge, the extraction keeps,
    for each direction, exactly the pairs of an edge and the field value
    on it whose edge lies in the box, in their order: [Ex] stays aligned
    with the filtered [xedges], and likewise for y and z. *)
Theorem extract_field_keeps_pairs (Efield : list complex)
    (xedges yedges zedges : list point) :
  length Efield = (length xedges + length yedges + length zedges)%nat ->
  let Ex_inter := slice Efield 0 (length xedges) in
  let Ey_inter :=
    slice Efield (length xedges) (length xedges + length yedges) in
  let Ez_inter :=
    slice Efield (length xedges + length yedges)
      (length xedges + length yedges + length zedges) in
  exists out,
    extract_field Efield xedges yedges zedges = Ok out
    /\ combine (box_xedges out) (box_Ex out) = kept xedges Ex_inter
    /\ combine (box_yedges out) (box_Ey out) = kept yedges Ey_inter
    /\ combine (box_zedges out) (box_Ez out) = kept zedges Ez_inter
    /\ length (box_Ex out) = length (box_xedges out)
    /\ length (box_Ey out) = length (box_yedges out)
    /\ length (box_Ez out) = length (box_zedges out).
Proof.
  intros Hlen Ex_inter Ey_inter Ez_inter.
  destruct (slice_three Efield _ _ _ Hlen) as (_ & Hx & Hy & Hz).
  fold Ex_inter in Hx. fold Ey_inter in Hy. fold Ez_inter in Hz.
  eexists.
  unfold extract_field, box_mask.
  fold Ex_inter. fold Ey_inter. fold Ez_inter.
  rewrite (take_np_where in_box xedges _ Hx).
  rewrite (take_np_where in_box yedges _ Hy).
  rewrite (take_np_where in_box zedges _ Hz).
  simpl.
  rewrite (select_where in_box xedges _ Hx).
  rewrite (select_where in_box yedges _ Hy).
  rewrite (select_where in_box zedges _ Hz).
  simpl. split; [reflexivity|]. simpl.
  rewrite !combine_fst_snd, !length_map.
  repeat split; reflexivity.
Qed.

(** ** The properties above on concrete inputs *)

(** A fresh run of [iteratornonobject] with cap 3 on a field that keeps
    moving, at its exit. *)
Lemma iteratornonobject_exit_and_return_witness :
  exists (st : @loop_state Toy.meshlib) (lim : number),
    (gt (st_diff st) 0.01%float = false \/ num_lt (st_i st) lim = false)
    /\ match Toy.returned_of Toy.nonobject_run with
       | Short _ _ _ _ _ => lt (st_diff st) 0.01%float = true
       | Long _ _ _ _ _ _ _ _ => lt (st_diff st) 0.01%float = false
       end.
Proof.
  assert (Hrun : Toy.nonobject_run =
                 Some (3%nat, @Ok (@returned Toy.meshlib * store)
                                (Toy.returned_of Toy.nonobject_run,
                                 Toy.store_of Toy.nonobject_run)))
    by (vm_compute; reflexivity).
  destruct (iteratornonobject_exit_and_return (NP := Toy.numpy) (ND := Toy.numdiff)
              (SP := Toy.scipy) (EM := Toy.simpeg Toy.e_moving) 3
              (Toy.nonobject_fresh_args Toy.e_moving 3) Toy.empty_store
              (Toy.store_of Toy.nonobject_run) 3
              (Toy.returned_of Toy.nonobject_run) Hrun)
    as (st0 & lim & fresh & st & _ & _ & Hexit & Hshape).
  exists st, lim. split; [exact Hexit | exact Hshape].
Defined.

(** Fresh calls of both functions with [lim_iterations = 0]. *)
Lemma no_iteration_no_return_witness :
  iterator_from (NP := Toy.numpy) (ND := Toy.numdiff) (SP := Toy.scipy)
    (EM := Toy.simpeg Toy.e_moving) 5 (Toy.fresh_args Toy.e_moving 0)
    Toy.empty_store = Some (0%nat, Raise UnboundLocalError)
  /\ iteratornonobject_from (NP := Toy.numpy) (ND := Toy.numdiff) (SP := Toy.scipy)
       (EM := Toy.simpeg Toy.e_moving) 5
       (Toy.nonobject_fresh_args Toy.e_moving 0) Toy.empty_store
     = Some (0%nat, Raise UnboundLocalError).
Proof.
  assert (Hinit : iterator_init (EM := Toy.simpeg Toy.e_moving)
                    (Toy.fresh_args Toy.e_moving 0) Toy.empty_store =
                  Ok (Toy.get_state (Toy.state_after Toy.e_moving 0 0),
                      PyInt 0, true))
    by (vm_compute; reflexivity).
  assert (Hlim : 0 <= 0) by lia.
  destruct (no_iteration_no_return (NP := Toy.numpy) (ND := Toy.numdiff)
              (SP := Toy.scipy) (EM := Toy.simpeg Toy.e_moving))
    as (Hit & Hno & _).
  split.
  - exact (Hit (Toy.fresh_args Toy.e_moving 0) Toy.empty_store _ _ _
             Hlim Hinit 5%nat).
  - apply (Hno (Toy.nonobject_fresh_args Toy.e_moving 0) Toy.empty_store
             Hlim); [discriminate | left; reflexivity].
Defined.

(** A call of [iterator] resumed at iteration 2 without the three
    history lists does not return. *)
Lemma resumed_call_needs_all_arguments_witness :
  match iterator_from (NP := Toy.numpy) (ND := Toy.numdiff) (SP := Toy.scipy)
          (EM := Toy.simpeg Toy.e_moving) 5 Toy.resumed_without_lists
          Toy.three_list_store with
  | Some (_, Ok _) => False
  | _ => True
  end.
Proof.
  destruct (resumed_call_needs_all_arguments (NP := Toy.numpy) (ND := Toy.numdiff)
              (SP := Toy.scipy) (EM := Toy.simpeg Toy.e_moving))
    as [Hit _].
  assert (Hresume : starts_fresh (it_diff_list Toy.resumed_without_lists) =
                    Ok false) by reflexivity.
  pose proof (Hit Toy.resumed_without_lists Toy.three_list_store Hresume
                (or_introl eq_refl) 5%nat) as H.
  destruct (iterator_from 5 Toy.resumed_without_lists Toy.three_list_store)
    as [[n [[r s']|e]]|]; [exact (H n r s' eq_refl) | exact I | exact I].
Defined.

(** The record of the call resumed at iteration 2, which ran two
    bodies: the caller's row, then the indices 3 and 4. *)
Lemma returned_record_indices_witness :
  map fst (returned_record (Toy.returned_of Toy.resumed_run))
  = [2; 3; 4]%float.
Proof.
  assert (Hrun : iterator_from (NP := Toy.numpy) (ND := Toy.numdiff)
                   (SP := Toy.scipy) (EM := Toy.simpeg Toy.e_moving) 2
                   Toy.resumed_args Toy.three_list_store =
                 Some (2%nat, @Ok (@returned Toy.meshlib * store)
                                (Toy.returned_of Toy.resumed_run,
                                 Toy.store_of Toy.resumed_run)))
    by (vm_compute; reflexivity).
  destruct (returned_record_indices (NP := Toy.numpy) (ND := Toy.numdiff)
              (SP := Toy.scipy) (EM := Toy.simpeg Toy.e_moving)) as [Hit _].
  destruct (Hit Toy.resumed_args Toy.three_list_store
              (Toy.store_of Toy.resumed_run) false 2%nat 2%nat
              (Toy.returned_of Toy.resumed_run) eq_refl Hrun)
    as (new & Hrec & Hlen & Hidx).
  rewrite Hrec.
  destruct new as [|r1 [|r2 [|r3 new]]]; try discriminate Hlen.
  pose proof (Hidx 0%nat ltac:(simpl; lia)) as H0.
  pose proof (Hidx 1%nat ltac:(simpl; lia)) as H1.
  cbn [nth] in H0, H1. rewrite map_app.
  change (map fst [r1; r2]) with [fst r1; fst r2]. rewrite H0, H1.
  vm_compute. reflexivity.
Defined.

(** A call resumed from three lists of one entry each, with two more
    iterations allowed: each list gains two entries. *)
Lemma resumed_run_extends_the_lists_witness :
  exists n1 n2 n3,
    lists (Toy.store_of Toy.resumed_run) !! 0%nat
      = Some ([[Toy.origin]] ++ n1)
    /\ lists (Toy.store_of Toy.resumed_run) !! 1%nat
       = Some ([[Toy.origin]] ++ n2)
    /\ lists (Toy.store_of Toy.resumed_run) !! 2%nat
       = Some ([[Toy.unit_x]] ++ n3)
    /\ length n1 = 2%nat /\ length n2 = 2%nat /\ length n3 = 2%nat.
Proof.
  assert (Hrun : iterator_from (NP := Toy.numpy) (ND := Toy.numdiff) (SP := Toy.scipy)
                   (EM := Toy.simpeg Toy.e_moving) 2 Toy.resumed_args
                   Toy.three_list_store =
                 Some (2%nat, @Ok (@returned Toy.meshlib * store)
                                (Toy.returned_of Toy.resumed_run,
                                 Toy.store_of Toy.resumed_run)))
    by (vm_compute; reflexivity).
  assert (H0 : lists Toy.three_list_store !! 0%nat = Some [[Toy.origin]])
    by (vm_compute; reflexivity).
  assert (H1 : lists Toy.three_list_store !! 1%nat = Some [[Toy.origin]])
    by (vm_compute; reflexivity).
  assert (H2 : lists Toy.three_list_store !! 2%nat = Some [[Toy.unit_x]])
    by (vm_compute; reflexivity).
  assert (N01 : 0%nat <> 1%nat) by discriminate.
  assert (N02 : 0%nat <> 2%nat) by discriminate.
  assert (N12 : 1%nat <> 2%nat) by discriminate.
  destruct (resumed_run_extends_the_lists (NP := Toy.numpy) (ND := Toy.numdiff)
              (SP := Toy.scipy) (EM := Toy.simpeg Toy.e_moving)
              Toy.resumed_args Toy.three_list_store
              (Toy.store_of Toy.resumed_run) 0 1 2
              [[Toy.origin]] [[Toy.origin]] [[Toy.unit_x]] 2 2
              (Toy.returned_of Toy.resumed_run)
              eq_refl eq_refl eq_refl eq_refl N01 N02 N12 H0 H1 H2 Hrun)
    as [H _].
  exact H.
Defined.

(** A fresh run of [iteratornonobject] of three bodies on an empty store:
    three lists of three entries. *)
Lemma nonobject_fresh_run_creates_its_lists_witness :
  exists l1 l2 l3,
    lists (Toy.store_of Toy.nonobject_run) !! next_loc Toy.empty_store
      = Some l1
    /\ lists (Toy.store_of Toy.nonobject_run) !! S (next_loc Toy.empty_store)
       = Some l2
    /\ lists (Toy.store_of Toy.nonobject_run)
         !! S (S (next_loc Toy.empty_store)) = Some l3
    /\ length l1 = 3%nat /\ length l2 = 3%nat /\ length l3 = 3%nat.
Proof.
  assert (Hrun : iteratornonobject_from (NP := Toy.numpy) (ND := Toy.numdiff) (SP := Toy.scipy)
                   (EM := Toy.simpeg Toy.e_moving) 3
                   (Toy.nonobject_fresh_args Toy.e_moving 3)
                   Toy.empty_store =
                 Some (3%nat, @Ok (@returned Toy.meshlib * store)
                                (Toy.returned_of Toy.nonobject_run,
                                 Toy.store_of Toy.nonobject_run)))
    by (vm_compute; reflexivity).
  destruct (nonobject_fresh_run_creates_its_lists (NP := Toy.numpy) (ND := Toy.numdiff)
              (SP := Toy.scipy) (EM := Toy.simpeg Toy.e_moving)
              (Toy.nonobject_fresh_args Toy.e_moving 3) Toy.empty_store
              (Toy.store_of Toy.nonobject_run) 3 3
              (Toy.returned_of Toy.nonobject_run) eq_refl Hrun)
    as [H _].
  exact H.
Defined.

(** The first body of a fresh run of [iterator]: the model has one entry
    per active cell of the rebuilt mesh. *)
Lemma rebuilt_model_fits_mesh_witness :
  let st' := Toy.get_state (Toy.state_after Toy.e_moving 3 1) in
  length (st_model st') =
  count_true (surface2ind_topo (SimPEG := Toy.simpeg Toy.e_moving)
                (st_mesh st') (it_surface (Toy.fresh_args Toy.e_moving 3))).
Proof.
  assert (Hbody : iterator_body (NP := Toy.numpy) (ND := Toy.numdiff) (SP := Toy.scipy)
                    (EM := Toy.simpeg Toy.e_moving)
                    (Toy.fresh_args Toy.e_moving 3) true
                    (Toy.get_state (Toy.state_after Toy.e_moving 3 0)) =
                  Ok (Toy.get_state (Toy.state_after Toy.e_moving 3 1)))
    by (vm_compute; reflexivity).
  destruct (rebuilt_model_fits_mesh (NP := Toy.numpy) (ND := Toy.numdiff) (SP := Toy.scipy)
              (EM := Toy.simpeg Toy.e_moving)) as [Hit _].
  destruct (Hit _ _ _ _ Hbody) as (_ & Hlen & _).
  exact Hlen.
Defined.

(** An interpolation called "cubic" is served as "nearest" is, and a
    parameter called "rho" as "conductivity" is, each on its own. *)
Lemma unknown_names_fall_back_witness :
  let model_map := mkInjectActiveCells Toy.meshlib [] [true; true] 1%float in
  estimate_curl_electric_field (SP := Toy.scipy)
    (EM := Toy.simpeg Toy.e_moving) [] tt model_map
    [1; 1]%float "cubic"%string 1%float 6%float "resistivity"%string =
  estimate_curl_electric_field (SP := Toy.scipy)
    (EM := Toy.simpeg Toy.e_moving) [] tt model_map
    [1; 1]%float "nearest"%string 1%float 6%float "resistivity"%string
  /\ estimate_curl_electric_field (SP := Toy.scipy)
       (EM := Toy.simpeg Toy.e_moving) [] tt model_map
       [1; 1]%float "rbf"%string 1%float 6%float "rho"%string =
     estimate_curl_electric_field (SP := Toy.scipy)
       (EM := Toy.simpeg Toy.e_moving) [] tt model_map
       [1; 1]%float "rbf"%string 1%float 6%float "conductivity"%string.
Proof.
  intros model_map.
  destruct (unknown_names_fall_back (SP := Toy.scipy)
              (EM := Toy.simpeg Toy.e_moving) [] tt model_map [1; 1]%float
              1%float 6%float) as [Hname Hpar].
  split.
  - apply Hname; discriminate.
  - apply Hpar; discriminate.
Defined.

(** Three points: a percentage of 2 asks for six cells and raises
    [ValueError], a percentage of one half gives two cells, a percentage
    of minus one half gives the two cells from position 1 on, and a
    percentage of [1e300] asks for a number of cells that is no C
    integer and raises [TypeError]. *)
Lemma estimate_error_cardinality_witness :
  let area := [Toy.origin; Toy.unit_x; Toy.origin] in
  let zero : interpolator := fun _ => czero in
  estimate_error (NP := Toy.numpy) (ND := Toy.numdiff) area
    zero zero zero zero zero zero 2%float = Raise ValueError
  /\ (exists cells,
        estimate_error (NP := Toy.numpy) (ND := Toy.numdiff) area
          zero zero zero zero zero zero 0.5%float = Ok cells
        /\ Z.of_nat (length cells) = 2)
  /\ (exists cells,
        estimate_error (NP := Toy.numpy) (ND := Toy.numdiff) area
          zero zero zero zero zero zero (-0.5)%float = Ok cells
        /\ Z.of_nat (length cells) = 2)
  /\ estimate_error (NP := Toy.numpy) (ND := Toy.numdiff) area
       zero zero zero zero zero zero 1e300%float = Raise TypeError.
Proof.
  intros area zero.
  assert (Hne : area <> []) by discriminate.
  assert (H6 : n_refine_cells_of 2%float area = Ok 6)
    by (vm_compute; reflexivity).
  assert (H2 : n_refine_cells_of 0.5%float area = Ok 2)
    by (vm_compute; reflexivity).
  assert (Hm : n_refine_cells_of (-0.5)%float area = Ok (-1))
    by (vm_compute; reflexivity).
  destruct (n_refine_cells_of 1e300%float area) as [big|e] eqn:Hbig;
    [|vm_compute in Hbig; discriminate Hbig].
  assert (Hbig' : 2 ^ 63 < big /\ 3 < big).
  { vm_compute in Hbig. injection Hbig as <-. split; reflexivity. }
  split; [|split; [|split]].
  - pose proof (estimate_error_cardinality (NP := Toy.numpy)
                  (NPL := toy_numpy_laws) (ND := Toy.numdiff) area
                  zero zero zero zero zero zero 2%float 6 H6) as H.
    cbv zeta in H. destruct H as (_ & H & _). apply H; [exact Hne|].
    left. simpl. lia.
  - pose proof (estimate_error_cardinality (NP := Toy.numpy)
                  (NPL := toy_numpy_laws) (ND := Toy.numdiff) area
                  zero zero zero zero zero zero 0.5%float 2 H2) as H.
    cbv zeta in H. destruct H as (H & _).
    destruct H as (cells & Hok & Hlen & _); [exact Hne | simpl; lia|].
    exists cells. split; [exact Hok | exact Hlen].
  - pose proof (estimate_error_cardinality (NP := Toy.numpy)
                  (NPL := toy_numpy_laws) (ND := Toy.numdiff) area
                  zero zero zero zero zero zero (-0.5)%float (-1) Hm) as H.
    cbv zeta in H. destruct H as (H & _).
    destruct H as (cells & Hok & Hlen & _); [exact Hne | simpl; lia|].
    exists cells. split; [exact Hok | exact Hlen].
  - pose proof (estimate_error_cardinality (NP := Toy.numpy)
                  (NPL := toy_numpy_laws) (ND := Toy.numdiff) area
                  zero zero zero zero zero zero 1e300%float big Hbig) as H.
    cbv zeta in H. destruct H as (_ & _ & H & _).
    apply H; [simpl; lia | lia].
Defined.

(** A NaN percentage on one point. *)
Lemma estimate_error_rejects_nan_witness :
  estimate_error (NP := Toy.numpy) (ND := Toy.numdiff) [Toy.origin]
    (fun _ => czero) (fun _ => czero) (fun _ => czero)
    (fun _ => czero) (fun _ => czero) (fun _ => czero) nan
  = Raise ValueError.
Proof.
  apply (estimate_error_rejects_nan (NP := Toy.numpy) (ND := Toy.numdiff)). reflexivity.
Defined.

(** A sheared field whose curl is (0, 0, 1), against an interpolated curl
    of (0, 0, 1). *)
Lemma compute_cell_error_zero_on_agreement_witness :
  compute_cell_error (ND := Toy.shear_numdiff) Toy.origin
    (fun _ => czero) (fun _ => czero) (fun _ => of_real 1)
    (fun _ => czero) (fun _ => czero) (fun _ => czero) = 0%float.
Proof.
  apply (compute_cell_error_zero_on_agreement (ND := Toy.shear_numdiff)).
  - vm_compute. reflexivity.
  - vm_compute. reflexivity.
Defined.

(** No derivative anywhere, against an interpolated curl of (3, 4i, 0):
    the error is its norm. *)
Lemma compute_cell_error_without_derivative_witness :
  compute_cell_error (ND := Toy.nan_numdiff) Toy.origin
    (fun _ => of_real 3) (fun _ => Cx 0 4) (fun _ => czero)
    (fun _ => czero) (fun _ => czero) (fun _ => czero) =
  norm_complex (V3 (of_real 3) (Cx 0 4) czero).
Proof.
  apply (compute_cell_error_without_derivative (ND := Toy.nan_numdiff)).
  intros [|[|i]] [|[|j]]; reflexivity.
Defined.

(** Nodes at -3, -2, -1 and 0 over a column with rock at the bottom and
    water in the two cells above: the seafloor is -2, at or below the
    bottom -1 of the upper water cell. *)
Lemma seafloor_is_the_deepest_water_witness :
  (-1)%float = (-2)%float \/ PrimFloat.leb (-2) (-1) = true.
Proof.
  assert (Hsorted : StronglySorted (fun a b => PrimFloat.leb a b = true)
                      [-3; -2; -1; 0]%float)
    by (repeat constructor).
  assert (Hrun : seafloor_of_column [-3; -2; -1; 0]%float
                   [1; 0.3; 0.3]%float = Ok (-2)%float)
    by (vm_compute; reflexivity).
  exact (seafloor_is_the_deepest_water _ _ _ Hsorted Hrun 2%nat 0.3%float
           (-1)%float eq_refl eq_refl eq_refl).
Defined.

(** Four field values on two x-edges, one y-edge and one z-edge: the
    first x-edge and the z-edge lie in the box. *)
Lemma extract_field_keeps_pairs_witness :
  exists out,
    extract_field [Cx 1 0; Cx 2 0; Cx 3 0; Cx 4 0]
      [(5, 5, -10)%float; (-1, 0, 0)%float] [(30000, 0, 0)%float]
      [(0, 0, 500)%float] = Ok out
    /\ combine (box_xedges out) (box_Ex out)
       = [((5, 5, -10)%float, Cx 1 0)]
    /\ combine (box_yedges out) (box_Ey out) = []
    /\ combine (box_zedges out) (box_Ez out)
       = [((0, 0, 500)%float, Cx 4 0)].
Proof.
  destruct (extract_field_keeps_pairs [Cx 1 0; Cx 2 0; Cx 3 0; Cx 4 0]
              [(5, 5, -10)%float; (-1, 0, 0)%float] [(30000, 0, 0)%float]
              [(0, 0, 500)%float] eq_refl)
    as (out & Hok & Hx & Hy & Hz & _).
  exists out. split; [exact Hok|]. split; [exact Hx|].
  split; [exact Hy | exact Hz].
Defined.

(** A call of [iteratornonobject] resumed at iteration 2 with two more
    iterations allowed ends after at most two loop bodies. *)
Lemma iteratornonobject_terminates_within_cap_witness :
  exists n r,
    iteratornonobject (NP := Toy.numpy) (ND := Toy.numdiff) (SP := Toy.scipy)
      (EM := Toy.simpeg Toy.e_moving) Toy.nonobject_resumed_args
      Toy.three_list_store = Some (n, r)
    /\ Z.of_nat n <= 2.
Proof.
  assert (Hresume : starts_fresh (no_diff_list Toy.nonobject_resumed_args)
                    = Ok false) by reflexivity.
  assert (Hlast : fst (List.last (no_diff_list Toy.nonobject_resumed_args)
                         (0, 0)%float) = float_of_Z 2)
    by (vm_compute; reflexivity).
  assert (H0 : 0 <= 2) by lia.
  assert (Hsum : 2 + Z.max 0 (no_lim_iterations Toy.nonobject_resumed_args)
                 <= 2 ^ 53) by (simpl; lia).
  destruct (iteratornonobject_terminates_within_cap (NP := Toy.numpy)
              (ND := Toy.numdiff) (SP := Toy.scipy)
              (EM := Toy.simpeg Toy.e_moving) Toy.nonobject_resumed_args
              Toy.three_list_store) as (_ & _ & H).
  destruct (H 2 Hresume Hlast H0 Hsum) as (n & r & Hrun & Hn & _).
  exists n, r. split; [exact Hrun | exact Hn].
Defined.
